(** * Stock ledger, invoice totals, guarded deletion and the combined report

    A shallow embedding of the database core of the billing application:
    the tables of the schema with their CHECK, primary-key and foreign-key
    constraints, the trigger functions [recalculate_invoice_total],
    [update_stock_on_purchase] and [update_stock_on_sale], the functions
    [delete_invoice_by_id] and [delete_purchase_safely], and the three
    reporting functions.

    Conventions of the embedding.
    - A table is a finite map from its primary key to the remaining columns;
      only the columns the core reads or writes are kept ([user_id],
      [created_at], [description] and the like are dropped).
    - [uuid] is an opaque key (N), [date] a day number (Z), [text] a string,
      [numeric] an exact rational (Q): PostgreSQL computes sums and products
      of numerics exactly.
    - [integer] is Z together with the int4 range: an integer expression
      whose value leaves [-2^31, 2^31-1] raises "integer out of range".
    - A statement runs in the error monad [result]; an error aborts the
      statement and the enclosing transaction keeps the state it started
      from ([commit]).
    - The statements of the core write one row at a time and transactions
      run one after the other; the interleaving of concurrent transactions
      is left to the store and is not modelled.

    - [ORDER BY] is computed by a stable sort where a result is wanted
      ([order_by]); where the order of rows that tie matters it is a
      relation ([ordered_by]): any sorted arrangement of the rows may come
      back, and not the same one from one query to the next.

    The last parts add the format checks on tax identifiers, the requests
    of the invoice form ([upsertInvoice], with the customer it may add and
    its multi-row statements, each request a transaction of its own), and
    the deletion of a product under the foreign keys. *)

From stdpp Require Import gmap strings list fin_maps sorting.
From Stdlib Require Import QArith.

Local Open Scope Z_scope.

Abbreviation uuid := N (only parsing).
Abbreviation date := Z (only parsing).

(** ** Rows *)

Module Product.
Record t := mk {
  name : string;
  stock_quantity : Z;
  unit_price : Q;
  tax_rate : Q }.
Definition with_stock_quantity (q : Z) (p : t) : t :=
  mk (name p) q (unit_price p) (tax_rate p).
End Product.

Module Purchase.
Record t := mk {
  product_id : uuid;
  purchase_date : date;
  reference_invoice : option string;
  quantity : Z }.
End Purchase.

Module Invoice.
Record t := mk {
  invoice_number : string;
  invoice_date : date;
  total_amount : Q }.
Definition with_total_amount (a : Q) (i : t) : t :=
  mk (invoice_number i) (invoice_date i) a.
End Invoice.

Module InvoiceItem.
Record t := mk {
  invoice_id : uuid;
  product_id : uuid;
  quantity : Z;
  unit_price : Q;
  tax_rate : Q }.
End InvoiceItem.

(** ** The database *)

Record db := mkdb {
  products : gmap uuid Product.t;
  purchases : gmap uuid Purchase.t;
  invoices : gmap uuid Invoice.t;
  invoice_items : gmap uuid InvoiceItem.t }.

Definition set_products (m : gmap uuid Product.t) (s : db) : db :=
  mkdb m (purchases s) (invoices s) (invoice_items s).
Definition set_purchases (m : gmap uuid Purchase.t) (s : db) : db :=
  mkdb (products s) m (invoices s) (invoice_items s).
Definition set_invoices (m : gmap uuid Invoice.t) (s : db) : db :=
  mkdb (products s) (purchases s) m (invoice_items s).
Definition set_invoice_items (m : gmap uuid InvoiceItem.t) (s : db) : db :=
  mkdb (products s) (purchases s) (invoices s) m.

(** ** Errors *)

(** What a statement can raise: the three RAISE EXCEPTION sites of the two
    deletion functions, and the errors of the store itself. *)
Inductive error :=
  | invoice_not_found (p_invoice_id : uuid)
  | purchase_not_found (p_purchase_id : uuid)
  | negative_stock_on_purchase_delete
  | check_violation (constraint : string)
  | foreign_key_violation (constraint : string)
  | unique_violation (constraint : string)
  | integer_out_of_range
  | limit_must_not_be_negative
  | offset_must_not_be_negative.

(** The taxonomy of the specification. *)
Inductive error_class :=
  | NotFound
  | WouldViolateInvariant
  | ConstraintViolation
  | DataException.

Definition classify (e : error) : error_class :=
  match e with
  | invoice_not_found _ | purchase_not_found _ => NotFound
  | negative_stock_on_purchase_delete => WouldViolateInvariant
  | check_violation _ | foreign_key_violation _ | unique_violation _ =>
      ConstraintViolation
  | integer_out_of_range | limit_must_not_be_negative
  | offset_must_not_be_negative => DataException
  end.

Inductive result (A : Type) :=
  | Ok (a : A)
  | Err (e : error).
Arguments Ok {A} a.
Arguments Err {A} e.

#[global] Instance result_ret : MRet result := @Ok.
#[global] Instance result_bind : MBind result := λ A B f m,
  match m with Ok a => f a | Err e => Err e end.
#[global] Instance result_fmap : FMap result := λ A B f m,
  match m with Ok a => Ok (f a) | Err e => Err e end.

Definition require (b : bool) (e : error) : result unit :=
  if b then Ok () else Err e.

(** A transaction keeps the state it started from when its statement fails. *)
Definition commit (s : db) (r : result db) : db :=
  match r with Ok s' => s' | Err _ => s end.

(** ** The integer type *)

Definition int4_min : Z := -2147483648.
Definition int4_max : Z := 2147483647.

Definition in_int4 (z : Z) : bool := (int4_min <=? z) && (z <=? int4_max).

Definition int4 (z : Z) : result Z :=
  if in_int4 z then Ok z else Err integer_out_of_range.

Definition int4_add (a b : Z) : result Z := int4 (a + b).
Definition int4_sub (a b : Z) : result Z := int4 (a - b).
Definition int4_neg (a : Z) : result Z := int4 (- a).

(** ** CHECK constraints, in the order the store evaluates them (by name) *)

Definition in_unit_interval (q : Q) : bool := Qle_bool 0 q && Qle_bool q 1.

Definition products_stock_quantity_check (p : Product.t) : bool :=
  0 <=? Product.stock_quantity p.
Definition products_tax_rate_check (p : Product.t) : bool :=
  in_unit_interval (Product.tax_rate p).
Definition products_unit_price_check (p : Product.t) : bool :=
  Qle_bool 0 (Product.unit_price p).

Definition products_checks (p : Product.t) : result unit :=
  require (products_stock_quantity_check p)
          (check_violation "products_stock_quantity_check");;
  require (products_tax_rate_check p)
          (check_violation "products_tax_rate_check");;
  require (products_unit_price_check p)
          (check_violation "products_unit_price_check").

Definition purchases_quantity_check (pu : Purchase.t) : bool :=
  0 <? Purchase.quantity pu.

Definition purchases_checks (pu : Purchase.t) : result unit :=
  require (purchases_quantity_check pu)
          (check_violation "purchases_quantity_check").

Definition invoice_items_quantity_check (ii : InvoiceItem.t) : bool :=
  0 <? InvoiceItem.quantity ii.
Definition invoice_items_tax_rate_check (ii : InvoiceItem.t) : bool :=
  in_unit_interval (InvoiceItem.tax_rate ii).
Definition invoice_items_unit_price_check (ii : InvoiceItem.t) : bool :=
  Qle_bool 0 (InvoiceItem.unit_price ii).

Definition invoice_items_checks (ii : InvoiceItem.t) : result unit :=
  require (invoice_items_quantity_check ii)
          (check_violation "invoice_items_quantity_check");;
  require (invoice_items_tax_rate_check ii)
          (check_violation "invoice_items_tax_rate_check");;
  require (invoice_items_unit_price_check ii)
          (check_violation "invoice_items_unit_price_check").

(** ** Foreign keys (checked after the row is written) *)

Definition purchases_product_id_fkey (pu : Purchase.t) (s : db) : result unit :=
  require (bool_decide (is_Some (products s !! Purchase.product_id pu)))
          (foreign_key_violation "purchases_product_id_fkey").

Definition invoice_items_invoice_id_fkey (ii : InvoiceItem.t) (s : db)
  : result unit :=
  require (bool_decide (is_Some (invoices s !! InvoiceItem.invoice_id ii)))
          (foreign_key_violation "invoice_items_invoice_id_fkey").

Definition invoice_items_product_id_fkey (ii : InvoiceItem.t) (s : db)
  : result unit :=
  require (bool_decide (is_Some (products s !! InvoiceItem.product_id ii)))
          (foreign_key_violation "invoice_items_product_id_fkey").

(** ** Aggregates and single-table statements *)

Definition rows {A} (m : gmap uuid A) : list A := (map_to_list m).*2.

Definition sumZ {A} (f : A → Z) (l : list A) : Z :=
  foldr (λ x acc, f x + acc) 0 l.

Definition sumQ {A} (f : A → Q) (l : list A) : Q :=
  foldr (λ x acc, (f x + acc)%Q) 0%Q l.

(** [quantity * unit_price * (1 + tax_rate)] of one line. *)
Definition line_amount (ii : InvoiceItem.t) : Q :=
  (inject_Z (InvoiceItem.quantity ii) * InvoiceItem.unit_price ii
   * (1 + InvoiceItem.tax_rate ii))%Q.

(** [SELECT ... FROM invoice_items WHERE invoice_id = id]. *)
Definition items_of_invoice (id : uuid) (s : db) : list InvoiceItem.t :=
  filter (λ ii, InvoiceItem.invoice_id ii = id) (rows (invoice_items s)).

(** [COALESCE(SUM(quantity * unit_price * (1 + tax_rate)), 0)]. *)
Definition invoice_items_sum (id : uuid) (s : db) : Q :=
  sumQ line_amount (items_of_invoice id s).

(** [UPDATE invoices SET total_amount = (SELECT ...) WHERE id = id]: no row
    is touched when the invoice does not exist. *)
Definition update_invoices_total_amount (id : uuid) (s : db) : db :=
  set_invoices
    (alter (Invoice.with_total_amount (invoice_items_sum id s)) id (invoices s))
    s.

(** [UPDATE products SET stock_quantity = expr WHERE id = id]: the new value
    is computed in int4 and the updated row is checked again. *)
Definition update_products_stock_quantity
    (expr : Z → result Z) (id : uuid) (s : db) : result db :=
  match products s !! id with
  | None => Ok s
  | Some p =>
      q ← expr (Product.stock_quantity p);
      let p' := Product.with_stock_quantity q p in
      products_checks p';;
      Ok (set_products (<[id := p']> (products s)) s)
  end.

(** ** Trigger functions *)

(** The event a row trigger is fired for: [TG_OP] with its [OLD] and [NEW]. *)
Inductive trigger_event (R : Type) :=
  | TG_INSERT (NEW : R)
  | TG_UPDATE (OLD NEW : R)
  | TG_DELETE (OLD : R).
Arguments TG_INSERT {R} NEW.
Arguments TG_UPDATE {R} OLD NEW.
Arguments TG_DELETE {R} OLD.

Definition recalculate_invoice_total
    (ev : trigger_event InvoiceItem.t) (s : db) : db :=
  let invoice_to_update_id :=
    match ev with
    | TG_DELETE OLD => InvoiceItem.invoice_id OLD
    | TG_INSERT NEW | TG_UPDATE _ NEW => InvoiceItem.invoice_id NEW
    end in
  let s1 := update_invoices_total_amount invoice_to_update_id s in
  match ev with
  | TG_UPDATE OLD NEW =>
      if decide (InvoiceItem.invoice_id NEW ≠ InvoiceItem.invoice_id OLD)
      then update_invoices_total_amount (InvoiceItem.invoice_id OLD) s1
      else s1
  | _ => s1
  end.

Definition update_stock_on_purchase
    (ev : trigger_event Purchase.t) (s : db) : result db :=
  match ev with
  | TG_INSERT NEW =>
      update_products_stock_quantity
        (λ stock_quantity, int4_add stock_quantity (Purchase.quantity NEW))
        (Purchase.product_id NEW) s
  | TG_UPDATE OLD NEW =>
      update_products_stock_quantity
        (λ stock_quantity,
           d ← int4_sub stock_quantity (Purchase.quantity OLD);
           int4_add d (Purchase.quantity NEW))
        (Purchase.product_id NEW) s
  | TG_DELETE OLD =>
      update_products_stock_quantity
        (λ stock_quantity, int4_sub stock_quantity (Purchase.quantity OLD))
        (Purchase.product_id OLD) s
  end.

Definition update_stock_on_sale
    (ev : trigger_event InvoiceItem.t) (s : db) : result db :=
  match ev with
  | TG_INSERT NEW =>
      update_products_stock_quantity
        (λ stock_quantity, int4_sub stock_quantity (InvoiceItem.quantity NEW))
        (InvoiceItem.product_id NEW) s
  | TG_DELETE OLD =>
      update_products_stock_quantity
        (λ stock_quantity, int4_add stock_quantity (InvoiceItem.quantity OLD))
        (InvoiceItem.product_id OLD) s
  | TG_UPDATE OLD NEW =>
      if decide (InvoiceItem.product_id OLD ≠ InvoiceItem.product_id NEW)
      then
        s1 ← update_products_stock_quantity
               (λ stock_quantity,
                  int4_add stock_quantity (InvoiceItem.quantity OLD))
               (InvoiceItem.product_id OLD) s;
        update_products_stock_quantity
          (λ stock_quantity,
             int4_sub stock_quantity (InvoiceItem.quantity NEW))
          (InvoiceItem.product_id NEW) s1
      else
        update_products_stock_quantity
          (λ stock_quantity,
             d ← int4_add stock_quantity (InvoiceItem.quantity OLD);
             int4_sub d (InvoiceItem.quantity NEW))
          (InvoiceItem.product_id NEW) s
  end.

(** The AFTER ROW triggers of a table fire in name order, the foreign-key
    checks first: [on_purchase_change] for purchases;
    [on_invoice_item_change_recalculate], then [on_sale_change] for
    invoice_items. *)
Definition purchases_after_row
    (ev : trigger_event Purchase.t) (s : db) : result db :=
  update_stock_on_purchase ev s.

Definition invoice_items_after_row
    (ev : trigger_event InvoiceItem.t) (s : db) : result db :=
  update_stock_on_sale ev (recalculate_invoice_total ev s).

(** ** Row statements on purchases and invoice_items *)

(** [INSERT INTO purchases]. *)
Definition insert_purchases (id : uuid) (NEW : Purchase.t) (s : db)
  : result db :=
  int4 (Purchase.quantity NEW);;
  purchases_checks NEW;;
  require (bool_decide (purchases s !! id = None))
          (unique_violation "purchases_pkey");;
  let s1 := set_purchases (<[id := NEW]> (purchases s)) s in
  purchases_product_id_fkey NEW s1;;
  purchases_after_row (TG_INSERT NEW) s1.

(** [UPDATE purchases SET ... WHERE id = id]: the key column is kept; a
    missing row makes the statement a no-op; the foreign key is checked
    again only when [product_id] changes. *)
Definition update_purchases (id : uuid) (NEW : Purchase.t) (s : db)
  : result db :=
  match purchases s !! id with
  | None => Ok s
  | Some OLD =>
      int4 (Purchase.quantity NEW);;
      purchases_checks NEW;;
      let s1 := set_purchases (<[id := NEW]> (purchases s)) s in
      (if decide (Purchase.product_id NEW = Purchase.product_id OLD)
       then Ok () else purchases_product_id_fkey NEW s1);;
      purchases_after_row (TG_UPDATE OLD NEW) s1
  end.

(** [DELETE FROM purchases WHERE id = id]. *)
Definition delete_purchases (id : uuid) (s : db) : result db :=
  match purchases s !! id with
  | None => Ok s
  | Some OLD =>
      purchases_after_row (TG_DELETE OLD)
        (set_purchases (delete id (purchases s)) s)
  end.

(** [INSERT INTO invoice_items]. The BEFORE INSERT trigger
    [set_invoice_item_user_id] only fills [user_id], a column left out. *)
Definition insert_invoice_items (id : uuid) (NEW : InvoiceItem.t) (s : db)
  : result db :=
  int4 (InvoiceItem.quantity NEW);;
  invoice_items_checks NEW;;
  require (bool_decide (invoice_items s !! id = None))
          (unique_violation "invoice_items_pkey");;
  let s1 := set_invoice_items (<[id := NEW]> (invoice_items s)) s in
  invoice_items_invoice_id_fkey NEW s1;;
  invoice_items_product_id_fkey NEW s1;;
  invoice_items_after_row (TG_INSERT NEW) s1.

(** [UPDATE invoice_items SET ... WHERE id = id]. *)
Definition update_invoice_items (id : uuid) (NEW : InvoiceItem.t) (s : db)
  : result db :=
  match invoice_items s !! id with
  | None => Ok s
  | Some OLD =>
      int4 (InvoiceItem.quantity NEW);;
      invoice_items_checks NEW;;
      let s1 := set_invoice_items (<[id := NEW]> (invoice_items s)) s in
      (if decide (InvoiceItem.invoice_id NEW = InvoiceItem.invoice_id OLD)
       then Ok () else invoice_items_invoice_id_fkey NEW s1);;
      (if decide (InvoiceItem.product_id NEW = InvoiceItem.product_id OLD)
       then Ok () else invoice_items_product_id_fkey NEW s1);;
      invoice_items_after_row (TG_UPDATE OLD NEW) s1
  end.

(** [DELETE FROM invoice_items WHERE id = id]. *)
Definition delete_invoice_items (id : uuid) (s : db) : result db :=
  match invoice_items s !! id with
  | None => Ok s
  | Some OLD =>
      invoice_items_after_row (TG_DELETE OLD)
        (set_invoice_items (delete id (invoice_items s)) s)
  end.

(** ** The two deletion functions *)

Fixpoint for_each {A} (f : A → db → result db) (l : list A) (s : db)
  : result db :=
  match l with
  | [] => Ok s
  | x :: l => s' ← f x s; for_each f l s'
  end.

(** The items [ON DELETE CASCADE] removes with invoice [id]. *)
Definition cascaded_items (id : uuid) (s : db) : gmap uuid InvoiceItem.t :=
  filter (λ kv, InvoiceItem.invoice_id kv.2 = id) (invoice_items s).

(** [DELETE FROM invoices WHERE id = id] with its cascade: the invoice row
    goes, then every item of the invoice, and the AFTER DELETE row triggers
    of invoice_items fire once per removed item. [None] when no invoice row
    matched (NOT FOUND). *)
Definition delete_invoices (id : uuid) (s : db) : option (result db) :=
  match invoices s !! id with
  | None => None
  | Some _ =>
      let s1 := set_invoices (delete id (invoices s)) s in
      let s2 :=
        set_invoice_items
          (filter (λ kv, InvoiceItem.invoice_id kv.2 ≠ id) (invoice_items s))
          s1 in
      Some (for_each (λ OLD, invoice_items_after_row (TG_DELETE OLD))
                     (rows (cascaded_items id s)) s2)
  end.

Definition delete_invoice_by_id (p_invoice_id : uuid) (s : db)
  : result (string * db) :=
  match delete_invoices p_invoice_id s with
  | None => Err (invoice_not_found p_invoice_id)
  | Some r =>
      s' ← r;
      Ok ("Invoice and associated items deleted successfully.", s')
  end.

Definition delete_purchase_safely (p_purchase_id : uuid) (s : db)
  : result (string * db) :=
  match purchases s !! p_purchase_id with
  | None => Err (purchase_not_found p_purchase_id)
  | Some pu =>
      let v_product_id := Purchase.product_id pu in
      let v_quantity := Purchase.quantity pu in
      let v_current_stock :=
        Product.stock_quantity <$> products s !! v_product_id in
      (* a NULL stock makes the comparison NULL, which IF takes as false *)
      negative ← match v_current_stock with
                 | None => Ok false
                 | Some c => d ← int4_sub c v_quantity; Ok (d <? 0)
                 end;
      if (negative : bool) then Err negative_stock_on_purchase_delete
      else
        s' ← delete_purchases p_purchase_id s;
        Ok ("Purchase record deleted successfully.", s')
  end.

(** ** The mutations of the core *)

Inductive mutation :=
  | InsertPurchase (id : uuid) (row : Purchase.t)
  | UpdatePurchase (id : uuid) (row : Purchase.t)
  | DeletePurchase (id : uuid)
  | InsertInvoiceItem (id : uuid) (row : InvoiceItem.t)
  | UpdateInvoiceItem (id : uuid) (row : InvoiceItem.t)
  | DeleteInvoiceItem (id : uuid)
  | DeleteInvoiceById (id : uuid)
  | DeletePurchaseSafely (id : uuid).

Definition run (m : mutation) (s : db) : result db :=
  match m with
  | InsertPurchase id row => insert_purchases id row s
  | UpdatePurchase id row => update_purchases id row s
  | DeletePurchase id => delete_purchases id s
  | InsertInvoiceItem id row => insert_invoice_items id row s
  | UpdateInvoiceItem id row => update_invoice_items id row s
  | DeleteInvoiceItem id => delete_invoice_items id s
  | DeleteInvoiceById id => snd <$> delete_invoice_by_id id s
  | DeletePurchaseSafely id => snd <$> delete_purchase_safely id s
  end.

(** One call is one transaction. *)
Definition execute (m : mutation) (s : db) : db := commit s (run m s).

Definition execute_all (ms : list mutation) (s : db) : db :=
  foldl (λ s m, execute m s) s ms.

(** ** The combined report *)

Module ReportRow.
Record t := mk {
  transaction_id : uuid;
  transaction_date : date;
  transaction_type : string;
  reference_number : option string;
  product_name : string;
  quantity_change : Z }.
End ReportRow.

Module ExportRow.
Record t := mk {
  transaction_date : date;
  transaction_type : string;
  reference_number : option string;
  product_name : string;
  quantity_change : Z }.
End ExportRow.

(** The columns the paginated report and the export share. *)
Definition project (r : ReportRow.t) : ExportRow.t :=
  ExportRow.mk (ReportRow.transaction_date r) (ReportRow.transaction_type r)
    (ReportRow.reference_number r) (ReportRow.product_name r)
    (ReportRow.quantity_change r).

(** The order of [text] values is the collation of the database, which the
    schema does not fix: any total comparison. *)
Class Collation := {
  text_le : string → string → bool;
  text_le_total : ∀ a b, text_le a b = false → text_le b a = true }.

(** [ORDER BY]: a stable insertion sort, one of the orders the store may
    return (rows with equal keys come in an unspecified order). *)
Fixpoint insert_by {A} (le : A → A → bool) (x : A) (l : list A) : list A :=
  match l with
  | [] => [x]
  | y :: l' => if le x y then x :: l else y :: insert_by le x l'
  end.

Definition order_by {A} (le : A → A → bool) (l : list A) : list A :=
  foldr (insert_by le) [] l.

(** [transaction_date DESC, product_name ASC] on a pair of keys. *)
Definition date_desc_name_asc `{Collation}
    (d1 : date) (n1 : string) (d2 : date) (n2 : string) : bool :=
  (d2 <? d1) || ((d1 =? d2) && text_le n1 n2).

Definition report_le `{Collation} (r1 r2 : ReportRow.t) : bool :=
  date_desc_name_asc
    (ReportRow.transaction_date r1) (ReportRow.product_name r1)
    (ReportRow.transaction_date r2) (ReportRow.product_name r2).

Definition export_le `{Collation} (r1 r2 : ExportRow.t) : bool :=
  date_desc_name_asc
    (ExportRow.transaction_date r1) (ExportRow.product_name r1)
    (ExportRow.transaction_date r2) (ExportRow.product_name r2).

(** [d BETWEEN a AND b]. *)
Definition between (d a b : date) : bool := (a <=? d) && (d <=? b).

(** [p_transaction_type = 'all' OR p_transaction_type = kind]. *)
Definition type_admits (p_transaction_type kind : string) : bool :=
  bool_decide (p_transaction_type = "all")
  || bool_decide (p_transaction_type = kind).

(** [invoice_items ii JOIN invoices i ON ii.invoice_id = i.id]. *)
Definition items_join_invoices (s : db)
  : list (uuid * InvoiceItem.t * Invoice.t) :=
  omap (λ '(id, ii),
          i ← invoices s !! InvoiceItem.invoice_id ii; Some (id, ii, i))
       (map_to_list (invoice_items s)).

(** [... JOIN products p ON ii.product_id = p.id]. *)
Definition items_join_invoices_products (s : db)
  : list (uuid * InvoiceItem.t * Invoice.t * Product.t) :=
  omap (λ '(id, ii, i),
          p ← products s !! InvoiceItem.product_id ii; Some (id, ii, i, p))
       (items_join_invoices s).

(** [purchases pu JOIN products p ON pu.product_id = p.id]. *)
Definition purchases_join_products (s : db)
  : list (uuid * Purchase.t * Product.t) :=
  omap (λ '(id, pu),
          p ← products s !! Purchase.product_id pu; Some (id, pu, p))
       (map_to_list (purchases s)).

Definition sale_selected (p_start_date p_end_date : date)
    (p_transaction_type : string) (i : Invoice.t) : bool :=
  type_admits p_transaction_type "sale"
  && between (Invoice.invoice_date i) p_start_date p_end_date.

Definition purchase_selected (p_start_date p_end_date : date)
    (p_transaction_type : string) (pu : Purchase.t) : bool :=
  type_admits p_transaction_type "purchase"
  && between (Purchase.purchase_date pu) p_start_date p_end_date.

Fixpoint for_rows {A B} (f : A → result B) (l : list A) : result (list B) :=
  match l with
  | [] => Ok []
  | x :: l => y ← f x; ys ← for_rows f l; Ok (y :: ys)
  end.

Definition report_sale_row
    (r : uuid * InvoiceItem.t * Invoice.t * Product.t) : result ReportRow.t :=
  let '(id, ii, i, p) := r in
  quantity_change ← int4_neg (InvoiceItem.quantity ii);
  Ok (ReportRow.mk id (Invoice.invoice_date i) "Sale"
        (Some (Invoice.invoice_number i)) (Product.name p) quantity_change).

Definition report_purchase_row (r : uuid * Purchase.t * Product.t)
  : ReportRow.t :=
  let '(id, pu, p) := r in
  ReportRow.mk id (Purchase.purchase_date pu) "Purchase"
    (Purchase.reference_invoice pu) (Product.name p) (Purchase.quantity pu).

(** The CTE [combined_transactions] of [get_combined_report]. *)
Definition report_combined_transactions (s : db)
    (p_start_date p_end_date : date) (p_transaction_type : string)
  : result (list ReportRow.t) :=
  sales ← for_rows report_sale_row
             (filter (λ r, sale_selected p_start_date p_end_date
                             p_transaction_type r.1.2)
                     (items_join_invoices_products s));
  Ok (sales ++
      (report_purchase_row <$>
         filter (λ r, purchase_selected p_start_date p_end_date
                        p_transaction_type r.1.2)
                (purchases_join_products s))).

Definition get_combined_report `{Collation} (s : db)
    (p_start_date p_end_date : date) (p_transaction_type : string)
    (p_limit p_offset : Z) : result (list ReportRow.t) :=
  require (0 <=? p_offset) offset_must_not_be_negative;;
  require (0 <=? p_limit) limit_must_not_be_negative;;
  ct ← report_combined_transactions s p_start_date p_end_date
         p_transaction_type;
  Ok (take (Z.to_nat p_limit) (drop (Z.to_nat p_offset) (order_by report_le ct))).

(** [SELECT count( * )] into an [integer] variable. *)
Definition get_combined_report_count (s : db)
    (p_start_date p_end_date : date) (p_transaction_type : string)
  : result Z :=
  let sales :=
    filter (λ r, sale_selected p_start_date p_end_date p_transaction_type r.2)
           (items_join_invoices s) in
  let bought :=
    filter (λ r, purchase_selected p_start_date p_end_date
                   p_transaction_type r.2)
           (map_to_list (purchases s)) in
  int4 (Z.of_nat (length sales + length bought)).

Definition export_sale_row
    (r : uuid * InvoiceItem.t * Invoice.t * Product.t) : result ExportRow.t :=
  let '(_, ii, i, p) := r in
  quantity_change ← int4_neg (InvoiceItem.quantity ii);
  Ok (ExportRow.mk (Invoice.invoice_date i) "Sale"
        (Some (Invoice.invoice_number i)) (Product.name p) quantity_change).

Definition export_purchase_row (r : uuid * Purchase.t * Product.t)
  : ExportRow.t :=
  let '(_, pu, p) := r in
  ExportRow.mk (Purchase.purchase_date pu) "Purchase"
    (Purchase.reference_invoice pu) (Product.name p) (Purchase.quantity pu).

(** The CTE [combined_transactions] of [export_combined_report]. *)
Definition export_combined_transactions (s : db)
    (p_start_date p_end_date : date) (p_transaction_type : string)
  : result (list ExportRow.t) :=
  sales ← for_rows export_sale_row
             (filter (λ r, sale_selected p_start_date p_end_date
                             p_transaction_type r.1.2)
                     (items_join_invoices_products s));
  Ok (sales ++
      (export_purchase_row <$>
         filter (λ r, purchase_selected p_start_date p_end_date
                        p_transaction_type r.1.2)
                (purchases_join_products s))).

Definition export_combined_report `{Collation} (s : db)
    (p_start_date p_end_date : date) (p_transaction_type : string)
  : result (list ExportRow.t) :=
  ct ← export_combined_transactions s p_start_date p_end_date
         p_transaction_type;
  Ok (order_by export_le ct).

(** ** Well-formed database states *)

(** What the schema enforces on every stored row: the column types, the
    CHECK constraints and the foreign keys. *)
Definition product_ok (p : Product.t) : bool :=
  in_int4 (Product.stock_quantity p)
  && products_stock_quantity_check p
  && products_tax_rate_check p
  && products_unit_price_check p.

Definition purchase_ok (s : db) (pu : Purchase.t) : bool :=
  in_int4 (Purchase.quantity pu)
  && purchases_quantity_check pu
  && bool_decide (is_Some (products s !! Purchase.product_id pu)).

Definition invoice_item_ok (s : db) (ii : InvoiceItem.t) : bool :=
  in_int4 (InvoiceItem.quantity ii)
  && invoice_items_quantity_check ii
  && invoice_items_tax_rate_check ii
  && invoice_items_unit_price_check ii
  && bool_decide (is_Some (invoices s !! InvoiceItem.invoice_id ii))
  && bool_decide (is_Some (products s !! InvoiceItem.product_id ii)).

Definition valid (s : db) : Prop :=
  map_Forall (λ _ p, product_ok p = true) (products s)
  ∧ map_Forall (λ _ pu, purchase_ok s pu = true) (purchases s)
  ∧ map_Forall (λ _ ii, invoice_item_ok s ii = true) (invoice_items s).

#[global] Instance valid_dec (s : db) : Decision (valid s).
Proof. unfold valid. apply _. Defined.

(** ** The properties of the specification, as predicates on states *)

(** Quantity bought of product [id]: [Σ Purchase.quantity]. *)
Definition purchased (id : uuid) (s : db) : Z :=
  sumZ Purchase.quantity
       (filter (λ pu, Purchase.product_id pu = id) (rows (purchases s))).

(** Quantity sold of product [id]: [Σ InvoiceItem.quantity]. *)
Definition sold (id : uuid) (s : db) : Z :=
  sumZ InvoiceItem.quantity
       (filter (λ ii, InvoiceItem.product_id ii = id) (rows (invoice_items s))).

Definition stock_ledger (s : db) : Prop :=
  ∀ id p, products s !! id = Some p →
    Product.stock_quantity p = purchased id s - sold id s.

Definition stock_nonnegative (s : db) : Prop :=
  ∀ id p, products s !! id = Some p → 0 ≤ Product.stock_quantity p.

Definition stock_of (id : uuid) (s : db) : option Z :=
  Product.stock_quantity <$> products s !! id.

Definition total_of (id : uuid) (s : db) : option Q :=
  Invoice.total_amount <$> invoices s !! id.

(** ** The error monad *)

Lemma bind_Ok {A B} (m : result A) (f : A → result B) (b : B) :
  m ≫= f = Ok b ↔ ∃ a, m = Ok a ∧ f a = Ok b.
Proof.
  destruct m as [a|e]; simpl; split.
  - intros E. exists a. auto.
  - intros (a' & [= <-] & E). exact E.
  - discriminate.
  - intros (a' & [=] & _).
Qed.

Lemma fmap_Ok {A B} (m : result A) (f : A → B) (b : B) :
  f <$> m = Ok b ↔ ∃ a, m = Ok a ∧ b = f a.
Proof.
  destruct m as [a|e]; simpl; split.
  - intros [= <-]. eauto.
  - intros (a' & [= <-] & ->). reflexivity.
  - discriminate.
  - intros (a' & [=] & _).
Qed.

Lemma require_Ok (b : bool) (e : error) (u : unit) :
  require b e = Ok u ↔ b = true.
Proof. destruct b, u; simpl; split; (reflexivity || discriminate). Qed.

Lemma in_int4_spec (z : Z) : in_int4 z = true ↔ int4_min ≤ z ≤ int4_max.
Proof. unfold in_int4. rewrite andb_true_iff, !Z.leb_le. reflexivity. Qed.

Lemma int4_Ok (z z' : Z) : int4 z = Ok z' ↔ in_int4 z = true ∧ z' = z.
Proof.
  unfold int4. destruct (in_int4 z); split.
  - intros [= <-]. auto.
  - intros [_ ->]. reflexivity.
  - discriminate.
  - intros [[=] _].
Qed.

Lemma int4_in_range (z : Z) : int4_min ≤ z ≤ int4_max → int4 z = Ok z.
Proof. intros Hz. apply int4_Ok. split; [by apply in_int4_spec|done]. Qed.

Lemma bind_Ok_l {A B} (m : result A) (f : A → result B) (a : A) :
  m = Ok a → m ≫= f = f a.
Proof. by intros ->. Qed.

Lemma require_true (b : bool) (e : error) : b = true → require b e = Ok ().
Proof. by intros ->. Qed.

(** Arithmetic with the bounds of int4 unfolded. *)
Ltac int4_lia := unfold int4_min, int4_max in *; lia.

(** Take a successful run apart, statement by statement. *)
Ltac ok_step :=
  match goal with
  | H : Ok _ = Ok _ |- _ => inversion H; clear H; try subst
  | H : Err _ = Ok _ |- _ => discriminate H
  | H : _ ≫= _ = Ok _ |- _ =>
      let a := fresh "a" in let E := fresh "E" in let H' := fresh "H" in
      apply bind_Ok in H as (a & E & H')
  | H : _ <$> _ = Ok _ |- _ =>
      let a := fresh "a" in let E := fresh "E" in let H' := fresh "H" in
      apply fmap_Ok in H as (a & E & H')
  | H : require _ _ = Ok _ |- _ => apply require_Ok in H
  | H : int4 _ = Ok _ |- _ =>
      let E := fresh "E" in let H' := fresh "H" in
      apply int4_Ok in H as [E H']; try subst
  | H : int4_add _ _ = Ok _ |- _ => unfold int4_add in H
  | H : int4_sub _ _ = Ok _ |- _ => unfold int4_sub in H
  | H : int4_neg _ = Ok _ |- _ => unfold int4_neg in H
  end.
Ltac ok_inv := repeat ok_step.

Lemma products_checks_Ok (p : Product.t) (u : unit) :
  products_checks p = Ok u ↔
  products_stock_quantity_check p = true
  ∧ products_tax_rate_check p = true
  ∧ products_unit_price_check p = true.
Proof.
  unfold products_checks. split.
  - intros H. ok_inv. auto.
  - intros (-> & -> & ->). by destruct u.
Qed.

Lemma invoice_items_checks_Ok (ii : InvoiceItem.t) (u : unit) :
  invoice_items_checks ii = Ok u ↔
  invoice_items_quantity_check ii = true
  ∧ invoice_items_tax_rate_check ii = true
  ∧ invoice_items_unit_price_check ii = true.
Proof.
  unfold invoice_items_checks. split.
  - intros H. ok_inv. auto.
  - intros (-> & -> & ->). by destruct u.
Qed.

(** ** Validity, unfolded *)

Lemma valid_product (s : db) (id : uuid) (p : Product.t) :
  valid s → products s !! id = Some p →
  int4_min ≤ Product.stock_quantity p ≤ int4_max
  ∧ 0 ≤ Product.stock_quantity p
  ∧ products_tax_rate_check p = true
  ∧ products_unit_price_check p = true.
Proof.
  intros (Hp & _ & _) E. specialize (Hp _ _ E). unfold product_ok in Hp.
  rewrite !andb_true_iff in Hp. destruct Hp as [[[H1 H2] H3] H4].
  apply in_int4_spec in H1. apply Z.leb_le in H2. auto.
Qed.

Lemma valid_purchase (s : db) (id : uuid) (pu : Purchase.t) :
  valid s → purchases s !! id = Some pu →
  0 < Purchase.quantity pu ≤ int4_max
  ∧ is_Some (products s !! Purchase.product_id pu).
Proof.
  intros (_ & Hp & _) E. specialize (Hp _ _ E). unfold purchase_ok in Hp.
  rewrite !andb_true_iff in Hp. destruct Hp as [[H1 H2] H3].
  apply in_int4_spec in H1. apply Z.ltb_lt in H2.
  apply bool_decide_eq_true in H3. split; [lia|done].
Qed.

Lemma valid_invoice_item (s : db) (id : uuid) (ii : InvoiceItem.t) :
  valid s → invoice_items s !! id = Some ii →
  0 < InvoiceItem.quantity ii ≤ int4_max
  ∧ is_Some (invoices s !! InvoiceItem.invoice_id ii)
  ∧ is_Some (products s !! InvoiceItem.product_id ii).
Proof.
  intros (_ & _ & Hi) E. specialize (Hi _ _ E). unfold invoice_item_ok in Hi.
  rewrite !andb_true_iff in Hi.
  destruct Hi as [[[[[H1 H2] H3] H4] H5] H6].
  apply in_int4_spec in H1. apply Z.ltb_lt in H2.
  apply bool_decide_eq_true in H5, H6. split; [lia|done].
Qed.

Lemma valid_stock_nonnegative (s : db) : valid s → stock_nonnegative s.
Proof. intros Hv id p E. by destruct (valid_product s id p Hv E) as (_ & ? & _). Qed.

(** ** What one statement changes *)

Lemma update_products_stock_quantity_Ok
    (expr : Z → result Z) (id : uuid) (s s' : db) :
  update_products_stock_quantity expr id s = Ok s' →
  (products s !! id = None ∧ s' = s)
  ∨ ∃ p q, products s !! id = Some p ∧ expr (Product.stock_quantity p) = Ok q
      ∧ 0 ≤ q
      ∧ products_checks (Product.with_stock_quantity q p) = Ok ()
      ∧ s' = set_products
               (<[id := Product.with_stock_quantity q p]> (products s)) s.
Proof.
  unfold update_products_stock_quantity. intros H.
  destruct (products s !! id) as [p|] eqn:E; [right|left; by ok_inv].
  ok_inv. destruct a0. exists p, a. repeat split; try done.
  apply products_checks_Ok in E1 as (Hs & _). by apply Z.leb_le in Hs.
Qed.

(** A stock update touches the products table only. *)
Lemma update_products_stock_quantity_frame
    (expr : Z → result Z) (id : uuid) (s s' : db) :
  update_products_stock_quantity expr id s = Ok s' →
  purchases s' = purchases s ∧ invoices s' = invoices s
  ∧ invoice_items s' = invoice_items s
  ∧ ∀ j, j ≠ id → products s' !! j = products s !! j.
Proof.
  intros H. apply update_products_stock_quantity_Ok in H
    as [[_ ->]|(p & q & _ & _ & _ & _ & ->)]; [done|].
  repeat split; try done. intros j Hj. simpl. by rewrite lookup_insert_ne.
Qed.

Lemma update_products_stock_quantity_nonnegative
    (expr : Z → result Z) (id : uuid) (s s' : db) :
  update_products_stock_quantity expr id s = Ok s' →
  stock_nonnegative s → stock_nonnegative s'.
Proof.
  intros H Hs. apply update_products_stock_quantity_Ok in H
    as [[_ ->]|(p & q & _ & _ & Hq & _ & ->)]; [done|].
  intros j pj. simpl. rewrite lookup_insert. case_decide.
  - intros [= <-]. done.
  - apply Hs.
Qed.

Lemma update_invoices_total_amount_frame (id : uuid) (s : db) :
  products (update_invoices_total_amount id s) = products s
  ∧ purchases (update_invoices_total_amount id s) = purchases s
  ∧ invoice_items (update_invoices_total_amount id s) = invoice_items s.
Proof. done. Qed.

Lemma recalculate_invoice_total_frame
    (ev : trigger_event InvoiceItem.t) (s : db) :
  products (recalculate_invoice_total ev s) = products s
  ∧ purchases (recalculate_invoice_total ev s) = purchases s
  ∧ invoice_items (recalculate_invoice_total ev s) = invoice_items s.
Proof. destruct ev; simpl; try done. by case_decide. Qed.

Lemma update_stock_on_purchase_nonnegative
    (ev : trigger_event Purchase.t) (s s' : db) :
  update_stock_on_purchase ev s = Ok s' →
  stock_nonnegative s → stock_nonnegative s'.
Proof.
  destruct ev; simpl; eauto using update_products_stock_quantity_nonnegative.
Qed.

Lemma update_stock_on_sale_nonnegative
    (ev : trigger_event InvoiceItem.t) (s s' : db) :
  update_stock_on_sale ev s = Ok s' →
  stock_nonnegative s → stock_nonnegative s'.
Proof.
  destruct ev; simpl; eauto using update_products_stock_quantity_nonnegative.
  case_decide; eauto using update_products_stock_quantity_nonnegative.
  intros Hr. ok_inv. eauto using update_products_stock_quantity_nonnegative.
Qed.

Lemma invoice_items_after_row_nonnegative
    (ev : trigger_event InvoiceItem.t) (s s' : db) :
  invoice_items_after_row ev s = Ok s' →
  stock_nonnegative s → stock_nonnegative s'.
Proof.
  unfold invoice_items_after_row. intros H Hs.
  eapply update_stock_on_sale_nonnegative; [exact H|].
  intros id p. destruct (recalculate_invoice_total_frame ev s) as (-> & _).
  apply Hs.
Qed.

Lemma for_each_preserves {A} (P : db → Prop) (f : A → db → result db)
    (l : list A) :
  (∀ x s s', f x s = Ok s' → P s → P s') →
  ∀ s s', for_each f l s = Ok s' → P s → P s'.
Proof.
  intros Hf. induction l as [|x l IH]; simpl; intros s s' H Hs.
  - by ok_inv.
  - ok_inv. eauto.
Qed.

Lemma purchases_after_row_nonnegative
    (ev : trigger_event Purchase.t) (s s' : db) :
  purchases_after_row ev s = Ok s' →
  stock_nonnegative s → stock_nonnegative s'.
Proof. apply update_stock_on_purchase_nonnegative. Qed.

Lemma run_nonnegative (m : mutation) (s s' : db) :
  run m s = Ok s' → stock_nonnegative s → stock_nonnegative s'.
Proof.
  intros H Hs. destruct m; simpl in H.
  - unfold insert_purchases in H. ok_inv.
    eapply purchases_after_row_nonnegative; [eassumption|exact Hs].
  - unfold update_purchases in H. destruct (purchases s !! id); ok_inv;
      [|done]. eapply purchases_after_row_nonnegative; [eassumption|exact Hs].
  - unfold delete_purchases in H. destruct (purchases s !! id); ok_inv;
      [|done]. eapply purchases_after_row_nonnegative; [eassumption|exact Hs].
  - unfold insert_invoice_items in H. ok_inv.
    eapply invoice_items_after_row_nonnegative; [eassumption|exact Hs].
  - unfold update_invoice_items in H. destruct (invoice_items s !! id);
      ok_inv; [|done].
    eapply invoice_items_after_row_nonnegative; [eassumption|exact Hs].
  - unfold delete_invoice_items in H. destruct (invoice_items s !! id);
      ok_inv; [|done].
    eapply invoice_items_after_row_nonnegative; [eassumption|exact Hs].
  - unfold delete_invoice_by_id, delete_invoices in H.
    destruct (invoices s !! id); ok_inv. simpl.
    eapply (for_each_preserves stock_nonnegative); [|eassumption|exact Hs].
    intros x u u'. apply invoice_items_after_row_nonnegative.
  - unfold delete_purchase_safely in H. destruct (purchases s !! id) as [pu|];
      ok_inv.
    match goal with b : bool |- _ => destruct b end; ok_inv. simpl.
    match goal with E : delete_purchases _ _ = Ok _ |- _ =>
      unfold delete_purchases in E end.
    destruct (purchases s !! id); ok_inv; [|done].
    eapply purchases_after_row_nonnegative; [eassumption|exact Hs].
Qed.

Lemma execute_nonnegative (m : mutation) (s : db) :
  stock_nonnegative s → stock_nonnegative (execute m s).
Proof.
  intros Hs. unfold execute. destruct (run m s) eqn:E; simpl; [|done].
  eapply run_nonnegative; eauto.
Qed.

(** C7. Every product's stock_quantity stays non-negative through every
    operation of the core: after any sequence of calls started in a state
    with non-negative stocks no stock is negative, a statement that succeeds
    leaves no negative stock, and a statement that fails leaves the state as
    it was. *)
Theorem stock_quantity_never_negative (ms : list mutation) (s : db) :
  stock_nonnegative s →
  stock_nonnegative (execute_all ms s)
  ∧ ∀ m, (∀ s', run m s = Ok s' → stock_nonnegative s')
         ∧ (∀ e, run m s = Err e → execute m s = s).
Proof.
  intros Hs. split.
  - revert s Hs. induction ms as [|m ms IH]; intros s Hs; [done|].
    apply IH. by apply execute_nonnegative.
  - intros m. split.
    + intros s' H. eapply run_nonnegative; eauto.
    + intros e H. unfold execute. by rewrite H.
Qed.

Lemma update_stock_on_sale_frame
    (ev : trigger_event InvoiceItem.t) (s s' : db) :
  update_stock_on_sale ev s = Ok s' →
  purchases s' = purchases s ∧ invoices s' = invoices s
  ∧ invoice_items s' = invoice_items s.
Proof.
  intros H. destruct ev; simpl in H.
  1,3: by apply update_products_stock_quantity_frame in H as (? & ? & ? & _).
  case_decide.
  - ok_inv.
    match goal with
    | E1 : update_products_stock_quantity _ _ s = Ok ?a,
      E2 : update_products_stock_quantity _ _ ?a = Ok s' |- _ =>
        apply update_products_stock_quantity_frame in E1 as (A1 & A2 & A3 & _);
        apply update_products_stock_quantity_frame in E2 as (B1 & B2 & B3 & _)
    end.
    rewrite B1, B2, B3. done.
  - by apply update_products_stock_quantity_frame in H as (? & ? & ? & _).
Qed.

Lemma update_stock_on_purchase_frame
    (ev : trigger_event Purchase.t) (s s' : db) :
  update_stock_on_purchase ev s = Ok s' →
  purchases s' = purchases s ∧ invoices s' = invoices s
  ∧ invoice_items s' = invoice_items s.
Proof.
  intros H. destruct ev; simpl in H;
    by apply update_products_stock_quantity_frame in H as (? & ? & ? & _).
Qed.

(** A stock update that passes its checks. *)
Lemma update_products_stock_quantity_success
    (expr : Z → result Z) (id : uuid) (s : db) (p : Product.t) (q : Z) :
  products s !! id = Some p →
  expr (Product.stock_quantity p) = Ok q →
  0 ≤ q →
  products_tax_rate_check p = true →
  products_unit_price_check p = true →
  update_products_stock_quantity expr id s
  = Ok (set_products
          (<[id := Product.with_stock_quantity q p]> (products s)) s).
Proof.
  intros E Hq Hq0 Ht Hu. unfold update_products_stock_quantity.
  rewrite E, Hq. simpl.
  assert (products_checks (Product.with_stock_quantity q p) = Ok ()) as ->;
    [|done].
  apply products_checks_Ok. repeat split; try done.
  unfold products_stock_quantity_check. simpl. by apply Z.leb_le.
Qed.

(** ** Overselling *)

(** States the core can be in: whatever the surrounding application stored
    under the constraints of the schema, followed by calls of the core. *)
Definition reachable (s : db) : Prop :=
  ∃ s0 ms, valid s0 ∧ s = execute_all ms s0.

Lemma insert_invoice_items_needs_stock
    (s s' : db) (id : uuid) (NEW : InvoiceItem.t) (p : Product.t) :
  products s !! InvoiceItem.product_id NEW = Some p →
  insert_invoice_items id NEW s = Ok s' →
  InvoiceItem.quantity NEW ≤ Product.stock_quantity p.
Proof.
  intros Ep H. unfold insert_invoice_items, invoice_items_after_row in H.
  ok_inv. simpl in *.
  match goal with H : update_products_stock_quantity _ _ _ = Ok _ |- _ =>
    apply update_products_stock_quantity_Ok in H
      as [[En _]|(p' & q & Ep' & Hq & Hq0 & _)] end; simpl in *.
  - congruence.
  - ok_inv. simplify_eq. lia.
Qed.

(** C6, as the code has it. In every state, inserting an InvoiceItem whose
    quantity exceeds the current stock_quantity of the product it names
    fails and leaves the state as it was; in a well-formed state, a row that
    is acceptable otherwise is refused by the CHECK constraint
    products_stock_quantity_check, a ConstraintViolation. *)
Theorem oversold_insert_is_rejected
    (s : db) (id : uuid) (NEW : InvoiceItem.t) (p : Product.t) :
  products s !! InvoiceItem.product_id NEW = Some p →
  Product.stock_quantity p < InvoiceItem.quantity NEW →
  (∃ e, insert_invoice_items id NEW s = Err e)
  ∧ execute (InsertInvoiceItem id NEW) s = s
  ∧ (valid s →
     in_int4 (InvoiceItem.quantity NEW) = true →
     invoice_items_checks NEW = Ok () →
     invoice_items s !! id = None →
     is_Some (invoices s !! InvoiceItem.invoice_id NEW) →
     insert_invoice_items id NEW s
     = Err (check_violation "products_stock_quantity_check")
     ∧ classify (check_violation "products_stock_quantity_check")
       = ConstraintViolation).
Proof.
  intros Ep Hlt.
  assert (∃ e, insert_invoice_items id NEW s = Err e) as [e He].
  { destruct (insert_invoice_items id NEW s) as [s'|e] eqn:E; [|eauto].
    apply (insert_invoice_items_needs_stock _ _ _ _ _ Ep) in E. lia. }
  split; [eauto|]. split.
  { unfold execute. simpl. by rewrite He. }
  intros Hv Hq Hc Hid Hinv. split; [|done].
  destruct (valid_product _ _ _ Hv Ep) as (Hr & H0 & Ht & Hu).
  apply in_int4_spec in Hq.
  unfold insert_invoice_items, invoice_items_after_row.
  rewrite (bind_Ok_l _ _ _ (int4_in_range _ Hq)).
  rewrite (bind_Ok_l _ _ _ Hc).
  rewrite (bind_Ok_l _ _ ()) by (by apply require_true, bool_decide_eq_true_2).
  rewrite (bind_Ok_l _ _ ()) by (by apply require_true, bool_decide_eq_true_2).
  rewrite (bind_Ok_l _ _ ())
    by (apply require_true, bool_decide_eq_true_2; simpl; by rewrite Ep).
  unfold update_stock_on_sale, update_products_stock_quantity.
  destruct (recalculate_invoice_total_frame (TG_INSERT NEW)
    (set_invoice_items (<[id:=NEW]> (invoice_items s)) s)) as (-> & _).
  simpl. rewrite Ep. unfold int4_sub.
  assert (int4_min ≤ Product.stock_quantity p - InvoiceItem.quantity NEW
          ≤ int4_max) as Hd by int4_lia.
  rewrite (bind_Ok_l _ _ _ (int4_in_range _ Hd)).
  unfold products_checks, products_stock_quantity_check. simpl.
  by rewrite (proj2 (Z.leb_gt _ _)) by lia.
Qed.

(** ** Guarded deletion of a purchase *)

(** The state [delete_purchase_safely] leaves when it deletes purchase [id]
    of quantity [Purchase.quantity pu] bought for product [p]. *)
Definition purchase_deleted (id : uuid) (pu : Purchase.t) (p : Product.t)
    (s : db) : db :=
  mkdb (<[Purchase.product_id pu :=
            Product.with_stock_quantity
              (Product.stock_quantity p - Purchase.quantity pu) p]>
          (products s))
       (delete id (purchases s)) (invoices s) (invoice_items s).

(** C4. [delete_purchase_safely id]: NotFound when no purchase has the id;
    WouldViolateInvariant, with the purchase row and every stock unchanged,
    when the product's stock minus the purchase's quantity is negative;
    otherwise the purchase is deleted and the product's stock decreases by
    exactly the purchase's quantity. *)
Theorem delete_purchase_safely_spec (s : db) (id : uuid) :
  valid s →
  (purchases s !! id = None →
     delete_purchase_safely id s = Err (purchase_not_found id)
     ∧ classify (purchase_not_found id) = NotFound
     ∧ execute (DeletePurchaseSafely id) s = s)
  ∧ (∀ pu, purchases s !! id = Some pu →
     ∃ p, products s !! Purchase.product_id pu = Some p
     ∧ (Product.stock_quantity p - Purchase.quantity pu < 0 →
          delete_purchase_safely id s = Err negative_stock_on_purchase_delete
          ∧ classify negative_stock_on_purchase_delete = WouldViolateInvariant
          ∧ execute (DeletePurchaseSafely id) s = s)
     ∧ (0 ≤ Product.stock_quantity p - Purchase.quantity pu →
          delete_purchase_safely id s
          = Ok ("Purchase record deleted successfully.",
                purchase_deleted id pu p s)
          ∧ execute (DeletePurchaseSafely id) s = purchase_deleted id pu p s
          ∧ purchases (purchase_deleted id pu p s) !! id = None
          ∧ stock_of (Purchase.product_id pu) (purchase_deleted id pu p s)
            = Some (Product.stock_quantity p - Purchase.quantity pu))).
Proof.
  intros Hv. split.
  - intros E. unfold execute. simpl. unfold delete_purchase_safely.
    by rewrite E.
  - intros pu E.
    destruct (valid_purchase _ _ _ Hv E) as (Hq & [p Ep]).
    destruct (valid_product _ _ _ Hv Ep) as (Hr & H0 & Ht & Hu).
    exists p. split; [done|].
    assert (int4_min ≤ Product.stock_quantity p - Purchase.quantity pu
            ≤ int4_max) as Hd by int4_lia.
    split.
    + intros Hneg.
      assert (delete_purchase_safely id s
              = Err negative_stock_on_purchase_delete) as Hr'.
      { unfold delete_purchase_safely. rewrite E. simpl. rewrite Ep. simpl.
        unfold int4_sub. rewrite (bind_Ok_l _ _ _ (int4_in_range _ Hd)).
        simpl. by rewrite (proj2 (Z.ltb_lt _ _)) by lia. }
      unfold execute. simpl. by rewrite Hr'.
    + intros Hpos.
      assert (delete_purchase_safely id s
              = Ok ("Purchase record deleted successfully.",
                    purchase_deleted id pu p s)) as Hr'.
      { unfold delete_purchase_safely. rewrite E. simpl. rewrite Ep. simpl.
        unfold int4_sub at 1. rewrite (bind_Ok_l _ _ _ (int4_in_range _ Hd)).
        simpl. rewrite (proj2 (Z.ltb_ge _ _)) by lia.
        unfold delete_purchases. rewrite E.
        unfold purchases_after_row, update_stock_on_purchase.
        erewrite update_products_stock_quantity_success; try done.
        by apply int4_in_range. }
      split; [done|]. split; [unfold execute; simpl; by rewrite Hr'|].
      split; [simpl; apply lookup_delete_eq|].
      unfold stock_of. simpl. by rewrite lookup_insert_eq.
Qed.

(** ** Invoice totals *)

(** The invoices an invoice_items statement touches: the one of the row it
    writes and, for an update or a delete, the one of the row it replaces. *)
Definition affected_invoices (m : mutation) (s : db) : list uuid :=
  match m with
  | InsertInvoiceItem _ NEW => [InvoiceItem.invoice_id NEW]
  | UpdateInvoiceItem id NEW =>
      match invoice_items s !! id with
      | Some OLD => [InvoiceItem.invoice_id OLD; InvoiceItem.invoice_id NEW]
      | None => []
      end
  | DeleteInvoiceItem id =>
      match invoice_items s !! id with
      | Some OLD => [InvoiceItem.invoice_id OLD]
      | None => []
      end
  | _ => []
  end.

(** The stored total of invoice [id] is the sum over its current items. *)
Definition total_is_sum_of_items (id : uuid) (s : db) : Prop :=
  total_of id s = Some (invoice_items_sum id s).

(** The total the specification gives invoice [id], written from its words
    and not from the trigger: the sum, over the rows of invoice_items whose
    invoice_id is [id], of quantity × unit_price × (1 + tax_rate); 0 when
    there is no such row. *)
Definition spec_total (id : uuid) (s : db) : Q :=
  foldr (λ '(_, item) total,
           if decide (InvoiceItem.invoice_id item = id)
           then (inject_Z (InvoiceItem.quantity item)
                 * InvoiceItem.unit_price item
                 * (1 + InvoiceItem.tax_rate item) + total)%Q
           else total)
        0%Q (map_to_list (invoice_items s)).

(** The sum the trigger selects is the sum of the specification. *)
Lemma invoice_items_sum_spec_total (id : uuid) (s : db) :
  invoice_items_sum id s = spec_total id s.
Proof.
  unfold invoice_items_sum, items_of_invoice, rows, spec_total.
  induction (map_to_list (invoice_items s)) as [|[k item] l IH]; [done|].
  csimpl. rewrite filter_cons. simpl.
  destruct (decide (InvoiceItem.invoice_id item = id)); simpl;
    by rewrite IH.
Qed.

Lemma spec_total_no_item (id : uuid) (s : db) :
  (∀ k item, invoice_items s !! k = Some item →
             InvoiceItem.invoice_id item ≠ id) →
  spec_total id s = 0%Q.
Proof.
  intros Hnone. unfold spec_total.
  assert (Forall (λ kv, InvoiceItem.invoice_id kv.2 ≠ id)
            (map_to_list (invoice_items s))) as Hl.
  { apply Forall_forall. intros [k item] Hk.
    apply elem_of_map_to_list in Hk. by eapply Hnone. }
  induction Hl as [|[k item] l Hx _ IH]; [done|]. simpl in *.
  by rewrite decide_False.
Qed.

Lemma total_is_sum_of_items_ext (id : uuid) (s s' : db) :
  invoices s' = invoices s → invoice_items s' = invoice_items s →
  total_is_sum_of_items id s → total_is_sum_of_items id s'.
Proof.
  unfold total_is_sum_of_items, total_of, invoice_items_sum, items_of_invoice.
  by intros -> ->.
Qed.

Lemma update_invoices_total_amount_same (id : uuid) (s : db) :
  is_Some (invoices s !! id) →
  total_is_sum_of_items id (update_invoices_total_amount id s).
Proof.
  intros [inv E]. unfold total_is_sum_of_items, total_of. simpl.
  by rewrite lookup_alter_eq, E.
Qed.

Lemma update_invoices_total_amount_other (id j : uuid) (s : db) :
  id ≠ j → total_is_sum_of_items id s →
  total_is_sum_of_items id (update_invoices_total_amount j s).
Proof.
  intros Hne. unfold total_is_sum_of_items, total_of. simpl.
  by rewrite lookup_alter_ne.
Qed.

Lemma update_invoices_total_amount_is_Some (id j : uuid) (s : db) :
  is_Some (invoices s !! id) →
  is_Some (invoices (update_invoices_total_amount j s) !! id).
Proof. intros H. simpl. by apply lookup_alter_is_Some. Qed.

(** After the trigger function, the invoice of NEW (of OLD on a delete) and,
    on an update, the invoice of OLD carry the sum of their items, whatever
    total they carried before. *)
Lemma recalculate_invoice_total_correct
    (ev : trigger_event InvoiceItem.t) (s : db) (id : uuid) :
  match ev with
  | TG_INSERT NEW => id = InvoiceItem.invoice_id NEW
  | TG_DELETE OLD => id = InvoiceItem.invoice_id OLD
  | TG_UPDATE OLD NEW =>
      id = InvoiceItem.invoice_id OLD ∨ id = InvoiceItem.invoice_id NEW
  end →
  is_Some (invoices s !! id) →
  total_is_sum_of_items id (recalculate_invoice_total ev s).
Proof.
  destruct ev as [NEW|OLD NEW|OLD]; simpl.
  - intros ->. apply update_invoices_total_amount_same.
  - intros Hid Hs. case_decide as Hne.
    + destruct (decide (id = InvoiceItem.invoice_id OLD)) as [->|Hno].
      * by apply update_invoices_total_amount_same,
          update_invoices_total_amount_is_Some.
      * destruct Hid as [->| ->]; [done|].
        apply update_invoices_total_amount_other; [done|].
        by apply update_invoices_total_amount_same.
    +       assert (id = InvoiceItem.invoice_id NEW) as -> by (destruct Hid; congruence).
      by apply update_invoices_total_amount_same.
  - intros ->. apply update_invoices_total_amount_same.
Qed.

Lemma invoice_items_after_row_total
    (ev : trigger_event InvoiceItem.t) (s s' : db) (id : uuid) :
  invoice_items_after_row ev s = Ok s' →
  total_is_sum_of_items id (recalculate_invoice_total ev s) →
  total_is_sum_of_items id s'.
Proof.
  unfold invoice_items_after_row. intros H.
  apply update_stock_on_sale_frame in H as (_ & Hi & Hii).
  by apply total_is_sum_of_items_ext.
Qed.

Lemma require_is_Some {A} (o : option A) (e : error) (u : unit) :
  require (bool_decide (is_Some o)) e = Ok u → is_Some o.
Proof. intros H. apply require_Ok in H. by apply bool_decide_eq_true in H. Qed.

(** C3. After every insert, update or delete of an InvoiceItem, each
    affected invoice carries as total_amount the sum, over the rows of
    invoice_items that name it, of quantity * unit_price * (1 + tax_rate),
    and 0 when no row names it. The total is computed from the items alone:
    nothing is assumed of the total stored before. An update that moves an
    item leaves both the invoice it came from and the invoice it went to
    with that total. *)
Theorem invoice_total_recomputed (m : mutation) (s s' : db) (id : uuid) :
  valid s →
  run m s = Ok s' →
  id ∈ affected_invoices m s →
  total_of id s' = Some (spec_total id s')
  ∧ ((∀ k item, invoice_items s' !! k = Some item →
                InvoiceItem.invoice_id item ≠ id) →
     total_of id s' = Some 0%Q).
Proof.
  intros Hv H Hid.
  assert (total_is_sum_of_items id s') as Ht; last first.
  { red in Ht. rewrite invoice_items_sum_spec_total in Ht.
    split; [exact Ht|]. intros Hnone.
    by rewrite Ht, spec_total_no_item. }
  destruct m as [| | |j NEW|j NEW|j| |]; simpl in Hid;
    try (by apply elem_of_nil in Hid); simpl in H.
  - apply list_elem_of_singleton in Hid as ->.
    unfold insert_invoice_items in H. ok_inv.
    match goal with E : invoice_items_invoice_id_fkey _ _ = Ok _ |- _ =>
      apply require_is_Some in E; rename E into Hfk end.
    eapply invoice_items_after_row_total; [eassumption|].
    by apply recalculate_invoice_total_correct.
  - unfold update_invoice_items in H.
    destruct (invoice_items s !! j) as [OLD|] eqn:Ej;
      [|by apply elem_of_nil in Hid].
    destruct (valid_invoice_item _ _ _ Hv Ej) as (_ & Hold & _).
    ok_inv.
    eapply invoice_items_after_row_total; [eassumption|].
    apply recalculate_invoice_total_correct.
    + apply elem_of_cons in Hid as [->|Hid]; [by left|].
      apply list_elem_of_singleton in Hid as ->. by right.
    + simpl. apply elem_of_cons in Hid as [->|Hid]; [done|].
      apply list_elem_of_singleton in Hid as ->.
      match goal with E : (if decide (InvoiceItem.invoice_id NEW = _)
                           then _ else _) = Ok _ |- _ =>
        rename E into Hfk end.
      destruct (decide (InvoiceItem.invoice_id NEW = InvoiceItem.invoice_id OLD))
        as [Heq|Hne]; [by rewrite Heq|].
      by apply require_is_Some in Hfk.
  - unfold delete_invoice_items in H.
    destruct (invoice_items s !! j) as [OLD|] eqn:Ej;
      [|by apply elem_of_nil in Hid].
    destruct (valid_invoice_item _ _ _ Hv Ej) as (_ & Hold & _).
    apply list_elem_of_singleton in Hid as ->.
    eapply invoice_items_after_row_total; [eassumption|].
    by apply recalculate_invoice_total_correct.
Qed.

(** ** Well-formedness is kept by every call *)

Lemma product_ok_spec (p : Product.t) :
  product_ok p = true ↔
  in_int4 (Product.stock_quantity p) = true
  ∧ products_checks p = Ok ().
Proof.
  unfold product_ok. rewrite !andb_true_iff, products_checks_Ok. tauto.
Qed.

Lemma purchase_ok_spec (s : db) (pu : Purchase.t) :
  purchase_ok s pu = true ↔
  in_int4 (Purchase.quantity pu) = true
  ∧ purchases_quantity_check pu = true
  ∧ is_Some (products s !! Purchase.product_id pu).
Proof.
  unfold purchase_ok. rewrite !andb_true_iff, bool_decide_eq_true. tauto.
Qed.

Lemma invoice_item_ok_spec (s : db) (ii : InvoiceItem.t) :
  invoice_item_ok s ii = true ↔
  in_int4 (InvoiceItem.quantity ii) = true
  ∧ invoice_items_checks ii = Ok ()
  ∧ is_Some (invoices s !! InvoiceItem.invoice_id ii)
  ∧ is_Some (products s !! InvoiceItem.product_id ii).
Proof.
  unfold invoice_item_ok.
  rewrite !andb_true_iff, !bool_decide_eq_true, invoice_items_checks_Ok. tauto.
Qed.

(** Rows stay acceptable when the rows they refer to stay. *)
Lemma purchase_ok_mono (s s' : db) (pu : Purchase.t) :
  (∀ id, is_Some (products s !! id) → is_Some (products s' !! id)) →
  purchase_ok s pu = true → purchase_ok s' pu = true.
Proof.
  rewrite !purchase_ok_spec. intros Hkeys (? & ? & ?). split_and!; auto.
Qed.

Lemma invoice_item_ok_mono (s s' : db) (ii : InvoiceItem.t) :
  (∀ id, is_Some (products s !! id) → is_Some (products s' !! id)) →
  (∀ id, id = InvoiceItem.invoice_id ii →
         is_Some (invoices s !! id) → is_Some (invoices s' !! id)) →
  invoice_item_ok s ii = true → invoice_item_ok s' ii = true.
Proof.
  rewrite !invoice_item_ok_spec. intros Hkeys Hinv (? & ? & ? & ?).
  split_and!; auto.
Qed.

Lemma update_products_stock_quantity_valid
    (expr : Z → result Z) (id : uuid) (s s' : db) :
  (∀ q q', expr q = Ok q' → in_int4 q' = true) →
  update_products_stock_quantity expr id s = Ok s' →
  valid s → valid s'.
Proof.
  intros Hexpr Hs' (Hp & Hpu & Hii).
  apply update_products_stock_quantity_Ok in Hs'
    as [[_ ->]|(p & q & Ep & Hq & _ & Hc & ->)]; [done|].
  assert (∀ j, is_Some (products s !! j) →
               is_Some (<[id:=Product.with_stock_quantity q p]> (products s) !! j))
    as Hkeys.
  { intros j Hj. apply lookup_insert_is_Some'. by right. }
  split; [|split]; simpl.
  - apply map_Forall_insert_2; [|done]. apply product_ok_spec. split; [|done].
    by apply Hexpr in Hq.
  - intros j pu Hj. eapply purchase_ok_mono; [|by apply (Hpu j)]. done.
  - intros j ii Hj. eapply invoice_item_ok_mono; [| |by apply (Hii j)]; done.
Qed.

Lemma int4_add_in_int4 (x q q' : Z) : int4_add q x = Ok q' → in_int4 q' = true.
Proof. intros Hq. by ok_inv. Qed.

Lemma int4_sub_in_int4 (x q q' : Z) : int4_sub q x = Ok q' → in_int4 q' = true.
Proof. intros Hq. by ok_inv. Qed.

Lemma update_stock_on_purchase_valid
    (ev : trigger_event Purchase.t) (s s' : db) :
  update_stock_on_purchase ev s = Ok s' → valid s → valid s'.
Proof.
  destruct ev; simpl; apply update_products_stock_quantity_valid.
  - apply int4_add_in_int4.
  - intros q q' Hq. ok_inv. done.
  - apply int4_sub_in_int4.
Qed.

Lemma update_stock_on_sale_valid
    (ev : trigger_event InvoiceItem.t) (s s' : db) :
  update_stock_on_sale ev s = Ok s' → valid s → valid s'.
Proof.
  destruct ev as [NEW|OLD NEW|OLD]; simpl.
  - apply update_products_stock_quantity_valid, int4_sub_in_int4.
  - case_decide.
    + intros Hs' Hv. ok_inv.
      match goal with
      | E1 : update_products_stock_quantity _ _ s = Ok ?t,
        E2 : update_products_stock_quantity _ _ ?t = Ok s' |- _ =>
          eapply update_products_stock_quantity_valid in E1;
            [|apply int4_add_in_int4|exact Hv];
          eapply update_products_stock_quantity_valid in E2;
            [exact E2|apply int4_sub_in_int4|exact E1]
      end.
    + apply update_products_stock_quantity_valid.
      intros q q' Hq. ok_inv. done.
  - apply update_products_stock_quantity_valid, int4_add_in_int4.
Qed.

Lemma update_invoices_total_amount_valid (id : uuid) (s : db) :
  valid s → valid (update_invoices_total_amount id s).
Proof.
  intros (Hp & Hpu & Hii). split; [|split]; simpl; [done| |].
  - intros j pu Hj. by apply (Hpu j).
  - intros j ii Hj. eapply invoice_item_ok_mono; [| |by apply (Hii j)];
      [done|]. intros k _ Hk. simpl. by apply lookup_alter_is_Some.
Qed.

Lemma recalculate_invoice_total_valid
    (ev : trigger_event InvoiceItem.t) (s : db) :
  valid s → valid (recalculate_invoice_total ev s).
Proof.
  intros Hv. destruct ev; simpl; try case_decide;
    by repeat apply update_invoices_total_amount_valid.
Qed.

Lemma invoice_items_after_row_valid
    (ev : trigger_event InvoiceItem.t) (s s' : db) :
  invoice_items_after_row ev s = Ok s' → valid s → valid s'.
Proof.
  unfold invoice_items_after_row. intros Hs' Hv.
  eapply update_stock_on_sale_valid; [exact Hs'|].
  by apply recalculate_invoice_total_valid.
Qed.

(** Writing an acceptable row, or removing a row, keeps the tables well
    formed. *)
Lemma set_purchases_insert_valid (id : uuid) (NEW : Purchase.t) (s : db) :
  purchase_ok s NEW = true → valid s →
  valid (set_purchases (<[id:=NEW]> (purchases s)) s).
Proof.
  intros Hnew (Hp & Hpu & Hii). split; [|split]; simpl; [done| |done].
  by apply map_Forall_insert_2.
Qed.

Lemma set_purchases_delete_valid (id : uuid) (s : db) :
  valid s → valid (set_purchases (delete id (purchases s)) s).
Proof.
  intros (Hp & Hpu & Hii). split; [|split]; simpl; [done| |done].
  by apply map_Forall_delete.
Qed.

Lemma set_invoice_items_insert_valid (id : uuid) (NEW : InvoiceItem.t)
    (s : db) :
  invoice_item_ok s NEW = true → valid s →
  valid (set_invoice_items (<[id:=NEW]> (invoice_items s)) s).
Proof.
  intros Hnew (Hp & Hpu & Hii). split; [|split]; simpl; [done|done|].
  by apply map_Forall_insert_2.
Qed.

Lemma set_invoice_items_delete_valid (id : uuid) (s : db) :
  valid s → valid (set_invoice_items (delete id (invoice_items s)) s).
Proof.
  intros (Hp & Hpu & Hii). split; [|split]; simpl; [done|done|].
  by apply map_Forall_delete.
Qed.

Lemma invoice_removed_valid (id : uuid) (s : db) :
  valid s →
  valid (set_invoice_items
           (filter (λ kv, InvoiceItem.invoice_id kv.2 ≠ id) (invoice_items s))
           (set_invoices (delete id (invoices s)) s)).
Proof.
  intros (Hp & Hpu & Hii). split; [|split]; simpl; [done| |].
  - intros j pu Hj. by apply (Hpu j).
  - intros j ii Hj. apply map_lookup_filter_Some in Hj as [Hj Hne].
    simpl in Hne. eapply invoice_item_ok_mono; [| |by apply (Hii j)]; [done|].
    intros k -> Hk. simpl. by rewrite lookup_delete_ne.
Qed.

Lemma run_valid (m : mutation) (s s' : db) :
  run m s = Ok s' → valid s → valid s'.
Proof.
  intros Hrun Hv. destruct m as [id NEW|id NEW|id|id NEW|id NEW|id|id|id];
    simpl in Hrun.
  - unfold insert_purchases, purchases_after_row in Hrun. ok_inv.
    eapply update_stock_on_purchase_valid; [eassumption|].
    apply set_purchases_insert_valid; [|done]. apply purchase_ok_spec.
    match goal with E : purchases_product_id_fkey _ _ = Ok _ |- _ =>
      apply require_is_Some in E end.
    unfold purchases_checks in *. ok_inv. done.
  - unfold update_purchases, purchases_after_row in Hrun.
    destruct (purchases s !! id) as [OLD|] eqn:Hid; ok_inv; [|done].
    eapply update_stock_on_purchase_valid; [eassumption|].
    apply set_purchases_insert_valid; [|done]. apply purchase_ok_spec.
    unfold purchases_checks in *. ok_inv. split; [done|]. split; [done|].
    destruct (decide (Purchase.product_id NEW = Purchase.product_id OLD))
      as [->|Hne].
    + by destruct (valid_purchase _ _ _ Hv Hid) as (_ & ?).
    + match goal with E : purchases_product_id_fkey _ _ = Ok _ |- _ =>
        by apply require_is_Some in E end.
  - unfold delete_purchases, purchases_after_row in Hrun.
    destruct (purchases s !! id) as [OLD|] eqn:Hid; ok_inv; [|done].
    eapply update_stock_on_purchase_valid; [eassumption|].
    by apply set_purchases_delete_valid.
  - unfold insert_invoice_items in Hrun. ok_inv.
    eapply invoice_items_after_row_valid; [eassumption|].
    apply set_invoice_items_insert_valid; [|done]. apply invoice_item_ok_spec.
    match goal with
    | E1 : invoice_items_invoice_id_fkey _ _ = Ok _,
      E2 : invoice_items_product_id_fkey _ _ = Ok _ |- _ =>
        apply require_is_Some in E1, E2 end.
    repeat match goal with u : () |- _ => destruct u end. by split_and!.
  - unfold update_invoice_items in Hrun.
    destruct (invoice_items s !! id) as [OLD|] eqn:Hid; ok_inv; [|done].
    eapply invoice_items_after_row_valid; [eassumption|].
    apply set_invoice_items_insert_valid; [|done]. apply invoice_item_ok_spec.
    destruct (valid_invoice_item _ _ _ Hv Hid) as (_ & Hinv & Hprod).
    split; [done|]. split.
    { match goal with E : invoice_items_checks NEW = Ok ?u |- _ =>
        by destruct u end. }
    split.
    + destruct (decide (InvoiceItem.invoice_id NEW = InvoiceItem.invoice_id OLD))
        as [->|Hne]; [done|].
      match goal with E : invoice_items_invoice_id_fkey _ _ = Ok _ |- _ =>
        by apply require_is_Some in E end.
    + destruct (decide (InvoiceItem.product_id NEW = InvoiceItem.product_id OLD))
        as [->|Hne]; [done|].
      match goal with E : invoice_items_product_id_fkey _ _ = Ok _ |- _ =>
        by apply require_is_Some in E end.
  - unfold delete_invoice_items in Hrun.
    destruct (invoice_items s !! id) as [OLD|] eqn:Hid; ok_inv; [|done].
    eapply invoice_items_after_row_valid; [eassumption|].
    by apply set_invoice_items_delete_valid.
  - unfold delete_invoice_by_id, delete_invoices in Hrun.
    destruct (invoices s !! id) as [inv|] eqn:Hid; ok_inv. simpl.
    eapply (for_each_preserves valid);
      [|eassumption|by apply invoice_removed_valid].
    intros x u u'. apply invoice_items_after_row_valid.
  - unfold delete_purchase_safely in Hrun.
    destruct (purchases s !! id) as [OLD|] eqn:Hid; ok_inv.
    match goal with b : bool |- _ => destruct b end; ok_inv. simpl.
    match goal with E : delete_purchases _ _ = Ok _ |- _ =>
      unfold delete_purchases, purchases_after_row in E; rewrite Hid in E end.
    eapply update_stock_on_purchase_valid; [eassumption|].
    by apply set_purchases_delete_valid.
Qed.

Lemma execute_valid (m : mutation) (s : db) : valid s → valid (execute m s).
Proof.
  intros Hv. unfold execute. destruct (run m s) as [s'|e] eqn:Hrun; simpl;
    [|done]. by eapply run_valid.
Qed.

(** Every state the core can be in is well formed. *)
Lemma reachable_valid (s : db) : reachable s → valid s.
Proof.
  intros (s0 & ms & Hv & ->). revert s0 Hv.
  induction ms as [|m ms IH]; intros s0 Hv; [done|].
  simpl. apply IH. by apply execute_valid.
Qed.

(** ** Deleting an invoice *)

(** Quantity of product [pid] on the items of invoice [id]: what the cascade
    gives back to that product. *)
Definition returned (id pid : uuid) (s : db) : Z :=
  sumZ InvoiceItem.quantity
       (filter (λ ii, InvoiceItem.product_id ii = pid)
               (rows (cascaded_items id s))).

(** No stock leaves the integer range when invoice [id] gives its items'
    quantities back. *)
Definition restorable (id : uuid) (s : db) : Prop :=
  ∀ pid p, products s !! pid = Some p →
    Product.stock_quantity p + returned id pid s ≤ int4_max.

#[global] Instance restorable_dec (id : uuid) (s : db) :
  Decision (restorable id s).
Proof.
  unfold restorable. apply map_Forall_dec. intros pid p. cbv beta. apply _.
Defined.

Lemma elem_of_rows {A} (m : gmap uuid A) (x : A) :
  x ∈ rows m ↔ ∃ i, m !! i = Some x.
Proof.
  unfold rows. rewrite list_elem_of_fmap. split.
  - intros ([i y] & -> & H). exists i. by apply elem_of_map_to_list.
  - intros [i H]. exists (i, x). split; [done|]. by apply elem_of_map_to_list.
Qed.

Lemma sumZ_cons {A} (f : A → Z) (x : A) (l : list A) :
  sumZ f (x :: l) = f x + sumZ f l.
Proof. done. Qed.

Lemma sumZ_filter_nonnegative {A} (f : A → Z) (P : A → Prop)
    `{!∀ x, Decision (P x)} (l : list A) :
  Forall (λ x, 0 < f x) l → 0 ≤ sumZ f (filter P l).
Proof.
  induction 1 as [|x l Hx _ IH]; [done|].
  rewrite filter_cons. case_decide; [rewrite sumZ_cons|]; lia.
Qed.

Lemma products_set_products (m : gmap uuid Product.t) (s : db) :
  products (set_products m s) = m.
Proof. done. Qed.

Lemma update_invoices_total_amount_absent (id : uuid) (s : db) :
  invoices s !! id = None → update_invoices_total_amount id s = s.
Proof.
  intros E. unfold update_invoices_total_amount, set_invoices.
  rewrite alter_id' by done. by destruct s.
Qed.

(** The row triggers of the cascade, run over the removed items [l] of an
    invoice that is already gone: each item gives its quantity back. *)
Lemma cascade_returns_stock (id : uuid) (l : list InvoiceItem.t) :
  Forall (λ ii, InvoiceItem.invoice_id ii = id) l →
  Forall (λ ii, 0 < InvoiceItem.quantity ii) l →
  ∀ s, invoices s !! id = None →
  (∀ pid p, products s !! pid = Some p →
     int4_min ≤ Product.stock_quantity p ∧ 0 ≤ Product.stock_quantity p
     ∧ Product.stock_quantity p
       + sumZ InvoiceItem.quantity
              (filter (λ ii, InvoiceItem.product_id ii = pid) l) ≤ int4_max
     ∧ products_tax_rate_check p = true
     ∧ products_unit_price_check p = true) →
  ∃ s', for_each (λ OLD, invoice_items_after_row (TG_DELETE OLD)) l s = Ok s'
    ∧ purchases s' = purchases s ∧ invoices s' = invoices s
    ∧ invoice_items s' = invoice_items s
    ∧ ∀ pid, products s' !! pid
        = (λ p, Product.with_stock_quantity
                  (Product.stock_quantity p
                   + sumZ InvoiceItem.quantity
                       (filter (λ ii, InvoiceItem.product_id ii = pid) l)) p)
          <$> products s !! pid.
Proof.
  intros Hid Hq. induction l as [|x l IH]; intros s Hinv Hp.
  - exists s. simpl. repeat split; try done. intros pid.
    destruct (products s !! pid) as [[n q u t]|]; simpl; [|done].
    unfold Product.with_stock_quantity. simpl. do 2 f_equal. lia.
  - apply Forall_cons in Hid as [Hx Hid], Hq as [Hxq Hq].
    specialize (IH Hid Hq). simpl.
    unfold invoice_items_after_row at 1. simpl.
    rewrite Hx, update_invoices_total_amount_absent by done.
    assert (∀ pid, 0 ≤ sumZ InvoiceItem.quantity
                    (filter (λ ii, InvoiceItem.product_id ii = pid) l))
      as Hnn by (intros; by apply sumZ_filter_nonnegative).
    destruct (products s !! InvoiceItem.product_id x) as [p|] eqn:Ep.
    + destruct (Hp _ _ Ep) as (Hmin & H0 & Hmax & Ht & Hu).
      rewrite filter_cons_True, sumZ_cons in Hmax by done.
      specialize (Hnn (InvoiceItem.product_id x)).
      assert (int4_add (Product.stock_quantity p) (InvoiceItem.quantity x)
              = Ok (Product.stock_quantity p + InvoiceItem.quantity x))
        as Hadd by (apply int4_in_range; int4_lia).
      rewrite (update_products_stock_quantity_success
                 (λ q, int4_add q (InvoiceItem.quantity x)) _ s p _ Ep Hadd)
        by (done || lia).
      simpl.
      destruct (IH (set_products
                      (<[InvoiceItem.product_id x :=
                           Product.with_stock_quantity
                             (Product.stock_quantity p + InvoiceItem.quantity x)
                             p]> (products s)) s))
        as (s' & Hs' & Hpu & Hi & Hii & Hpr); [exact Hinv| |].
      { intros pid p'. rewrite products_set_products, lookup_insert.
        case_decide as Hpid.
        - intros [= <-]. subst pid. simpl. repeat split; try done; lia.
        - intros Ep'. destruct (Hp _ _ Ep') as (? & ? & Hm & ? & ?).
          rewrite filter_cons_False in Hm by done. done. }
      exists s'. split; [exact Hs'|]. repeat split; try done.
      intros pid. rewrite Hpr, products_set_products, lookup_insert.
      case_decide as Hpid.
      * subst pid. rewrite Ep. simpl. rewrite filter_cons_True by done.
        rewrite sumZ_cons. unfold Product.with_stock_quantity. simpl.
        do 2 f_equal. lia.
      * by rewrite filter_cons_False.
    + unfold update_products_stock_quantity. rewrite Ep. simpl.
      destruct (IH s) as (s' & Hs' & Hpu & Hi & Hii & Hpr); [exact Hinv| |].
      { intros pid p' Ep'. destruct (Hp _ _ Ep') as (? & ? & Hm & ? & ?).
        rewrite filter_cons_False in Hm by congruence. done. }
      exists s'. split; [exact Hs'|]. repeat split; try done.
      intros pid. rewrite Hpr.
      destruct (products s !! pid) eqn:Epid; [|done].
      by rewrite filter_cons_False by congruence.
Qed.

(** Whenever the cascade goes through, every stock has grown by what the
    removed items held of its product. *)
Lemma cascade_result (l : list InvoiceItem.t) :
  ∀ s s', for_each (λ OLD, invoice_items_after_row (TG_DELETE OLD)) l s = Ok s' →
  ∀ pid p, products s !! pid = Some p →
    stock_of pid s'
    = Some (Product.stock_quantity p
            + sumZ InvoiceItem.quantity
                (filter (λ ii, InvoiceItem.product_id ii = pid) l)).
Proof.
  induction l as [|x l IH]; intros s s' Hs' pid p Ep; cbn [for_each] in Hs';
    ok_inv.
  - unfold stock_of. rewrite Ep. simpl. f_equal. lia.
  - cbv beta in *.
    match goal with
    | E1 : invoice_items_after_row _ s = Ok ?t,
      E2 : for_each _ l ?t = Ok s' |- _ =>
        rename E1 into Hstep; rename E2 into Hrest; rename t into s1
    end.
    unfold invoice_items_after_row in Hstep. simpl in Hstep.
    apply update_products_stock_quantity_Ok in Hstep
      as [[En ->]|(p' & q & Ep' & Hq & _ & _ & ->)]; simpl in *.
    + rewrite (IH _ _ Hrest pid p Ep).
      by rewrite filter_cons_False by congruence.
    + ok_inv. destruct (decide (InvoiceItem.product_id x = pid)) as [Heq|Hne].
      * subst pid. simplify_eq.
        erewrite (IH _ _ Hrest); [|by rewrite products_set_products,
                                       lookup_insert_eq].
        rewrite filter_cons_True by done. simpl. f_equal. lia.
      * erewrite (IH _ _ Hrest); [|by rewrite products_set_products,
                                       lookup_insert_ne].
        by rewrite filter_cons_False by done.
Qed.

(** In a well-formed state the trigger of a removed item can fail in one
    way only: the stock it gives back leaves the integer range. *)
Lemma cascade_error (l : list InvoiceItem.t) :
  Forall (λ ii, 0 < InvoiceItem.quantity ii) l →
  ∀ s e, valid s →
    for_each (λ OLD, invoice_items_after_row (TG_DELETE OLD)) l s = Err e →
    e = integer_out_of_range.
Proof.
  induction 1 as [|x l Hx _ IH]; intros s e Hv Hs; cbn [for_each] in Hs;
    [done|].
  destruct (invoice_items_after_row (TG_DELETE x) s) as [s1|e1] eqn:Hstep;
    simpl in Hs.
  - eapply IH; [|exact Hs]. by eapply invoice_items_after_row_valid.
  - injection Hs as <-. unfold invoice_items_after_row in Hstep. simpl in Hstep.
    unfold update_products_stock_quantity in Hstep. simpl in Hstep.
    destruct (products s !! InvoiceItem.product_id x) as [p|] eqn:Ep; [|done].
    destruct (valid_product _ _ _ Hv Ep) as (_ & H0 & Ht & Hu).
    unfold int4_add, int4 in Hstep.
    destruct (in_int4 (Product.stock_quantity p + InvoiceItem.quantity x));
      simpl in Hstep; [|by injection Hstep].
    assert (products_checks
              (Product.with_stock_quantity
                 (Product.stock_quantity p + InvoiceItem.quantity x) p)
            = Ok ()) as Hc.
    { apply products_checks_Ok. split_and!; try done.
      unfold products_stock_quantity_check. simpl. apply Z.leb_le. lia. }
    by rewrite Hc in Hstep.
Qed.

(** C5, as the code has it. [delete_invoice_by_id id] fails with NotFound
    and changes nothing when no invoice has the id. Otherwise, provided no
    product's stock_quantity plus the quantities the invoice returns to it
    exceeds the integer range, it deletes the invoice and all of its items
    and every product's stock_quantity grows by the quantities of the
    deleted items that name it. When some stock would leave the range the
    call fails with "integer out of range". The call is one transaction,
    applied in full or not at all. *)
Theorem delete_invoice_by_id_spec (s : db) (id : uuid) :
  valid s →
  (invoices s !! id = None →
     delete_invoice_by_id id s = Err (invoice_not_found id)
     ∧ classify (invoice_not_found id) = NotFound
     ∧ execute (DeleteInvoiceById id) s = s)
  ∧ (is_Some (invoices s !! id) →
     restorable id s →
     ∃ s', delete_invoice_by_id id s
           = Ok ("Invoice and associated items deleted successfully.", s')
       ∧ execute (DeleteInvoiceById id) s = s'
       ∧ invoices s' = delete id (invoices s)
       ∧ invoice_items s'
         = filter (λ kv, InvoiceItem.invoice_id kv.2 ≠ id) (invoice_items s)
       ∧ purchases s' = purchases s
       ∧ ∀ pid, products s' !! pid
           = (λ p, Product.with_stock_quantity
                     (Product.stock_quantity p + returned id pid s) p)
             <$> products s !! pid)
  ∧ (is_Some (invoices s !! id) →
     ¬ restorable id s →
     delete_invoice_by_id id s = Err integer_out_of_range
     ∧ execute (DeleteInvoiceById id) s = s)
  ∧ (∀ e, run (DeleteInvoiceById id) s = Err e →
       execute (DeleteInvoiceById id) s = s).
Proof.
  intros Hv.
  assert (Forall (λ ii, 0 < InvoiceItem.quantity ii)
                 (rows (cascaded_items id s))) as Hpos.
  { apply Forall_forall. intros ii [j Hj]%elem_of_rows.
    apply map_lookup_filter_Some in Hj as [Hj _].
    destruct (valid_invoice_item _ _ _ Hv Hj) as (? & _). lia. }
  split; [|split; [|split]].
  - intros E. unfold execute. simpl. unfold delete_invoice_by_id, delete_invoices.
    by rewrite E.
  - intros [inv E] Hmax.
    destruct (cascade_returns_stock id (rows (cascaded_items id s))) with
      (s := set_invoice_items
              (filter (λ kv, InvoiceItem.invoice_id kv.2 ≠ id) (invoice_items s))
              (set_invoices (delete id (invoices s)) s))
      as (s' & Hs' & Hpu & Hi & Hii & Hpr).
    + apply Forall_forall. intros ii [j Hj]%elem_of_rows.
      by apply map_lookup_filter_Some in Hj as [_ ?].
    + done.
    + simpl. apply lookup_delete_eq.
    + simpl. intros pid p Ep.
      destruct (valid_product _ _ _ Hv Ep) as (? & ? & ? & ?).
      specialize (Hmax _ _ Ep). repeat split; try done; lia.
    + exists s'.
      assert (delete_invoice_by_id id s
              = Ok ("Invoice and associated items deleted successfully.", s'))
        as Hr.
      { unfold delete_invoice_by_id, delete_invoices. rewrite E.
        by rewrite (bind_Ok_l _ _ _ Hs'). }
      split; [exact Hr|]. split.
      { unfold execute. simpl. by rewrite Hr. }
      by repeat split.
  - intros [inv E] Hover.
    assert (delete_invoice_by_id id s = Err integer_out_of_range) as Hr.
    { unfold delete_invoice_by_id, delete_invoices. rewrite E.
      destruct (for_each _ _ _) as [s'|e] eqn:Hrun; simpl.
      - exfalso. apply Hover. intros pid p Ep.
        pose proof (cascade_result _ _ _ Hrun pid p Ep) as Hstock.
        unfold stock_of in Hstock.
        destruct (products s' !! pid) as [p'|] eqn:Ep'; [|done].
        injection Hstock as Hstock.
        assert (valid s') as Hv'.
        { eapply (for_each_preserves valid);
            [|exact Hrun|by apply invoice_removed_valid].
          intros x u u'. apply invoice_items_after_row_valid. }
        destruct (valid_product _ _ _ Hv' Ep') as ([_ Hle] & _).
        unfold returned. lia.
      - f_equal. eapply cascade_error; [exact Hpos| |exact Hrun].
        by apply invoice_removed_valid. }
    split; [exact Hr|]. unfold execute. simpl. by rewrite Hr.
  - intros e He. unfold execute. by rewrite He.
Qed.

(** ** ORDER BY *)

Section order_by.
Context {A : Type} (le : A → A → bool).

Lemma insert_by_Permutation (x : A) (l : list A) : insert_by le x l ≡ₚ x :: l.
Proof.
  induction l as [|y l IH]; simpl; [done|].
  destruct (le x y); [done|]. rewrite IH. apply Permutation_swap.
Qed.

Lemma order_by_Permutation (l : list A) : order_by le l ≡ₚ l.
Proof.
  induction l as [|x l IH]; simpl; [done|].
  by rewrite insert_by_Permutation, IH.
Qed.

Lemma length_order_by (l : list A) : length (order_by le l) = length l.
Proof. by rewrite order_by_Permutation. Qed.

Hypothesis le_total : ∀ a b, le a b = false → le b a = true.

Lemma insert_by_HdRel (a x : A) (l : list A) :
  le a x = true → HdRel (λ a b, le a b = true) a l →
  HdRel (λ a b, le a b = true) a (insert_by le x l).
Proof.
  intros Hax Hal. destruct l as [|y l]; simpl; [by constructor|].
  destruct (le x y); constructor; [done|]. by inversion Hal.
Qed.

Lemma insert_by_Sorted (x : A) (l : list A) :
  Sorted (λ a b, le a b = true) l →
  Sorted (λ a b, le a b = true) (insert_by le x l).
Proof.
  induction 1 as [|y l Hl IH Hy]; simpl; [by repeat constructor|].
  destruct (le x y) eqn:Exy.
  - constructor; [by constructor|by constructor].
  - constructor; [done|]. apply insert_by_HdRel; [|done]. by apply le_total.
Qed.

Lemma order_by_Sorted (l : list A) :
  Sorted (λ a b, le a b = true) (order_by le l).
Proof.
  induction l as [|x l IH]; simpl; [constructor|]. by apply insert_by_Sorted.
Qed.

End order_by.

(** Sorting keys that a projection preserves commutes with the projection. *)
Lemma insert_by_fmap {A B} (f : A → B) (le : A → A → bool)
    (le' : B → B → bool) (x : A) (l : list A) :
  (∀ a b, le a b = le' (f a) (f b)) →
  f <$> insert_by le x l = insert_by le' (f x) (f <$> l).
Proof.
  intros Hle. induction l as [|y l IH]; csimpl; [done|].
  rewrite <- Hle. destruct (le x y); csimpl; [done|]. by rewrite IH.
Qed.

Lemma order_by_fmap {A B} (f : A → B) (le : A → A → bool)
    (le' : B → B → bool) (l : list A) :
  (∀ a b, le a b = le' (f a) (f b)) →
  f <$> order_by le l = order_by le' (f <$> l).
Proof.
  intros Hle. induction l as [|x l IH]; csimpl; [done|].
  by rewrite (insert_by_fmap f le le'), IH.
Qed.

(** A window of a sorted list is sorted. *)
Lemma Sorted_drop {A} (R : relation A) (n : nat) (l : list A) :
  Sorted R l → Sorted R (drop n l).
Proof.
  revert l. induction n as [|n IH]; intros l Hl; [done|].
  destruct l as [|x l]; [done|]. simpl. apply IH. by inversion Hl.
Qed.

Lemma Sorted_take {A} (R : relation A) (n : nat) (l : list A) :
  Sorted R l → Sorted R (take n l).
Proof.
  intros Hl. revert n. induction Hl as [|x l Hl IH Hx]; intros n.
  - by destruct n.
  - destruct n as [|n]; simpl; [constructor|]. constructor; [apply IH|].
    destruct Hx as [|y l Hxy]; [destruct n; constructor|].
    destruct n; simpl; by constructor.
Qed.

(** A window and what follows it make up what the offset left. *)
Lemma window_tiles {A} (limit offset : nat) (l : list A) :
  take limit (drop offset l) ++ drop (offset + limit) l = drop offset l.
Proof. by rewrite <- drop_drop, take_drop. Qed.

(** ** Row builders *)

Lemma for_rows_Forall2 {A B} (f : A → result B) (l : list A) (ys : list B) :
  for_rows f l = Ok ys → Forall2 (λ x y, f x = Ok y) l ys.
Proof.
  revert ys. induction l as [|x l IH]; simpl; intros ys H; ok_inv.
  - constructor.
  - constructor; [done|]. by apply IH.
Qed.

Lemma for_rows_total {A B} (f : A → result B) (l : list A) :
  Forall (λ x, ∃ y, f x = Ok y) l → ∃ ys, for_rows f l = Ok ys.
Proof.
  induction 1 as [|x l [y Hy] _ [ys IH]]; simpl; [by eexists|].
  rewrite Hy. simpl. rewrite IH. simpl. by eexists.
Qed.

Lemma for_rows_fmap {A B C} (f : A → result B) (g : A → result C)
    (h : B → C) (l : list A) :
  (∀ x, g x = fmap (M:=result) h (f x)) →
  for_rows g l = fmap (M:=result) (fmap (M:=list) h) (for_rows f l).
Proof.
  intros Hg. induction l as [|x l IH]; simpl; [done|].
  rewrite Hg, IH. destruct (f x); simpl; [|done].
  by destruct (for_rows f l).
Qed.

Lemma export_sale_row_project
    (r : uuid * InvoiceItem.t * Invoice.t * Product.t) :
  export_sale_row r = fmap (M:=result) project (report_sale_row r).
Proof.
  destruct r as [[[id ii] i] p]. unfold export_sale_row, report_sale_row.
  by destruct (int4_neg (InvoiceItem.quantity ii)).
Qed.

Lemma export_purchase_row_project (r : uuid * Purchase.t * Product.t) :
  export_purchase_row r = project (report_purchase_row r).
Proof. by destruct r as [[id pu] p]. Qed.

(** The export's rows are the report's rows without [transaction_id]. *)
Lemma export_combined_transactions_project (s : db)
    (p_start_date p_end_date : date) (p_transaction_type : string) :
  export_combined_transactions s p_start_date p_end_date p_transaction_type
  = fmap (M:=result) (fmap (M:=list) project)
      (report_combined_transactions s p_start_date p_end_date
         p_transaction_type).
Proof.
  unfold export_combined_transactions, report_combined_transactions.
  rewrite (for_rows_fmap report_sale_row export_sale_row project)
    by apply export_sale_row_project.
  destruct (for_rows report_sale_row _) as [sales|e]; simpl; [|done].
  rewrite fmap_app, <- list_fmap_compose. do 2 f_equal.
  apply list_fmap_ext. intros _ r _. apply export_purchase_row_project.
Qed.

Section collation.
Context `{Collation}.

Lemma date_desc_name_asc_total (d1 : date) (n1 : string)
    (d2 : date) (n2 : string) :
  date_desc_name_asc d1 n1 d2 n2 = false →
  date_desc_name_asc d2 n2 d1 n1 = true.
Proof.
  unfold date_desc_name_asc. intros Hf.
  apply orb_false_iff in Hf as [Hlt Hf]. apply Z.ltb_ge in Hlt.
  apply orb_true_iff. destruct (decide (d1 = d2)) as [->|Hne].
  - right. rewrite Z.eqb_refl in *. simpl in *. by apply text_le_total.
  - left. apply Z.ltb_lt. lia.
Qed.

Lemma date_desc_name_asc_spec (d1 : date) (n1 : string)
    (d2 : date) (n2 : string) :
  date_desc_name_asc d1 n1 d2 n2 = true ↔
  d2 < d1 ∨ (d1 = d2 ∧ text_le n1 n2 = true).
Proof.
  unfold date_desc_name_asc.
  by rewrite orb_true_iff, andb_true_iff, Z.ltb_lt, Z.eqb_eq.
Qed.

Lemma report_le_project (r1 r2 : ReportRow.t) :
  report_le r1 r2 = export_le (project r1) (project r2).
Proof. done. Qed.

End collation.

(** ** The rows of the joins *)

Lemma elem_of_items_join_invoices (s : db) (id : uuid) (ii : InvoiceItem.t)
    (i : Invoice.t) :
  (id, ii, i) ∈ items_join_invoices s ↔
  invoice_items s !! id = Some ii
  ∧ invoices s !! InvoiceItem.invoice_id ii = Some i.
Proof.
  unfold items_join_invoices. rewrite list_elem_of_omap. split.
  - intros ([id' ii'] & Hin & Hf). apply elem_of_map_to_list in Hin.
    destruct (invoices s !! InvoiceItem.invoice_id ii') eqn:E;
      simpl in Hf; [|done]. by simplify_eq.
  - intros [Hii Hi]. exists (id, ii). split; [by apply elem_of_map_to_list|].
    by rewrite Hi.
Qed.

Lemma elem_of_items_join_invoices_products (s : db) (id : uuid)
    (ii : InvoiceItem.t) (i : Invoice.t) (p : Product.t) :
  (id, ii, i, p) ∈ items_join_invoices_products s ↔
  invoice_items s !! id = Some ii
  ∧ invoices s !! InvoiceItem.invoice_id ii = Some i
  ∧ products s !! InvoiceItem.product_id ii = Some p.
Proof.
  unfold items_join_invoices_products. rewrite list_elem_of_omap. split.
  - intros ([[id' ii'] i'] & Hin & Hf).
    apply elem_of_items_join_invoices in Hin as [Hii Hi].
    destruct (products s !! InvoiceItem.product_id ii') eqn:E;
      simpl in Hf; [|done]. by simplify_eq.
  - intros (Hii & Hi & Hp). exists (id, ii, i).
    split; [by apply elem_of_items_join_invoices|]. by rewrite Hp.
Qed.

Lemma elem_of_purchases_join_products (s : db) (id : uuid) (pu : Purchase.t)
    (p : Product.t) :
  (id, pu, p) ∈ purchases_join_products s ↔
  purchases s !! id = Some pu
  ∧ products s !! Purchase.product_id pu = Some p.
Proof.
  unfold purchases_join_products. rewrite list_elem_of_omap. split.
  - intros ([id' pu'] & Hin & Hf). apply elem_of_map_to_list in Hin.
    destruct (products s !! Purchase.product_id pu') eqn:E;
      simpl in Hf; [|done]. by simplify_eq.
  - intros [Hpu Hp]. exists (id, pu). split; [by apply elem_of_map_to_list|].
    by rewrite Hp.
Qed.

Lemma type_admits_spec (p_transaction_type kind : string) :
  type_admits p_transaction_type kind = true ↔
  p_transaction_type = "all" ∨ p_transaction_type = kind.
Proof.
  unfold type_admits. by rewrite orb_true_iff, !bool_decide_eq_true.
Qed.

Lemma between_spec (d a b : date) : between d a b = true ↔ a ≤ d ≤ b.
Proof. unfold between. by rewrite andb_true_iff, !Z.leb_le. Qed.

(** ** The paginated report *)

(** A report row that stands for invoice item [transaction_id]: dated by
    the item's invoice, named by its product, its quantity negated. *)
Definition is_sale_row (s : db) (r : ReportRow.t) : Prop :=
  ∃ ii i p,
    invoice_items s !! ReportRow.transaction_id r = Some ii
    ∧ invoices s !! InvoiceItem.invoice_id ii = Some i
    ∧ products s !! InvoiceItem.product_id ii = Some p
    ∧ ReportRow.transaction_date r = Invoice.invoice_date i
    ∧ ReportRow.transaction_type r = "Sale"
    ∧ ReportRow.reference_number r = Some (Invoice.invoice_number i)
    ∧ ReportRow.product_name r = Product.name p
    ∧ ReportRow.quantity_change r = - InvoiceItem.quantity ii.

(** A report row that stands for purchase [transaction_id]. *)
Definition is_purchase_row (s : db) (r : ReportRow.t) : Prop :=
  ∃ pu p,
    purchases s !! ReportRow.transaction_id r = Some pu
    ∧ products s !! Purchase.product_id pu = Some p
    ∧ ReportRow.transaction_date r = Purchase.purchase_date pu
    ∧ ReportRow.transaction_type r = "Purchase"
    ∧ ReportRow.reference_number r = Purchase.reference_invoice pu
    ∧ ReportRow.product_name r = Product.name p
    ∧ ReportRow.quantity_change r = Purchase.quantity pu.

(** What the filters of the report let through. *)
Definition admitted (s : db) (p_start_date p_end_date : date)
    (p_transaction_type : string) (r : ReportRow.t) : Prop :=
  p_start_date ≤ ReportRow.transaction_date r ≤ p_end_date
  ∧ ((is_sale_row s r
      ∧ (p_transaction_type = "all" ∨ p_transaction_type = "sale"))
     ∨ (is_purchase_row s r
        ∧ (p_transaction_type = "all" ∨ p_transaction_type = "purchase"))).

(** [transaction_date DESC, product_name ASC]. *)
Definition comes_before `{Collation} (r1 r2 : ReportRow.t) : Prop :=
  ReportRow.transaction_date r2 < ReportRow.transaction_date r1
  ∨ (ReportRow.transaction_date r1 = ReportRow.transaction_date r2
     ∧ text_le (ReportRow.product_name r1) (ReportRow.product_name r2) = true).

Lemma Sorted_impl {A} (R1 R2 : relation A) (l : list A) :
  (∀ a b, R1 a b → R2 a b) → Sorted R1 l → Sorted R2 l.
Proof.
  intros HR. induction 1 as [|x l _ IH Hx]; constructor; [done|].
  destruct Hx; constructor. by apply HR.
Qed.

Lemma report_combined_transactions_admitted (s : db)
    (p_start_date p_end_date : date) (p_transaction_type : string)
    (ct : list ReportRow.t) :
  report_combined_transactions s p_start_date p_end_date p_transaction_type
  = Ok ct →
  Forall (admitted s p_start_date p_end_date p_transaction_type) ct.
Proof.
  unfold report_combined_transactions. intros Hct. ok_inv.
  match goal with E : for_rows _ _ = Ok _ |- _ =>
    apply for_rows_Forall2 in E; rename E into Hsales end.
  apply Forall_app. split.
  - apply Forall_forall. intros r Hr.
    destruct (proj1 (list_elem_of_lookup _ _) Hr) as [k Hk].
    destruct (Forall2_lookup_r _ _ _ _ _ Hsales Hk) as (x & Hx & Hrow).
    apply list_elem_of_lookup_2 in Hx.
    apply list_elem_of_filter in Hx as [Hsel Hx].
    destruct x as [[[id ii] i] p].
    apply elem_of_items_join_invoices_products in Hx as (Hii & Hi & Hp).
    unfold sale_selected in Hsel. simpl in Hsel.
    apply Is_true_true, andb_true_iff in Hsel as [Hty Hd].
    apply type_admits_spec in Hty. apply between_spec in Hd.
    unfold report_sale_row in Hrow. ok_inv. split; [done|]. left.
    split; [|done]. exists ii, i, p. by repeat split.
  - apply Forall_forall. intros r Hr.
    apply list_elem_of_fmap in Hr as (x & -> & Hx).
    apply list_elem_of_filter in Hx as [Hsel Hx].
    destruct x as [[id pu] p].
    apply elem_of_purchases_join_products in Hx as (Hpu & Hp).
    unfold purchase_selected in Hsel. simpl in Hsel.
    apply Is_true_true, andb_true_iff in Hsel as [Hty Hd].
    apply type_admits_spec in Hty. apply between_spec in Hd.
    split; [done|]. right. split; [|done]. exists pu, p. by repeat split.
Qed.

(** Nothing the filters admit is left out. *)
Lemma report_combined_transactions_complete (s : db)
    (p_start_date p_end_date : date) (p_transaction_type : string)
    (ct : list ReportRow.t) (r : ReportRow.t) :
  report_combined_transactions s p_start_date p_end_date p_transaction_type
  = Ok ct →
  admitted s p_start_date p_end_date p_transaction_type r → r ∈ ct.
Proof.
  unfold report_combined_transactions. intros Hct [Hd Hr]. ok_inv.
  match goal with E : for_rows _ _ = Ok _ |- _ =>
    apply for_rows_Forall2 in E; rename E into Hsales end.
  apply elem_of_app.
  destruct Hr as [[(ii & i & p & Hii & Hi & Hp & Hdate & Hty & Href & Hn & Hq)
                   Hsel]
                 |[(pu & p & Hpu & Hp & Hdate & Hty & Href & Hn & Hq) Hsel]].
  - left.
    assert ((ReportRow.transaction_id r, ii, i, p)
            ∈ filter (λ x, sale_selected p_start_date p_end_date
                             p_transaction_type x.1.2)
                     (items_join_invoices_products s)) as Hx.
    { apply list_elem_of_filter. split.
      - unfold sale_selected. simpl. apply Is_true_true, andb_true_iff.
        split; [by apply type_admits_spec|]. apply between_spec. by rewrite <- Hdate.
      - by apply elem_of_items_join_invoices_products. }
    destruct (proj1 (list_elem_of_lookup _ _) Hx) as [k Hk].
    destruct (Forall2_lookup_l _ _ _ _ _ Hsales Hk) as (y & Hy & Hrow).
    apply list_elem_of_lookup_2 in Hy.
    unfold report_sale_row in Hrow. ok_inv.
    destruct r; simpl in *; by subst.
  - right. apply list_elem_of_fmap. exists (ReportRow.transaction_id r, pu, p).
    split.
    + destruct r; simpl in *; by subst.
    + apply list_elem_of_filter. split.
      * unfold purchase_selected. simpl. apply Is_true_true, andb_true_iff.
        split; [by apply type_admits_spec|]. apply between_spec.
        by rewrite <- Hdate.
      * by apply elem_of_purchases_join_products.
Qed.

(** In a well-formed state every selected row can be built. *)
Lemma report_combined_transactions_returns (s : db)
    (p_start_date p_end_date : date) (p_transaction_type : string) :
  valid s →
  ∃ ct, report_combined_transactions s p_start_date p_end_date
          p_transaction_type = Ok ct.
Proof.
  intros Hv. unfold report_combined_transactions.
  edestruct (for_rows_total report_sale_row) as [sales ->];
    [|simpl; by eexists].
  apply Forall_forall. intros [[[id ii] i] p] Hx.
  apply list_elem_of_filter in Hx as [_ Hx].
  apply elem_of_items_join_invoices_products in Hx as (Hii & _).
  destruct (valid_invoice_item _ _ _ Hv Hii) as (Hq & _).
  unfold report_sale_row, int4_neg.
  rewrite int4_in_range by int4_lia. simpl. by eexists.
Qed.

Section report.
Context `{Collation}.

(** C8. [get_combined_report] returns, for non-negative limit and offset
    on a well-formed state, and what it returns is sorted by transaction
    date descending then product name ascending and holds only rows dated
    within [p_start_date, p_end_date] that the type filter admits ('all'
    both kinds, 'sale' invoice items only, 'purchase' purchases only); a
    sale row carries minus the item's quantity, a purchase row the
    purchase's quantity. The page is the window of a sorted sequence that
    holds the admitted transactions and nothing else. *)
Theorem get_combined_report_spec (s : db) (p_start_date p_end_date : date)
    (p_transaction_type : string) (p_limit p_offset : Z) :
  (valid s → 0 ≤ p_limit → 0 ≤ p_offset →
   ∃ page, get_combined_report s p_start_date p_end_date p_transaction_type
             p_limit p_offset = Ok page)
  ∧ ∀ page,
      get_combined_report s p_start_date p_end_date p_transaction_type
        p_limit p_offset = Ok page →
      Sorted comes_before page
      ∧ Forall (admitted s p_start_date p_end_date p_transaction_type) page
      ∧ (p_transaction_type = "sale" → Forall (is_sale_row s) page)
      ∧ (p_transaction_type = "purchase" → Forall (is_purchase_row s) page)
      ∧ ∃ full,
          page = take (Z.to_nat p_limit) (drop (Z.to_nat p_offset) full)
          ∧ Sorted comes_before full
          ∧ ∀ r, r ∈ full ↔
                 admitted s p_start_date p_end_date p_transaction_type r.
Proof.
  split.
  - intros Hv Hl Ho. unfold get_combined_report.
    rewrite (require_true (0 <=? p_offset)) by by apply Z.leb_le.
    rewrite (require_true (0 <=? p_limit)) by by apply Z.leb_le.
    destruct (report_combined_transactions_returns s p_start_date p_end_date
                p_transaction_type Hv) as [ct ->].
    simpl. by eexists.
  - intros page Hpage. unfold get_combined_report in Hpage. ok_inv.
    match goal with E : report_combined_transactions _ _ _ _ = Ok ?c |- _ =>
      pose proof (report_combined_transactions_admitted _ _ _ _ _ E) as Hct;
      pose proof (λ r, report_combined_transactions_complete _ _ _ _ _ r E)
        as Hall;
      rename c into ct end.
    assert (Forall (admitted s p_start_date p_end_date p_transaction_type)
              (take (Z.to_nat p_limit)
                 (drop (Z.to_nat p_offset) (order_by report_le ct)))) as Hadm.
    { apply Forall_take, Forall_drop. by rewrite order_by_Permutation. }
    assert (Sorted comes_before (order_by report_le ct)) as Hsorted.
    { apply (Sorted_impl (λ a b, report_le a b = true)).
      - intros r1 r2. apply date_desc_name_asc_spec.
      - apply order_by_Sorted. intros r1 r2. apply date_desc_name_asc_total. }
    split; [|split; [done|split; [|split]]].
    + by apply Sorted_take, Sorted_drop.
    + intros ->. eapply Forall_impl; [exact Hadm|].
      intros r (_ & [[Hs _]|[_ [?|?]]]); done.
    + intros ->. eapply Forall_impl; [exact Hadm|].
      intros r (_ & [[_ [?|?]]|[Hp _]]); done.
    + exists (order_by report_le ct). split; [done|]. split; [done|].
      intros r. rewrite order_by_Permutation. split.
      * intros Hr. by eapply Forall_forall in Hct.
      * apply Hall.
Qed.

End report.

(** ** The count and the export *)

Lemma length_for_rows {A B} (f : A → result B) (l : list A) (ys : list B) :
  for_rows f l = Ok ys → length ys = length l.
Proof.
  intros Hl. apply for_rows_Forall2 in Hl. symmetry.
  by eapply Forall2_length.
Qed.

(** A join that finds a partner for every row keeps the number of rows a
    filter on the left side selects. *)
Lemma length_filter_omap {X Y} (g : X → option Y)
    (P : X → Prop) `{!∀ x, Decision (P x)}
    (Q : Y → Prop) `{!∀ y, Decision (Q y)} (l : list X) :
  Forall (λ x, ∃ y, g x = Some y ∧ (Q y ↔ P x)) l →
  length (filter Q (omap g l)) = length (filter P l).
Proof.
  induction 1 as [|x l (y & Hg & HQ) _ IH]; [done|].
  csimpl. rewrite Hg. simpl. rewrite !filter_cons.
  destruct (decide (Q y)) as [Hy|Hy], (decide (P x)) as [Hx|Hx]; simpl;
    try (by rewrite IH); tauto.
Qed.

Lemma export_combined_transactions_length (s : db)
    (p_start_date p_end_date : date) (p_transaction_type : string)
    (ct : list ExportRow.t) :
  valid s →
  export_combined_transactions s p_start_date p_end_date p_transaction_type
  = Ok ct →
  length ct
  = (length (filter (λ r, sale_selected p_start_date p_end_date
                            p_transaction_type r.2)
                    (items_join_invoices s))
     + length (filter (λ r, purchase_selected p_start_date p_end_date
                              p_transaction_type r.2)
                      (map_to_list (purchases s))))%nat.
Proof.
  intros Hv Hct. unfold export_combined_transactions in Hct. ok_inv.
  match goal with E : for_rows _ _ = Ok _ |- _ =>
    apply length_for_rows in E; rename E into Hsales end.
  rewrite length_app, length_fmap, Hsales. f_equal.
  - unfold items_join_invoices_products. apply length_filter_omap.
    apply Forall_forall. intros [[id ii] i] Hx.
    apply elem_of_items_join_invoices in Hx as [Hii _].
    destruct (valid_invoice_item _ _ _ Hv Hii) as (_ & _ & [p Hp]).
    exists (id, ii, i, p). rewrite Hp. done.
  - unfold purchases_join_products. apply length_filter_omap.
    apply Forall_forall. intros [id pu] Hx.
    apply elem_of_map_to_list in Hx.
    destruct (valid_purchase _ _ _ Hv Hx) as (_ & [p Hp]).
    exists (id, pu, p). rewrite Hp. done.
Qed.


Section count.
Context `{Collation}.


End count.

(** ** The order of rows that tie *)

(** What [ORDER BY] promises: the rows, in an order in which every row
    comes before the rows after it by the keys. The order of rows whose
    keys tie is the store's choice and need not be the same from one query
    to the next. *)
Definition ordered_by {A} (le : A → A → bool) (l arranged : list A) : Prop :=
  arranged ≡ₚ l ∧ StronglySorted (λ a b, le a b = true) arranged.

Section tied.
Context `{Collation}.

(** A page [get_combined_report] may return. *)
Definition get_combined_report_may_return (s : db)
    (p_start_date p_end_date : date) (p_transaction_type : string)
    (p_limit p_offset : Z) (page : list ReportRow.t) : Prop :=
  0 ≤ p_offset ∧ 0 ≤ p_limit
  ∧ ∃ ct arranged,
      report_combined_transactions s p_start_date p_end_date
        p_transaction_type = Ok ct
      ∧ ordered_by report_le ct arranged
      ∧ page = take (Z.to_nat p_limit) (drop (Z.to_nat p_offset) arranged).

(** A sequence [export_combined_report] may return. *)
Definition export_combined_report_may_return (s : db)
    (p_start_date p_end_date : date) (p_transaction_type : string)
    (full : list ExportRow.t) : Prop :=
  ∃ ct,
    export_combined_transactions s p_start_date p_end_date
      p_transaction_type = Ok ct
    ∧ ordered_by export_le ct full.

(** No two different rows the export selects tie on date and product
    name. *)
Definition no_ties (s : db) (p_start_date p_end_date : date)
    (p_transaction_type : string) : Prop :=
  ∀ ct r1 r2,
    export_combined_transactions s p_start_date p_end_date
      p_transaction_type = Ok ct →
    r1 ∈ ct → r2 ∈ ct →
    export_le r1 r2 = true → export_le r2 r1 = true → r1 = r2.

End tied.

(** Rows that do not tie have one order. *)
Lemma ordered_by_unique {A} (le : A → A → bool) (l l1 l2 : list A) :
  (∀ a b, a ∈ l → b ∈ l → le a b = true → le b a = true → a = b) →
  ordered_by le l l1 → ordered_by le l l2 → l1 = l2.
Proof.
  intros Hties [Hp1 Hs1] [Hp2 Hs2].
  assert (l1 ≡ₚ l2) as Hp by (by rewrite Hp1, Hp2).
  assert (∀ a b, a ∈ l1 → b ∈ l1 → le a b = true → le b a = true → a = b)
    as Hties1.
  { intros a b Ha Hb. apply Hties; by rewrite <- Hp1. }
  clear l Hties Hp1 Hp2. revert l2 Hp Hs2.
  induction Hs1 as [|x l1 Hs1 IH Hx]; intros l2 Hp Hs2.
  { by apply Permutation_nil in Hp. }
  destruct l2 as [|y l2]; [by apply Permutation_nil_r in Hp|].
  apply StronglySorted_inv in Hs2 as [Hs2 Hy].
  assert (x = y) as ->.
  { assert (x ∈ y :: l2) as Hxin by (rewrite <- Hp; apply list_elem_of_here).
    assert (y ∈ x :: l1) as Hyin by (rewrite Hp; apply list_elem_of_here).
    apply elem_of_cons in Hxin as [?|Hxin]; [done|].
    apply elem_of_cons in Hyin as [?|Hyin]; [done|].
    apply Hties1.
    - apply list_elem_of_here.
    - by apply list_elem_of_further.
    - by eapply Forall_forall in Hx.
    - by eapply Forall_forall in Hy. }
  f_equal. apply IH; [|by apply Permutation_cons_inv in Hp|done].
  intros a b Ha Hb. apply Hties1; by apply list_elem_of_further.
Qed.

Lemma StronglySorted_project `{Collation} (arranged : list ReportRow.t) :
  StronglySorted (λ a b, report_le a b = true) arranged →
  StronglySorted (λ a b, export_le a b = true) (project <$> arranged).
Proof.
  induction 1 as [|r l _ IH Hr]; csimpl; constructor; [done|].
  apply Forall_fmap. eapply Forall_impl; [exact Hr|].
  intros r' Hle. simpl. by rewrite <- report_le_project.
Qed.

(** Under a collation that is transitive, as the collations of the store
    are, what [get_combined_report] and [export_combined_report] compute
    is one of the results the queries may return. *)
Section computed.
Context `{Collation}.
Hypothesis text_le_trans :
  ∀ a b c, text_le a b = true → text_le b c = true → text_le a c = true.

Lemma report_le_trans :
  Transitive (λ a b : ReportRow.t, report_le a b = true).
Proof.
  intros a b c. unfold report_le, date_desc_name_asc.
  rewrite !orb_true_iff, !andb_true_iff, !Z.ltb_lt, !Z.eqb_eq.
  intros [?|[? Hab]] [?|[? Hbc]]; try (left; lia).
  right. split; [lia|]. by eapply text_le_trans.
Qed.

Lemma order_by_ordered_by (ct : list ReportRow.t) :
  ordered_by report_le ct (order_by report_le ct).
Proof.
  split; [apply order_by_Permutation|].
  apply Sorted_StronglySorted; [apply report_le_trans|].
  apply order_by_Sorted. intros r1 r2. apply date_desc_name_asc_total.
Qed.

Lemma get_combined_report_may_return_computed (s : db)
    (p_start_date p_end_date : date) (p_transaction_type : string)
    (p_limit p_offset : Z) (page : list ReportRow.t) :
  get_combined_report s p_start_date p_end_date p_transaction_type
    p_limit p_offset = Ok page →
  get_combined_report_may_return s p_start_date p_end_date
    p_transaction_type p_limit p_offset page.
Proof.
  unfold get_combined_report. intros Hpage. ok_inv.
  repeat match goal with E : (_ <=? _) = true |- _ =>
    apply Z.leb_le in E end.
  split; [done|]. split; [done|].
  eexists _, _. split; [done|]. split; [apply order_by_ordered_by|done].
Qed.

Lemma export_combined_report_may_return_computed (s : db)
    (p_start_date p_end_date : date) (p_transaction_type : string)
    (full : list ExportRow.t) :
  export_combined_report s p_start_date p_end_date p_transaction_type
  = Ok full →
  export_combined_report_may_return s p_start_date p_end_date
    p_transaction_type full.
Proof.
  unfold export_combined_report. intros Hfull. ok_inv.
  eexists. split; [done|]. split; [apply order_by_Permutation|].
  rewrite <- (list_fmap_id (order_by export_le _)).
  match goal with E : export_combined_transactions _ _ _ _ = Ok ?ct |- _ =>
    pose proof E as Hct end.
  rewrite export_combined_transactions_project in Hct.
  destruct (report_combined_transactions s p_start_date p_end_date
              p_transaction_type) as [rct|] eqn:Hrct; [|done].
  simpl in Hct. injection Hct as <-.
  rewrite list_fmap_id.
  rewrite <- (order_by_fmap project report_le export_le)
    by (intros; apply report_le_project).
  apply StronglySorted_project. apply order_by_ordered_by.
Qed.

End computed.

Section window.
Context `{Collation}.

(** C10, as the code has it. Every page [get_combined_report] may return
    is, without its [transaction_id] column, the window (drop [p_offset]
    rows, take at most [p_limit]) of a sorted sequence that
    [export_combined_report] may return for the same filters, and the
    window and the rows after it make up what the offset left. When no two
    different selected rows tie on date and product name, the export has
    one sorted sequence, every page is the window of it, and the pages tile
    it without gaps or overlaps. *)
Theorem get_combined_report_window_of_export (s : db)
    (p_start_date p_end_date : date) (p_transaction_type : string)
    (p_limit p_offset : Z) (page : list ReportRow.t) :
  get_combined_report_may_return s p_start_date p_end_date
    p_transaction_type p_limit p_offset page →
  (∃ full,
     export_combined_report_may_return s p_start_date p_end_date
       p_transaction_type full
     ∧ project <$> page
       = take (Z.to_nat p_limit) (drop (Z.to_nat p_offset) full)
     ∧ (project <$> page)
       ++ drop (Z.to_nat p_offset + Z.to_nat p_limit) full
       = drop (Z.to_nat p_offset) full)
  ∧ (no_ties s p_start_date p_end_date p_transaction_type →
     ∀ full,
       export_combined_report_may_return s p_start_date p_end_date
         p_transaction_type full →
       project <$> page
       = take (Z.to_nat p_limit) (drop (Z.to_nat p_offset) full)
       ∧ (project <$> page)
         ++ drop (Z.to_nat p_offset + Z.to_nat p_limit) full
         = drop (Z.to_nat p_offset) full).
Proof.
  intros (_ & _ & ct & arranged & Hct & [Hperm Hsorted] & ->).
  assert (export_combined_transactions s p_start_date p_end_date
            p_transaction_type = Ok (project <$> ct)) as Hect.
  { by rewrite export_combined_transactions_project, Hct. }
  assert (ordered_by export_le (project <$> ct) (project <$> arranged))
    as Hexport.
  { split; [by rewrite Hperm|by apply StronglySorted_project]. }
  assert (project <$> take (Z.to_nat p_limit)
                        (drop (Z.to_nat p_offset) arranged)
          = take (Z.to_nat p_limit)
              (drop (Z.to_nat p_offset) (project <$> arranged))) as Hwin.
  { by rewrite fmap_take, fmap_drop. }
  split.
  - exists (project <$> arranged). split; [by exists (project <$> ct)|].
    split; [exact Hwin|]. rewrite Hwin. apply window_tiles.
  - intros Hties full (ect & Hect' & Hfull).
    rewrite Hect in Hect'. injection Hect' as <-.
    assert (full = project <$> arranged) as ->.
    { eapply ordered_by_unique; [|exact Hfull|exact Hexport].
      intros r1 r2. by apply Hties. }
    split; [exact Hwin|]. rewrite Hwin. apply window_tiles.
Qed.

End window.

(** ** The stock ledger under the mutations that keep it *)

#[global] Instance sumZ_Permutation {A} (f : A → Z) :
  Proper ((≡ₚ) ==> (=)) (sumZ f).
Proof. induction 1; simpl; lia. Qed.

Lemma rows_insert {A} (m : gmap uuid A) (i : uuid) (x : A) :
  m !! i = None → rows (<[i:=x]> m) ≡ₚ x :: rows m.
Proof. intros Hi. unfold rows. by rewrite map_to_list_insert. Qed.

Lemma rows_delete {A} (m : gmap uuid A) (i : uuid) (x : A) :
  m !! i = Some x → rows m ≡ₚ x :: rows (delete i m).
Proof. intros Hi. unfold rows. by rewrite <- (map_to_list_delete m i x). Qed.

Section sums.
Context {A : Type} (f : A → Z) (P : A → Prop) `{!∀ x, Decision (P x)}.

(** The share of one row in [SUM(f) ... WHERE P]. *)
Definition share (x : A) : Z := if decide (P x) then f x else 0.

Lemma sum_rows_cons (x : A) (l : list A) :
  sumZ f (filter P (x :: l)) = share x + sumZ f (filter P l).
Proof. unfold share. rewrite filter_cons. by case_decide. Qed.

Lemma sum_rows_insert (m : gmap uuid A) (i : uuid) (x : A) :
  m !! i = None →
  sumZ f (filter P (rows (<[i:=x]> m))) = share x + sumZ f (filter P (rows m)).
Proof. intros Hi. by rewrite rows_insert, sum_rows_cons. Qed.

Lemma sum_rows_delete (m : gmap uuid A) (i : uuid) (x : A) :
  m !! i = Some x →
  sumZ f (filter P (rows (delete i m))) = sumZ f (filter P (rows m)) - share x.
Proof. intros Hi. rewrite (rows_delete m i x), sum_rows_cons by done. lia. Qed.

Lemma sum_rows_replace (m : gmap uuid A) (i : uuid) (x y : A) :
  m !! i = Some x →
  sumZ f (filter P (rows (<[i:=y]> m)))
  = sumZ f (filter P (rows m)) - share x + share y.
Proof.
  intros Hi. rewrite <- insert_delete_eq.
  rewrite sum_rows_insert by apply lookup_delete_eq.
  rewrite (sum_rows_delete m i x) by done. lia.
Qed.

(** A sum over a table splits along any condition on its rows. *)
Lemma sum_rows_split (Q : uuid * A → Prop) `{!∀ kv, Decision (Q kv)}
    (m : gmap uuid A) :
  sumZ f (filter P (rows m))
  = sumZ f (filter P (rows (filter Q m)))
    + sumZ f (filter P (rows (filter (λ kv, ¬ Q kv) m))).
Proof.
  induction m as [|i x m Hi IH] using map_ind.
  - by rewrite !map_filter_empty.
  - rewrite sum_rows_insert, IH by done.
    destruct (decide (Q (i, x))) as [HQ|HQ].
    + rewrite (map_filter_insert_True Q), (map_filter_insert_not' (λ kv, ¬ Q kv));
        [|tauto|by rewrite Hi|done].
      rewrite sum_rows_insert by (by rewrite map_lookup_filter_None; left).
      lia.
    + rewrite (map_filter_insert_True (λ kv, ¬ Q kv)), (map_filter_insert_not' Q);
        [|done|by rewrite Hi|done].
      rewrite sum_rows_insert by (by rewrite map_lookup_filter_None; left).
      lia.
Qed.

End sums.

(** The ledger equation with an adjustment [owed] still to be applied to
    the stocks: the state between a write to a table and its trigger. *)
Definition ledger_up_to (owed : uuid → Z) (s : db) : Prop :=
  ∀ id p, products s !! id = Some p →
    Product.stock_quantity p + owed id = purchased id s - sold id s.

Lemma ledger_up_to_zero (s : db) : ledger_up_to (λ _, 0) s ↔ stock_ledger s.
Proof.
  unfold ledger_up_to, stock_ledger.
  split; intros Hl id p Ep; specialize (Hl id p Ep); lia.
Qed.

Lemma ledger_up_to_ext (owed owed' : uuid → Z) (s s' : db) :
  (∀ id, owed id = owed' id) →
  products s' = products s → purchases s' = purchases s →
  invoice_items s' = invoice_items s →
  ledger_up_to owed s → ledger_up_to owed' s'.
Proof.
  unfold ledger_up_to, purchased, sold. intros Ho -> -> -> Hl id p Ep.
  rewrite <- Ho. by apply Hl.
Qed.

(** One trigger statement [stock_quantity := stock_quantity + d] on product
    [pid] settles [d] of what is owed to [pid]. *)
Lemma ledger_up_to_stock_update (expr : Z → result Z) (pid : uuid) (d : Z)
    (owed : uuid → Z) (s s' : db) :
  (∀ q q', expr q = Ok q' → q' = q + d) →
  update_products_stock_quantity expr pid s = Ok s' →
  ledger_up_to owed s →
  ledger_up_to (λ id, owed id - if decide (id = pid) then d else 0) s'.
Proof.
  intros Hexpr Hs' Hl.
  apply update_products_stock_quantity_Ok in Hs'
    as [[En ->]|(p & q & Ep & Hq & _ & _ & ->)].
  - intros id p' Ep'. rewrite decide_False by congruence.
    specialize (Hl id p' Ep'). lia.
  - apply Hexpr in Hq. intros id p'. rewrite products_set_products.
    unfold purchased, sold. simpl. rewrite lookup_insert.
    destruct (decide (pid = id)) as [->|Hne].
    + intros [= <-]. rewrite decide_True by done. simpl.
      specialize (Hl id p Ep). unfold purchased, sold in Hl. lia.
    + intros Ep'. rewrite decide_False by congruence.
      specialize (Hl id p' Ep'). unfold purchased, sold in Hl. lia.
Qed.

Lemma int4_add_plus (x q q' : Z) : int4_add q x = Ok q' → q' = q + x.
Proof. intros Hq. by ok_inv. Qed.

Lemma int4_sub_minus (x q q' : Z) : int4_sub q x = Ok q' → q' = q + - x.
Proof. intros Hq. ok_inv. lia. Qed.

(** What a row event adds to [purchased id - sold id]. *)
Definition purchase_effect (ev : trigger_event Purchase.t) (id : uuid) : Z :=
  match ev with
  | TG_INSERT NEW => share Purchase.quantity (λ pu, Purchase.product_id pu = id) NEW
  | TG_UPDATE OLD NEW =>
      share Purchase.quantity (λ pu, Purchase.product_id pu = id) NEW
      - share Purchase.quantity (λ pu, Purchase.product_id pu = id) OLD
  | TG_DELETE OLD =>
      - share Purchase.quantity (λ pu, Purchase.product_id pu = id) OLD
  end.

Definition sale_effect (ev : trigger_event InvoiceItem.t) (id : uuid) : Z :=
  match ev with
  | TG_INSERT NEW =>
      - share InvoiceItem.quantity (λ ii, InvoiceItem.product_id ii = id) NEW
  | TG_UPDATE OLD NEW =>
      share InvoiceItem.quantity (λ ii, InvoiceItem.product_id ii = id) OLD
      - share InvoiceItem.quantity (λ ii, InvoiceItem.product_id ii = id) NEW
  | TG_DELETE OLD =>
      share InvoiceItem.quantity (λ ii, InvoiceItem.product_id ii = id) OLD
  end.

(** A purchase update keeps its product. *)
Definition same_product (ev : trigger_event Purchase.t) : Prop :=
  match ev with
  | TG_UPDATE OLD NEW => Purchase.product_id OLD = Purchase.product_id NEW
  | _ => True
  end.

Lemma update_stock_on_purchase_settles (ev : trigger_event Purchase.t)
    (owed : uuid → Z) (s s' : db) :
  same_product ev →
  update_stock_on_purchase ev s = Ok s' →
  ledger_up_to owed s →
  ledger_up_to (λ id, owed id - purchase_effect ev id) s'.
Proof.
  intros Hsame Hs' Hl. destruct ev as [NEW|OLD NEW|OLD]; simpl in *.
  - eapply ledger_up_to_ext;
      [| | | |eapply ledger_up_to_stock_update;
               [apply (int4_add_plus (Purchase.quantity NEW))|exact Hs'|exact Hl]];
      try done.
    intros id. unfold share. simpl. repeat case_decide; congruence || lia.
  - eapply ledger_up_to_ext;
      [| | | |eapply (ledger_up_to_stock_update _ _
                        (Purchase.quantity NEW - Purchase.quantity OLD));
               [|exact Hs'|exact Hl]];
      try done.
    + intros id. unfold share. simpl. rewrite Hsame.
      repeat case_decide; congruence || lia.
    + intros q q' Hq. simpl in Hq. ok_inv. lia.
  - eapply ledger_up_to_ext;
      [| | | |eapply ledger_up_to_stock_update;
               [apply (int4_sub_minus (Purchase.quantity OLD))|exact Hs'|exact Hl]];
      try done.
    intros id. unfold share. simpl. repeat case_decide; congruence || lia.
Qed.

Lemma update_stock_on_sale_settles (ev : trigger_event InvoiceItem.t)
    (owed : uuid → Z) (s s' : db) :
  update_stock_on_sale ev s = Ok s' →
  ledger_up_to owed s →
  ledger_up_to (λ id, owed id - sale_effect ev id) s'.
Proof.
  intros Hs' Hl. destruct ev as [NEW|OLD NEW|OLD]; simpl in *.
  - eapply ledger_up_to_ext;
      [| | | |eapply ledger_up_to_stock_update;
               [apply (int4_sub_minus (InvoiceItem.quantity NEW))
               |exact Hs'|exact Hl]];
      try done.
    intros id. unfold share. simpl. repeat case_decide; congruence || lia.
  - destruct (decide (InvoiceItem.product_id OLD ≠ InvoiceItem.product_id NEW))
      as [Hne|Heq].
    + ok_inv.
      match goal with
      | E1 : update_products_stock_quantity _ _ s = Ok ?t,
        E2 : update_products_stock_quantity _ _ ?t = Ok s' |- _ =>
          pose proof (ledger_up_to_stock_update _ _ _ _ _ _
            (int4_add_plus (InvoiceItem.quantity OLD)) E1 Hl) as Hl1;
          pose proof (ledger_up_to_stock_update _ _ _ _ _ _
            (int4_sub_minus (InvoiceItem.quantity NEW)) E2 Hl1) as Hl2
      end.
      eapply ledger_up_to_ext; [| | | |exact Hl2]; try done.
      intros id. unfold share. simpl. repeat case_decide; congruence || lia.
    + apply dec_stable in Heq.
      eapply ledger_up_to_ext;
        [| | | |eapply (ledger_up_to_stock_update _ _
                          (InvoiceItem.quantity OLD - InvoiceItem.quantity NEW));
                 [|exact Hs'|exact Hl]];
        try done.
      * intros id. unfold share. simpl. rewrite Heq.
        repeat case_decide; congruence || lia.
      * intros q q' Hq. simpl in Hq. ok_inv. lia.
  - eapply ledger_up_to_ext;
      [| | | |eapply ledger_up_to_stock_update;
               [apply (int4_add_plus (InvoiceItem.quantity OLD))
               |exact Hs'|exact Hl]];
      try done.
    intros id. unfold share. simpl. repeat case_decide; congruence || lia.
Qed.

Lemma invoice_items_after_row_settles (ev : trigger_event InvoiceItem.t)
    (owed : uuid → Z) (s s' : db) :
  invoice_items_after_row ev s = Ok s' →
  ledger_up_to owed s →
  ledger_up_to (λ id, owed id - sale_effect ev id) s'.
Proof.
  unfold invoice_items_after_row. intros Hs' Hl.
  eapply update_stock_on_sale_settles; [exact Hs'|].
  destruct (recalculate_invoice_total_frame ev s) as (Hp & Hpu & Hii).
  by eapply ledger_up_to_ext; [| | | |exact Hl].
Qed.

(** What a write to a table leaves owed to the stocks. *)
Lemma purchases_inserted (id : uuid) (NEW : Purchase.t) (s : db) :
  purchases s !! id = None → stock_ledger s →
  ledger_up_to (purchase_effect (TG_INSERT NEW))
    (set_purchases (<[id:=NEW]> (purchases s)) s).
Proof.
  intros Hid Hl pid p Ep. specialize (Hl pid p Ep).
  unfold purchased, sold in *. simpl in *.
  rewrite sum_rows_insert by done. lia.
Qed.

Lemma purchases_updated (id : uuid) (OLD NEW : Purchase.t) (s : db) :
  purchases s !! id = Some OLD → stock_ledger s →
  ledger_up_to (purchase_effect (TG_UPDATE OLD NEW))
    (set_purchases (<[id:=NEW]> (purchases s)) s).
Proof.
  intros Hid Hl pid p Ep. specialize (Hl pid p Ep).
  unfold purchased, sold in *. simpl in *.
  rewrite (sum_rows_replace _ _ _ id OLD) by done. lia.
Qed.

Lemma purchases_deleted (id : uuid) (OLD : Purchase.t) (s : db) :
  purchases s !! id = Some OLD → stock_ledger s →
  ledger_up_to (purchase_effect (TG_DELETE OLD))
    (set_purchases (delete id (purchases s)) s).
Proof.
  intros Hid Hl pid p Ep. specialize (Hl pid p Ep).
  unfold purchased, sold in *. simpl in *.
  rewrite (sum_rows_delete _ _ _ id OLD) by done. lia.
Qed.

Lemma invoice_items_inserted (id : uuid) (NEW : InvoiceItem.t) (s : db) :
  invoice_items s !! id = None → stock_ledger s →
  ledger_up_to (sale_effect (TG_INSERT NEW))
    (set_invoice_items (<[id:=NEW]> (invoice_items s)) s).
Proof.
  intros Hid Hl pid p Ep. specialize (Hl pid p Ep).
  unfold purchased, sold in *. simpl in *.
  rewrite sum_rows_insert by done. lia.
Qed.

Lemma invoice_items_updated (id : uuid) (OLD NEW : InvoiceItem.t) (s : db) :
  invoice_items s !! id = Some OLD → stock_ledger s →
  ledger_up_to (sale_effect (TG_UPDATE OLD NEW))
    (set_invoice_items (<[id:=NEW]> (invoice_items s)) s).
Proof.
  intros Hid Hl pid p Ep. specialize (Hl pid p Ep).
  unfold purchased, sold in *. simpl in *.
  rewrite (sum_rows_replace _ _ _ id OLD) by done. lia.
Qed.

Lemma invoice_items_deleted (id : uuid) (OLD : InvoiceItem.t) (s : db) :
  invoice_items s !! id = Some OLD → stock_ledger s →
  ledger_up_to (sale_effect (TG_DELETE OLD))
    (set_invoice_items (delete id (invoice_items s)) s).
Proof.
  intros Hid Hl pid p Ep. specialize (Hl pid p Ep).
  unfold purchased, sold in *. simpl in *.
  rewrite (sum_rows_delete _ _ _ id OLD) by done. lia.
Qed.

Lemma ledger_settled (effect : uuid → Z) (s : db) :
  ledger_up_to (λ id, effect id - effect id) s → stock_ledger s.
Proof.
  intros Hl. apply ledger_up_to_zero.
  eapply ledger_up_to_ext; [| | | |exact Hl]; try done. intros id. lia.
Qed.

(** The cascade settles, item by item, what the removed items owe. *)
Lemma cascade_settles (l : list InvoiceItem.t) :
  ∀ (owed : uuid → Z) (s s' : db),
    for_each (λ OLD, invoice_items_after_row (TG_DELETE OLD)) l s = Ok s' →
    ledger_up_to owed s →
    ledger_up_to
      (λ id, owed id
             - sumZ InvoiceItem.quantity
                 (filter (λ ii, InvoiceItem.product_id ii = id) l)) s'.
Proof.
  induction l as [|x l IH]; intros owed s s' Hs' Hl; cbn [for_each] in Hs';
    ok_inv.
  - eapply ledger_up_to_ext; [| | | |exact Hl]; try done.
    intros id. simpl. lia.
  - cbv beta in *.
    match goal with
    | E1 : invoice_items_after_row _ s = Ok ?t,
      E2 : for_each _ l ?t = Ok s' |- _ =>
        pose proof (IH _ _ _ E2
          (invoice_items_after_row_settles _ _ _ _ E1 Hl)) as Hl'
    end.
    eapply ledger_up_to_ext; [| | | |exact Hl']; try done.
    intros id. rewrite sum_rows_cons. simpl. lia.
Qed.

Lemma invoice_removed (id : uuid) (s : db) :
  stock_ledger s →
  ledger_up_to (λ pid, returned id pid s)
    (set_invoice_items
       (filter (λ kv, InvoiceItem.invoice_id kv.2 ≠ id) (invoice_items s))
       (set_invoices (delete id (invoices s)) s)).
Proof.
  intros Hl pid p Ep. specialize (Hl pid p Ep).
  unfold purchased, sold, returned, cascaded_items in *. simpl in *.
  rewrite (sum_rows_split _ _ (λ kv, InvoiceItem.invoice_id kv.2 = id)
             (invoice_items s)) in Hl.
  lia.
Qed.

(** The purchase update that names another product: the one mutation that
    does not keep the ledger. *)
Definition moves_purchase (m : mutation) (s : db) : Prop :=
  match m with
  | UpdatePurchase id NEW =>
      ∃ OLD, purchases s !! id = Some OLD
             ∧ Purchase.product_id OLD ≠ Purchase.product_id NEW
  | _ => False
  end.

Lemma run_keeps_stock_ledger (m : mutation) (s s' : db) :
  ¬ moves_purchase m s → run m s = Ok s' →
  stock_ledger s → stock_ledger s'.
Proof.
  intros Hmove Hrun Hl. destruct m as [id NEW|id NEW|id|id NEW|id NEW|id|id|id];
    simpl in Hrun.
  - unfold insert_purchases, purchases_after_row in Hrun. ok_inv.
    match goal with E : bool_decide _ = true |- _ =>
      apply bool_decide_eq_true in E; rename E into Hid end.
    apply (ledger_settled (purchase_effect (TG_INSERT NEW))).
    eapply (update_stock_on_purchase_settles (TG_INSERT NEW));
      [done|eassumption|]. by apply purchases_inserted.
  - unfold update_purchases, purchases_after_row in Hrun.
    destruct (purchases s !! id) as [OLD|] eqn:Hid; ok_inv; [|done].
    apply (ledger_settled (purchase_effect (TG_UPDATE OLD NEW))).
    eapply (update_stock_on_purchase_settles (TG_UPDATE OLD NEW));
      [|eassumption|by apply purchases_updated].
    simpl. apply dec_stable. intros Hne. apply Hmove. simpl. eauto.
  - unfold delete_purchases, purchases_after_row in Hrun.
    destruct (purchases s !! id) as [OLD|] eqn:Hid; ok_inv; [|done].
    apply (ledger_settled (purchase_effect (TG_DELETE OLD))).
    eapply (update_stock_on_purchase_settles (TG_DELETE OLD));
      [done|eassumption|]. by apply purchases_deleted.
  - unfold insert_invoice_items in Hrun. ok_inv.
    match goal with E : bool_decide _ = true |- _ =>
      apply bool_decide_eq_true in E; rename E into Hid end.
    apply (ledger_settled (sale_effect (TG_INSERT NEW))).
    eapply (invoice_items_after_row_settles (TG_INSERT NEW)); [eassumption|].
    by apply invoice_items_inserted.
  - unfold update_invoice_items in Hrun.
    destruct (invoice_items s !! id) as [OLD|] eqn:Hid; ok_inv; [|done].
    apply (ledger_settled (sale_effect (TG_UPDATE OLD NEW))).
    eapply (invoice_items_after_row_settles (TG_UPDATE OLD NEW));
      [eassumption|].
    by apply invoice_items_updated.
  - unfold delete_invoice_items in Hrun.
    destruct (invoice_items s !! id) as [OLD|] eqn:Hid; ok_inv; [|done].
    apply (ledger_settled (sale_effect (TG_DELETE OLD))).
    eapply (invoice_items_after_row_settles (TG_DELETE OLD)); [eassumption|].
    by apply invoice_items_deleted.
  - unfold delete_invoice_by_id, delete_invoices in Hrun.
    destruct (invoices s !! id) as [inv|] eqn:Hid; ok_inv. simpl.
    apply (ledger_settled (λ pid, returned id pid s)).
    eapply (cascade_settles _ (λ pid, returned id pid s)); [eassumption|].
    by apply invoice_removed.
  - unfold delete_purchase_safely in Hrun.
    destruct (purchases s !! id) as [OLD|] eqn:Hid; ok_inv.
    match goal with b : bool |- _ => destruct b end; ok_inv. simpl.
    match goal with E : delete_purchases _ _ = Ok _ |- _ =>
      unfold delete_purchases, purchases_after_row in E; rewrite Hid in E end.
    apply (ledger_settled (purchase_effect (TG_DELETE OLD))).
    eapply (update_stock_on_purchase_settles (TG_DELETE OLD));
      [done|eassumption|]. by apply purchases_deleted.
Qed.

(** The ledger equation survives every call of the core except a purchase
    update that changes the product reference. *)
Lemma stock_ledger_kept (m : mutation) (s : db) :
  stock_ledger s → ¬ moves_purchase m s → stock_ledger (execute m s).
Proof.
  intros Hl Hmove. unfold execute. destruct (run m s) as [s'|e] eqn:Hrun;
    simpl; [|done]. by eapply run_keeps_stock_ledger.
Qed.

(** A run in which no purchase changes its product. *)
Fixpoint never_moves_purchase (ms : list mutation) (s : db) : Prop :=
  match ms with
  | [] => True
  | m :: ms => ¬ moves_purchase m s ∧ never_moves_purchase ms (execute m s)
  end.

Lemma stock_ledger_kept_all (ms : list mutation) (s : db) :
  stock_ledger s → never_moves_purchase ms s →
  stock_ledger (execute_all ms s).
Proof.
  revert s. induction ms as [|m ms IH]; intros s Hl Hms; [done|].
  destruct Hms as [Hm Hms]. simpl. apply IH; [|done].
  by apply stock_ledger_kept.
Qed.

(** Every purchase update that changes the product and succeeds leaves the
    stock of the old product as it was, and moves the stock of the new one
    by [NEW.quantity - OLD.quantity]. *)
Lemma update_purchases_moved (id : uuid) (OLD NEW : Purchase.t) (s s' : db) :
  purchases s !! id = Some OLD →
  Purchase.product_id OLD ≠ Purchase.product_id NEW →
  update_purchases id NEW s = Ok s' →
  stock_of (Purchase.product_id OLD) s' = stock_of (Purchase.product_id OLD) s
  ∧ ∃ q, stock_of (Purchase.product_id NEW) s = Some q
         ∧ stock_of (Purchase.product_id NEW) s'
           = Some (q - Purchase.quantity OLD + Purchase.quantity NEW).
Proof.
  intros Hid Hne Hrun. unfold update_purchases in Hrun. rewrite Hid in Hrun.
  unfold purchases_after_row, update_stock_on_purchase in Hrun. ok_inv.
  rewrite decide_False in * by congruence.
  match goal with E : purchases_product_id_fkey _ _ = Ok _ |- _ =>
    apply require_is_Some in E as [p Hp]; simpl in Hp end.
  match goal with E : update_products_stock_quantity _ _ _ = Ok _ |- _ =>
    rename E into Hupd end.
  split.
  - apply update_products_stock_quantity_frame in Hupd as (_ & _ & _ & Hfr).
    unfold stock_of. by rewrite Hfr.
  - apply update_products_stock_quantity_Ok in Hupd
      as [[En _]|(p' & q & Ep' & Hq & _ & _ & ->)]; simpl in *; [congruence|].
    exists (Product.stock_quantity p). unfold stock_of. simpl.
    rewrite Hp, lookup_insert_eq. simplify_eq. ok_inv. done.
Qed.

(** ** Concrete states: the scenarios of the specification *)

#[global] Instance stock_ledger_dec (s : db) : Decision (stock_ledger s).
Proof.
  unfold stock_ledger. apply map_Forall_dec. intros id p. cbv beta. apply _.
Defined.

#[global] Instance stock_nonnegative_dec (s : db) :
  Decision (stock_nonnegative s).
Proof.
  unfold stock_nonnegative. apply map_Forall_dec. intros id p. cbv beta.
  apply _.
Defined.

Module Scenario.

Definition urea : uuid := 1%N.
Definition dap : uuid := 2%N.
Definition inv1 : uuid := 10%N.
Definition inv2 : uuid := 11%N.

(** Two products without stock and two invoices without items. *)
Definition s0 : db :=
  mkdb {[ urea := Product.mk "Urea" 0 (100 # 1) (5 # 100);
          dap := Product.mk "DAP" 0 (250 # 1) (12 # 100) ]}
       ∅
       {[ inv1 := Invoice.mk "INV-001" 20 0%Q;
          inv2 := Invoice.mk "INV-002" 21 0%Q ]}
       ∅.

Definition bought10 : Purchase.t := Purchase.mk urea 19 (Some "B-7") 10.
Definition sold4 : InvoiceItem.t :=
  InvoiceItem.mk inv1 urea 4 (100 # 1) (5 # 100).

(** Scenario A: purchase 10 of urea, then sell 4 on invoice inv1. *)
Definition sA : db :=
  execute_all [InsertPurchase 100%N bought10; InsertInvoiceItem 200%N sold4] s0.

(** After the purchase alone. *)
Definition sP : db := execute (InsertPurchase 100%N bought10) s0.

(** Scenario D: items of quantity 3 and 5 on a product at stock 2. *)
Definition sD : db :=
  execute_all
    [InsertPurchase 100%N bought10;
     InsertInvoiceItem 200%N (InvoiceItem.mk inv1 urea 3 (100 # 1) (5 # 100));
     InsertInvoiceItem 201%N (InvoiceItem.mk inv1 urea 5 (100 # 1) (5 # 100))]
    s0.

(** A product whose stock the cascade would push past the integer range:
    buy 2147483647, sell them all on inv1, buy one more. *)
Definition sFull : db :=
  execute_all
    [InsertPurchase 100%N (Purchase.mk urea 19 None int4_max);
     InsertInvoiceItem 200%N
       (InvoiceItem.mk inv1 urea int4_max (100 # 1) (5 # 100));
     InsertPurchase 101%N (Purchase.mk urea 20 None 1)]
    s0.

End Scenario.

Lemma s0_valid : valid Scenario.s0.
Proof. apply (bool_decide_unpack _). vm_compute. constructor. Qed.

Lemma sP_valid : valid Scenario.sP.
Proof. apply (bool_decide_unpack _). vm_compute. constructor. Qed.

Lemma sFull_valid : valid Scenario.sFull.
Proof. apply (bool_decide_unpack _). vm_compute. constructor. Qed.

Lemma reachable_execute_all (ms : list mutation) (s0 : db) :
  valid s0 → reachable (execute_all ms s0).
Proof. intros Hv. by exists s0, ms. Qed.

(** Scenario A: stock 0, buy 10, sell 4: stock 6 and the invoice totals
    4 * 100 * 1.05. *)
Example scenario_A :
  stock_of Scenario.urea Scenario.sA = Some 6
  ∧ ∃ t, total_of Scenario.inv1 Scenario.sA = Some t
         ∧ (t == inject_Z 4 * (100 # 1) * (1 + (5 # 100)))%Q.
Proof.
  split; [by vm_compute|]. eexists. split; [by vm_compute|]. by vm_compute.
Qed.

(** Scenario B: deleting the item returns the stock and empties the total. *)
Example scenario_B :
  stock_of Scenario.urea (execute (DeleteInvoiceItem 200%N) Scenario.sA)
  = Some 10
  ∧ total_of Scenario.inv1 (execute (DeleteInvoiceItem 200%N) Scenario.sA)
    = Some 0%Q.
Proof. by vm_compute. Qed.

(** Scenario C: the purchase of 10 cannot be deleted at stock 6. *)
Example scenario_C :
  run (DeletePurchaseSafely 100%N) Scenario.sA
  = Err negative_stock_on_purchase_delete
  ∧ stock_of Scenario.urea (execute (DeletePurchaseSafely 100%N) Scenario.sA)
    = Some 6.
Proof. by vm_compute. Qed.

(** Scenario D: deleting the invoice returns 3 + 5 to a stock of 2. *)
Example scenario_D :
  stock_of Scenario.urea Scenario.sD = Some 2
  ∧ stock_of Scenario.urea (execute (DeleteInvoiceById Scenario.inv1) Scenario.sD)
    = Some 10
  ∧ invoices (execute (DeleteInvoiceById Scenario.inv1) Scenario.sD)
    !! Scenario.inv1 = None
  ∧ invoice_items (execute (DeleteInvoiceById Scenario.inv1) Scenario.sD) = ∅.
Proof. by vm_compute. Qed.

(** Decide a closed, decidable proposition by evaluation. *)
Ltac by_evaluation := apply (bool_decide_unpack _); vm_compute; constructor.

(** ** Moving a purchase to another product *)

Module Move.
Import Scenario.

(** The purchase of 10 urea, rewritten to name DAP. *)
Definition moved10 : Purchase.t := Purchase.mk dap 19 (Some "B-7") 10.

Definition sMoved : db := execute (UpdatePurchase 100%N moved10) sP.

End Move.

(** C2, at an input where the code departs from it. Purchase 100 holds 10
    of urea (stock 10; DAP has stock 0). Updating the row to name DAP
    succeeds, yet urea keeps its 10 and DAP stays at 0 - 10 + 10 = 0: the
    trigger writes [stock_quantity - OLD.quantity + NEW.quantity] to the new
    product only. *)
Theorem purchase_update_ignores_old_product :
  purchases Scenario.sP !! 100%N = Some Scenario.bought10
  ∧ stock_of Scenario.urea Scenario.sP = Some 10
  ∧ stock_of Scenario.dap Scenario.sP = Some 0
  ∧ Purchase.product_id Scenario.bought10 ≠ Purchase.product_id Move.moved10
  ∧ ∃ s', run (UpdatePurchase 100%N Move.moved10) Scenario.sP = Ok s'
      ∧ purchases s' !! 100%N = Some Move.moved10
      ∧ stock_of Scenario.urea s' = Some 10
      ∧ stock_of Scenario.dap s' = Some 0.
Proof.
  split; [by vm_compute|]. split; [by vm_compute|]. split; [by vm_compute|].
  split; [by vm_compute|]. eexists. split; [by vm_compute|]. by vm_compute.
Qed.

(** C1, at an input where the code departs from it. The state after the
    purchase of 10 urea is well formed and satisfies the ledger equation;
    after the update that moves the purchase to DAP, urea has stock 10 with
    nothing bought and DAP stock 0 with 10 bought. *)
Theorem purchase_update_breaks_stock_ledger :
  valid Scenario.sP
  ∧ stock_ledger Scenario.sP
  ∧ run (UpdatePurchase 100%N Move.moved10) Scenario.sP = Ok Move.sMoved
  ∧ stock_of Scenario.urea Move.sMoved = Some 10
  ∧ purchased Scenario.urea Move.sMoved - sold Scenario.urea Move.sMoved = 0
  ∧ stock_of Scenario.dap Move.sMoved = Some 0
  ∧ purchased Scenario.dap Move.sMoved - sold Scenario.dap Move.sMoved = 10
  ∧ ¬ stock_ledger Move.sMoved.
Proof.
  split; [exact sP_valid|]. split; [by_evaluation|].
  split; [by vm_compute|]. split; [by vm_compute|]. split; [by vm_compute|].
  split; [by vm_compute|]. split; [by vm_compute|].
  apply (bool_decide_eq_false _). by vm_compute.
Qed.

(** ** Statements the code refutes, at concrete states *)

(** C6 refuted. In the reachable state of Scenario A (stock 6) an item of
    quantity 7 is refused by products_stock_quantity_check; and no reachable
    state admits an insert that exceeds the stock and ends with a negative
    stock_quantity. *)
Lemma oversold_insert_never_succeeds :
  (reachable Scenario.sA
   ∧ stock_of Scenario.urea Scenario.sA = Some 6
   ∧ run (InsertInvoiceItem 201%N
            (InvoiceItem.mk Scenario.inv1 Scenario.urea 7 (100 # 1) (5 # 100)))
         Scenario.sA
     = Err (check_violation "products_stock_quantity_check"))
  ∧ ¬ ∃ s id NEW p s',
        reachable s
        ∧ products s !! InvoiceItem.product_id NEW = Some p
        ∧ Product.stock_quantity p < InvoiceItem.quantity NEW
        ∧ run (InsertInvoiceItem id NEW) s = Ok s'
        ∧ ∃ p', products s' !! InvoiceItem.product_id NEW = Some p'
                ∧ Product.stock_quantity p' < 0.
Proof.
  split.
  - split; [apply reachable_execute_all, s0_valid|]. split; by vm_compute.
  - intros (s & id & NEW & p & s' & _ & Ep & Hlt & Hrun & _).
    simpl in Hrun.
    apply (insert_invoice_items_needs_stock _ _ _ _ _ Ep) in Hrun. lia.
Qed.

(** C5 refuted. In a reachable, well-formed state whose product holds stock
    1 while invoice inv1 carries an item of quantity 2147483647, the invoice
    exists and [delete_invoice_by_id] neither reports NotFound nor deletes
    it: the stock update leaves the integer range and the call is undone. *)
Lemma delete_invoice_by_id_out_of_range :
  reachable Scenario.sFull
  ∧ valid Scenario.sFull
  ∧ ¬ restorable Scenario.inv1 Scenario.sFull
  ∧ is_Some (invoices Scenario.sFull !! Scenario.inv1)
  ∧ stock_of Scenario.urea Scenario.sFull = Some 1
  ∧ returned Scenario.inv1 Scenario.urea Scenario.sFull = 2147483647
  ∧ delete_invoice_by_id Scenario.inv1 Scenario.sFull
    = Err integer_out_of_range
  ∧ execute (DeleteInvoiceById Scenario.inv1) Scenario.sFull = Scenario.sFull.
Proof.
  split; [apply reachable_execute_all, s0_valid|].
  split; [exact sFull_valid|].
  split; [apply (bool_decide_eq_false _); by vm_compute|].
  split; [by_evaluation|].
  split; [by vm_compute|]. split; [by vm_compute|]. split; by vm_compute.
Qed.

(** ** The theorems applied to the scenarios *)

(** C7 applied to Scenario A followed by an oversold insert and an unsafe
    purchase deletion. *)
Lemma stock_quantity_never_negative_witness :
  stock_nonnegative
    (execute_all
       [InsertPurchase 100%N Scenario.bought10;
        InsertInvoiceItem 200%N Scenario.sold4;
        InsertInvoiceItem 201%N
          (InvoiceItem.mk Scenario.inv1 Scenario.urea 7 (100 # 1) (5 # 100));
        DeletePurchase 100%N]
       Scenario.s0).
Proof.
  apply stock_quantity_never_negative. by_evaluation.
Defined.

(** C6 (amended) applied to Scenario A and an item of quantity 7. *)
Lemma oversold_insert_is_rejected_witness :
  insert_invoice_items 201%N
    (InvoiceItem.mk Scenario.inv1 Scenario.urea 7 (100 # 1) (5 # 100))
    Scenario.sA
  = Err (check_violation "products_stock_quantity_check").
Proof.
  exact (proj1 (proj2 (proj2
    (oversold_insert_is_rejected Scenario.sA 201%N
       (InvoiceItem.mk Scenario.inv1 Scenario.urea 7 (100 # 1) (5 # 100))
       (Product.mk "Urea" 6 (100 # 1) (5 # 100))
       ltac:(by vm_compute) ltac:(by vm_compute)))
    ltac:(by_evaluation) ltac:(by vm_compute) ltac:(by vm_compute)
    ltac:(by vm_compute) ltac:(by_evaluation))).
Defined.

(** C4 applied: purchase 100 cannot be deleted in Scenario A (stock 6), can
    be deleted right after it was made (stock 10), and purchase 999 does not
    exist. *)
Lemma delete_purchase_safely_spec_witness :
  delete_purchase_safely 999%N Scenario.sA = Err (purchase_not_found 999%N)
  ∧ delete_purchase_safely 100%N Scenario.sA
    = Err negative_stock_on_purchase_delete
  ∧ stock_of Scenario.urea (execute (DeletePurchaseSafely 100%N) Scenario.sP)
    = Some 0.
Proof.
  split; [|split].
  - apply (delete_purchase_safely_spec Scenario.sA 999%N);
      [by_evaluation|by vm_compute].
  - destruct (proj2 (delete_purchase_safely_spec Scenario.sA 100%N
                       ltac:(by_evaluation))
                    Scenario.bought10 ltac:(by vm_compute))
      as (p & Ep & Hneg & _).
    apply Hneg. vm_compute in Ep. injection Ep as <-. by vm_compute.
  - destruct (proj2 (delete_purchase_safely_spec Scenario.sP 100%N
                       ltac:(by_evaluation))
                    Scenario.bought10 ltac:(by vm_compute))
      as (p & Ep & _ & Hpos).
    vm_compute in Ep. injection Ep as <-.
    destruct Hpos as (_ & He & _ & Hs); [by vm_compute|].
    rewrite He. exact Hs.
Defined.

(** C3 applied to the insert of Scenario A: one line of 4 at 100 with 5%
    tax totals 420. *)
Lemma invoice_total_recomputed_witness :
  total_of Scenario.inv1 Scenario.sA
  = Some (spec_total Scenario.inv1 Scenario.sA)
  ∧ (spec_total Scenario.inv1 Scenario.sA == 420 # 1)%Q.
Proof.
  split; [|by vm_compute].
  apply (invoice_total_recomputed
           (InsertInvoiceItem 200%N Scenario.sold4) Scenario.sP).
  - by_evaluation.
  - by vm_compute.
  - apply list_elem_of_here.
Defined.

(** C5 (amended) applied to Scenario D. *)
Lemma delete_invoice_by_id_spec_witness :
  ∃ s', delete_invoice_by_id Scenario.inv1 Scenario.sD
        = Ok ("Invoice and associated items deleted successfully.", s')
    ∧ stock_of Scenario.urea s' = Some 10.
Proof.
  destruct (proj1 (proj2 (delete_invoice_by_id_spec Scenario.sD Scenario.inv1
                            ltac:(by_evaluation)))
                  ltac:(by_evaluation) ltac:(by_evaluation))
    as (s' & Hr & _ & _ & _ & _ & Hp).
  exists s'. split; [exact Hr|]. unfold stock_of. rewrite Hp. by vm_compute.
Defined.

(** ** The reports on Scenario A, under the bytewise collation *)

Lemma string_leb_total (a b : string) :
  String.leb a b = false → String.leb b a = true.
Proof. destruct (String.leb_total a b); congruence. Qed.

(** The "C" collation: strings compare byte by byte. *)
Definition bytewise : Collation :=
  {| text_le := String.leb; text_le_total := string_leb_total |}.

(** Scenario E: with type 'sale' over a range that holds the purchase and
    the sale of Scenario A, only the sale row comes back, its
    quantity_change negative. *)
Example scenario_E :
  @get_combined_report bytewise Scenario.sA 0 30 "sale" 10 0
  = Ok [ReportRow.mk 200%N 20 "Sale" (Some "INV-001") "Urea" (-4)]
  ∧ @get_combined_report bytewise Scenario.sA 0 30 "all" 10 0
    = Ok [ReportRow.mk 200%N 20 "Sale" (Some "INV-001") "Urea" (-4);
          ReportRow.mk 100%N 19 "Purchase" (Some "B-7") "Urea" 10]
  ∧ get_combined_report_count Scenario.sA 0 30 "all" = Ok 2
  ∧ @get_combined_report bytewise Scenario.sA 0 30 "all" (-1) 0
    = Err limit_must_not_be_negative.
Proof. by vm_compute. Qed.

(** C8 applied to Scenario A with type 'sale'. *)
Lemma get_combined_report_spec_witness :
  ∃ page,
    @get_combined_report bytewise Scenario.sA 0 30 "sale" 10 0 = Ok page
    ∧ Sorted (@comes_before bytewise) page
    ∧ Forall (is_sale_row Scenario.sA) page.
Proof.
  destruct (@get_combined_report_spec bytewise Scenario.sA 0 30 "sale" 10 0)
    as [Hreturns Hspec].
  destruct Hreturns as [page Hpage]; [by_evaluation|lia|lia|].
  exists page. destruct (Hspec page Hpage) as (Hsorted & _ & Hsale & _ & _).
  split; [exact Hpage|]. split; [exact Hsorted|]. by apply Hsale.
Defined.


(** C10 (amended) applied to the second page of size one of Scenario A,
    whose two rows differ in date. *)
Lemma get_combined_report_window_of_export_witness :
  ∃ page full,
    @get_combined_report_may_return bytewise Scenario.sA 0 30 "all" 1 1 page
    ∧ @export_combined_report_may_return bytewise Scenario.sA 0 30 "all" full
    ∧ page = [ReportRow.mk 100%N 19 "Purchase" (Some "B-7") "Urea" 10]
    ∧ project <$> page = take 1 (drop 1 full).
Proof.
  exists [ReportRow.mk 100%N 19 "Purchase" (Some "B-7") "Urea" 10],
         [ExportRow.mk 20 "Sale" (Some "INV-001") "Urea" (-4);
          ExportRow.mk 19 "Purchase" (Some "B-7") "Urea" 10].
  assert (@get_combined_report_may_return bytewise Scenario.sA 0 30 "all" 1 1
            [ReportRow.mk 100%N 19 "Purchase" (Some "B-7") "Urea" 10])
    as Hpage.
  { split; [lia|]. split; [lia|].
    exists [ReportRow.mk 200%N 20 "Sale" (Some "INV-001") "Urea" (-4);
            ReportRow.mk 100%N 19 "Purchase" (Some "B-7") "Urea" 10],
           [ReportRow.mk 200%N 20 "Sale" (Some "INV-001") "Urea" (-4);
            ReportRow.mk 100%N 19 "Purchase" (Some "B-7") "Urea" 10].
    split; [by vm_compute|]. split; [|done].
    split; [done|]. repeat constructor. }
  assert (@export_combined_report_may_return bytewise Scenario.sA 0 30 "all"
            [ExportRow.mk 20 "Sale" (Some "INV-001") "Urea" (-4);
             ExportRow.mk 19 "Purchase" (Some "B-7") "Urea" 10]) as Hfull.
  { exists [ExportRow.mk 20 "Sale" (Some "INV-001") "Urea" (-4);
            ExportRow.mk 19 "Purchase" (Some "B-7") "Urea" 10].
    split; [by vm_compute|]. split; [done|]. repeat constructor. }
  split; [exact Hpage|]. split; [exact Hfull|]. split; [done|].
  apply (proj2 (@get_combined_report_window_of_export bytewise Scenario.sA
                  0 30 "all" 1 1 _ Hpage)); [|exact Hfull].
  intros ct r1 r2 Hct Hr1 Hr2 H12 H21. vm_compute in Hct.
  injection Hct as <-.
  apply elem_of_cons in Hr1 as [->|Hr1], Hr2 as [->|Hr2]; try done;
    repeat match goal with
    | Hr : _ ∈ [_] |- _ => apply list_elem_of_singleton in Hr as ->
    end; try done; by vm_compute in H12, H21.
Defined.

(** ** Rows that tie: where the pages do not tile *)

Module Ties.
Import Scenario.

(** Two purchases of urea on the same day. *)
Definition sT : db :=
  execute_all
    [InsertPurchase 100%N (Purchase.mk urea 19 (Some "B-7") 10);
     InsertPurchase 101%N (Purchase.mk urea 19 (Some "B-8") 5)]
    s0.

Definition r100 : ReportRow.t :=
  ReportRow.mk 100%N 19 "Purchase" (Some "B-7") "Urea" 10.
Definition r101 : ReportRow.t :=
  ReportRow.mk 101%N 19 "Purchase" (Some "B-8") "Urea" 5.

End Ties.

(** C10, at an input where the code departs from it. The two purchases of
    [Ties.sT] tie on date and product name, so both orders of their rows
    are sorted. The store may answer the page at offset 0 from one order
    and the page at offset 1 from the other: both pages are then the row
    of purchase 100. The page at offset 1 is not the window of the export,
    and the two pages together are not the rows of the export in any
    order: purchase 100 comes twice and purchase 101 is missing. *)
Lemma pages_need_not_tile :
  ∃ page0 page1 full,
    @get_combined_report_may_return bytewise Ties.sT 0 30 "all" 1 0 page0
    ∧ @get_combined_report_may_return bytewise Ties.sT 0 30 "all" 1 1 page1
    ∧ @export_combined_report_may_return bytewise Ties.sT 0 30 "all" full
    ∧ project <$> page1 ≠ take 1 (drop 1 full)
    ∧ ¬ (project <$> (page0 ++ page1) ≡ₚ full).
Proof.
  exists [Ties.r100], [Ties.r100], [project Ties.r100; project Ties.r101].
  split; [|split; [|split; [|split]]].
  - split; [lia|]. split; [lia|].
    eexists _, [Ties.r100; Ties.r101].
    split; [vm_compute; reflexivity|]. split; [|done].
    split; [solve [reflexivity|apply perm_swap]|]. repeat constructor.
  - split; [lia|]. split; [lia|].
    eexists _, [Ties.r101; Ties.r100].
    split; [vm_compute; reflexivity|]. split; [|done].
    split; [solve [reflexivity|apply perm_swap]|]. repeat constructor.
  - eexists. split; [vm_compute; reflexivity|].
    split; [solve [reflexivity|apply perm_swap]|]. repeat constructor.
  - by vm_compute.
  - intros Hperm.
    assert (project Ties.r101 ∈ project <$> ([Ties.r100] ++ [Ties.r100]))
      as Hin.
    { rewrite Hperm. apply list_elem_of_further, list_elem_of_here. }
    vm_compute in Hin.
    apply elem_of_cons in Hin as [Hin|Hin]; [done|].
    apply list_elem_of_singleton in Hin. done.
Qed.
(** * Further properties of the core *)

(** ** The constraints of the schema and the ledger, over whole runs *)

(** X1. The schema's constraints survive every sequence of calls. Started in
    a state where every product, purchase and invoice item satisfies its
    column types and CHECK constraints and every product_id and invoice_id
    names an existing row, any sequence of calls of the core, failed calls
    included, ends in such a state: no stock or quantity leaves its range
    and no purchase or invoice item is left pointing at a deleted row. *)
Theorem schema_constraints_survive (ms : list mutation) (s : db) :
  valid s → valid (execute_all ms s).
Proof.
  intros Hv. apply reachable_valid. by apply reachable_execute_all.
Qed.

Lemma schema_constraints_survive_witness :
  valid
    (execute_all
       [InsertPurchase 100%N Scenario.bought10;
        InsertInvoiceItem 200%N Scenario.sold4;
        DeletePurchaseSafely 100%N;
        DeleteInvoiceById Scenario.inv1;
        UpdatePurchase 100%N Move.moved10]
       Scenario.s0).
Proof. apply schema_constraints_survive. by_evaluation. Defined.

(** X2. The stock ledger survives every sequence of calls in which no
    purchase update changes the product of its row: if every product's
    stock equals its purchases minus its sales before, it does so after. *)
Theorem stock_ledger_survives (ms : list mutation) (s : db) :
  stock_ledger s → never_moves_purchase ms s →
  stock_ledger (execute_all ms s).
Proof.
  revert s. induction ms as [|m ms IH]; intros s Hl Hms; [done|].
  destruct Hms as [Hm Hms]. simpl. apply IH; [|done].
  by apply stock_ledger_kept.
Qed.

Lemma stock_ledger_survives_witness :
  stock_ledger
    (execute_all
       [InsertPurchase 100%N Scenario.bought10;
        InsertInvoiceItem 200%N Scenario.sold4;
        UpdatePurchase 100%N (Purchase.mk Scenario.urea 19 None 12);
        UpdateInvoiceItem 200%N
          (InvoiceItem.mk Scenario.inv2 Scenario.dap 1 (250 # 1) (12 # 100));
        DeleteInvoiceById Scenario.inv1]
       Scenario.s0).
Proof.
  apply stock_ledger_survives; [by_evaluation|].
  simpl. split_and!; try tauto.
  intros (OLD & E & Hne). vm_compute in E. injection E as <-.
  by apply Hne.
Defined.

(** ** What a statement does to each stock *)

Lemma fmap_plus_zero (o : option Z) : (λ q, q + 0) <$> o = o.
Proof. destruct o; simpl; [f_equal; lia|done]. Qed.

(** [stock_quantity := stock_quantity + d] on product [pid], seen from every
    product. *)
Lemma update_products_stock_quantity_stock (expr : Z → result Z) (pid : uuid)
    (d : Z) (s s' : db) :
  (∀ q q', expr q = Ok q' → q' = q + d) →
  update_products_stock_quantity expr pid s = Ok s' →
  ∀ j, stock_of j s'
       = (λ q, q + if decide (j = pid) then d else 0) <$> stock_of j s.
Proof.
  intros Hexpr Hs' j.
  apply update_products_stock_quantity_Ok in Hs'
    as [[En ->]|(p & q & Ep & Hq & _ & _ & ->)].
  - unfold stock_of. destruct (decide (j = pid)) as [->|Hne].
    + by rewrite En.
    + apply eq_sym, fmap_plus_zero.
  - apply Hexpr in Hq. unfold stock_of. simpl. rewrite lookup_insert.
    destruct (decide (pid = j)) as [->|Hne].
    + rewrite decide_True by done. rewrite Ep. simpl. by rewrite Hq.
    + rewrite decide_False by congruence. apply eq_sym, fmap_plus_zero.
Qed.

(** X3. A successful UPDATE of a purchase changes the stock of one product
    only, the one the new row names, by [NEW.quantity - OLD.quantity],
    whichever product the old row named: when the update moves the purchase
    to another product, the old product keeps the stock it had and the new
    one gains nothing but the difference of the quantities. *)
Theorem update_purchases_stock (id : uuid) (OLD NEW : Purchase.t) (s s' : db) :
  purchases s !! id = Some OLD →
  update_purchases id NEW s = Ok s' →
  ∀ j, stock_of j s'
       = (λ q, q + if decide (j = Purchase.product_id NEW)
                   then Purchase.quantity NEW - Purchase.quantity OLD
                   else 0) <$> stock_of j s.
Proof.
  intros Hid Hrun. unfold update_purchases in Hrun. rewrite Hid in Hrun.
  unfold purchases_after_row, update_stock_on_purchase in Hrun. ok_inv.
  match goal with E : update_products_stock_quantity _ _ _ = Ok _ |- _ =>
    rename E into Hupd end.
  intros j.
  apply (update_products_stock_quantity_stock _ _
           (Purchase.quantity NEW - Purchase.quantity OLD) _ _) with (j := j)
    in Hupd; [exact Hupd|].
  intros q q' Hq. simpl in Hq. ok_inv. lia.
Qed.

Lemma update_purchases_stock_witness :
  stock_of Scenario.urea Move.sMoved = Some 10
  ∧ stock_of Scenario.dap Move.sMoved = Some 0.
Proof.
  pose proof (update_purchases_stock 100%N Scenario.bought10 Move.moved10
                Scenario.sP Move.sMoved ltac:(by vm_compute)
                ltac:(by vm_compute)) as H.
  split; [exact (H Scenario.urea)|exact (H Scenario.dap)].
Defined.

(** X4. A successful UPDATE of an invoice item gives the old quantity back
    to the product the old row names and takes the new quantity from the
    product the new row names; when both name the same product its stock
    moves by [OLD.quantity - NEW.quantity]; no other stock changes. *)
Theorem update_invoice_items_stock
    (id : uuid) (OLD NEW : InvoiceItem.t) (s s' : db) :
  invoice_items s !! id = Some OLD →
  update_invoice_items id NEW s = Ok s' →
  ∀ j, stock_of j s'
       = (λ q, q + (if decide (InvoiceItem.product_id OLD = j)
                    then InvoiceItem.quantity OLD else 0)
                 - (if decide (InvoiceItem.product_id NEW = j)
                    then InvoiceItem.quantity NEW else 0)) <$> stock_of j s.
Proof.
  intros Hid Hrun j. unfold update_invoice_items in Hrun. rewrite Hid in Hrun.
  unfold invoice_items_after_row, update_stock_on_sale in Hrun. ok_inv.
  match goal with E : (if decide (_ ≠ _) then _ else _) = Ok _ |- _ =>
    rename E into Hupd end.
  destruct (decide (InvoiceItem.product_id OLD ≠ InvoiceItem.product_id NEW))
    as [Hne|Heq].
  - ok_inv.
    match goal with
    | E1 : update_products_stock_quantity _ _ _ = Ok ?t,
      E2 : update_products_stock_quantity _ _ ?t = Ok s' |- _ =>
        apply (update_products_stock_quantity_stock _ _ _ _ _
                 (int4_add_plus (InvoiceItem.quantity OLD))) with (j := j)
          in E1;
        apply (update_products_stock_quantity_stock _ _ _ _ _
                 (int4_sub_minus (InvoiceItem.quantity NEW))) with (j := j)
          in E2;
        rewrite E2, E1
    end.
    destruct (recalculate_invoice_total_frame (TG_UPDATE OLD NEW)
      (set_invoice_items (<[id:=NEW]> (invoice_items s)) s)) as (Hp & _).
    unfold stock_of. rewrite Hp. simpl.
    destruct (products s !! j) as [p|]; simpl; [f_equal|done].
    repeat case_decide; congruence || lia.
  - apply dec_stable in Heq.
    apply (update_products_stock_quantity_stock _ _
             (InvoiceItem.quantity OLD - InvoiceItem.quantity NEW) _ _)
      with (j := j) in Hupd.
    + rewrite Hupd.
      destruct (recalculate_invoice_total_frame (TG_UPDATE OLD NEW)
        (set_invoice_items (<[id:=NEW]> (invoice_items s)) s)) as (Hp & _).
      unfold stock_of. rewrite Hp. simpl.
      destruct (products s !! j) as [p|]; simpl; [f_equal|done].
      repeat case_decide; congruence || lia.
    + intros q q' Hq. simpl in Hq. ok_inv. lia.
Qed.

Lemma update_invoice_items_stock_witness :
  stock_of Scenario.urea Scenario.sA = Some 6
  ∧ stock_of Scenario.urea
      (execute (UpdateInvoiceItem 200%N
                  (InvoiceItem.mk Scenario.inv1 Scenario.urea 6
                     (100 # 1) (5 # 100))) Scenario.sA)
    = Some 4.
Proof.
  split; [by vm_compute|].
  exact (update_invoice_items_stock 200%N Scenario.sold4
           (InvoiceItem.mk Scenario.inv1 Scenario.urea 6 (100 # 1) (5 # 100))
           Scenario.sA _ ltac:(by vm_compute) ltac:(by vm_compute)
           Scenario.urea).
Defined.

(** ** The guard of [delete_purchase_safely] *)

(** X5. In a well-formed state the guard of [delete_purchase_safely] changes
    the error, never the outcome: the plain [DELETE FROM purchases] leaves
    the same state, succeeds whenever the guarded deletion does, and where
    the guard raises its exception the plain statement is refused by the
    CHECK constraint products_stock_quantity_check, and conversely. *)
Theorem delete_purchase_safely_guard (s : db) (id : uuid) :
  valid s →
  execute (DeletePurchaseSafely id) s = execute (DeletePurchase id) s
  ∧ (∀ s', run (DeletePurchaseSafely id) s = Ok s' →
           run (DeletePurchase id) s = Ok s')
  ∧ (run (DeletePurchaseSafely id) s = Err negative_stock_on_purchase_delete
     ↔ run (DeletePurchase id) s
       = Err (check_violation "products_stock_quantity_check")).
Proof.
  intros Hv. unfold execute. simpl. unfold delete_purchase_safely.
  destruct (purchases s !! id) as [pu|] eqn:Hid.
  2:{ unfold delete_purchases. rewrite Hid. simpl.
      split; [|split]; [done|by intros ? [=]|split; intros [=]]. }
  destruct (valid_purchase _ _ _ Hv Hid) as (Hq & p & Ep).
  destruct (valid_product _ _ _ Hv Ep) as (Hr & H0 & Ht & Hu).
  rewrite Ep. simpl. unfold int4_sub.
  assert (int4_min ≤ Product.stock_quantity p - Purchase.quantity pu
          ≤ int4_max) as Hd by int4_lia.
  rewrite (bind_Ok_l _ _ _ (int4_in_range _ Hd)). simpl.
  destruct (Z.ltb_spec (Product.stock_quantity p - Purchase.quantity pu) 0)
    as [Hneg|Hpos]; simpl.
  - assert (delete_purchases id s
            = Err (check_violation "products_stock_quantity_check")) as ->.
    { unfold delete_purchases, purchases_after_row, update_stock_on_purchase,
        update_products_stock_quantity. rewrite Hid. simpl. rewrite Ep.
      unfold int4_sub. rewrite (bind_Ok_l _ _ _ (int4_in_range _ Hd)).
      unfold products_checks, products_stock_quantity_check. simpl.
      by rewrite (proj2 (Z.leb_gt _ _)) by lia. }
    simpl. split; [|split]; [done|by intros ? [=]|done].
  - unfold delete_purchases, purchases_after_row, update_stock_on_purchase.
    rewrite Hid.
    erewrite update_products_stock_quantity_success;
      [|exact Ep| |exact Hpos|exact Ht|exact Hu].
    + simpl. split; [|split]; [done|done|split; intros [=]].
    + unfold int4_sub. by apply int4_in_range.
Qed.

Lemma delete_purchase_safely_guard_witness :
  execute (DeletePurchaseSafely 100%N) Scenario.sA = Scenario.sA
  ∧ run (DeletePurchase 100%N) Scenario.sA
    = Err (check_violation "products_stock_quantity_check").
Proof.
  destruct (delete_purchase_safely_guard Scenario.sA 100%N
              ltac:(by_evaluation)) as (He & _ & Herr).
  split.
  - rewrite He. by vm_compute.
  - apply Herr. by vm_compute.
Defined.

(** ** Round trips *)

Lemma db_eq (a b : db) :
  products a = products b → purchases a = purchases b →
  invoices a = invoices b → invoice_items a = invoice_items b → a = b.
Proof. destruct a, b. simpl. by intros -> -> -> ->. Qed.


(** X6. Recording a purchase and deleting it again is a round trip. In a
    well-formed state, a purchase with a fresh id, a positive quantity and
    an existing product, whose quantity the stock can take without leaving
    the integer range, is accepted and raises the stock by its quantity;
    [delete_purchase_safely] on it then succeeds and gives back exactly the
    state before the insert. *)
Theorem purchase_insert_delete_round_trip
    (s : db) (id : uuid) (NEW : Purchase.t) (p : Product.t) :
  valid s →
  purchases s !! id = None →
  products s !! Purchase.product_id NEW = Some p →
  0 < Purchase.quantity NEW →
  Product.stock_quantity p + Purchase.quantity NEW ≤ int4_max →
  ∃ s1, insert_purchases id NEW s = Ok s1
        ∧ stock_of (Purchase.product_id NEW) s1
          = Some (Product.stock_quantity p + Purchase.quantity NEW)
        ∧ delete_purchase_safely id s1
          = Ok ("Purchase record deleted successfully.", s).
Proof.
  intros Hv Hid Ep Hq Hmax.
  destruct (valid_product _ _ _ Hv Ep) as (Hr & H0 & Ht & Hu).
  set (p1 := Product.with_stock_quantity
               (Product.stock_quantity p + Purchase.quantity NEW) p).
  exists (mkdb (<[Purchase.product_id NEW := p1]> (products s))
               (<[id := NEW]> (purchases s)) (invoices s) (invoice_items s)).
  assert (int4_min ≤ Purchase.quantity NEW ≤ int4_max) as HqR by int4_lia.
  assert (int4_min ≤ Product.stock_quantity p + Purchase.quantity NEW
          ≤ int4_max) as Hsum by int4_lia.
  split; [|split].
  - unfold insert_purchases, purchases_after_row, update_stock_on_purchase,
      purchases_checks, purchases_product_id_fkey.
    rewrite (bind_Ok_l _ _ _ (int4_in_range _ HqR)).
    rewrite (bind_Ok_l _ _ ()) by (by apply require_true, Z.ltb_lt).
    rewrite (bind_Ok_l _ _ ()) by (by apply require_true, bool_decide_eq_true_2).
    rewrite (bind_Ok_l _ _ ())
      by (apply require_true, bool_decide_eq_true_2; simpl; by rewrite Ep).
    erewrite update_products_stock_quantity_success;
      [done|exact Ep|by apply int4_in_range|lia|done|done].
  - unfold stock_of. simpl. by rewrite lookup_insert_eq.
  - unfold delete_purchase_safely. simpl. rewrite !lookup_insert_eq. simpl.
    unfold int4_sub.
    assert (Product.stock_quantity p + Purchase.quantity NEW
            - Purchase.quantity NEW = Product.stock_quantity p) as -> by lia.
    rewrite (bind_Ok_l _ _ _ (int4_in_range _ Hr)). simpl.
    rewrite (proj2 (Z.ltb_ge _ _)) by lia.
    unfold delete_purchases, purchases_after_row, update_stock_on_purchase.
    simpl. rewrite lookup_insert_eq.
    erewrite update_products_stock_quantity_success;
      [|simpl; apply lookup_insert_eq| |exact H0|exact Ht|exact Hu].
    2:{ unfold int4_sub. simpl.
        assert (Product.stock_quantity p + Purchase.quantity NEW
                - Purchase.quantity NEW = Product.stock_quantity p) as -> by lia.
        by apply int4_in_range. }
    simpl. do 2 f_equal. apply db_eq; simpl; try done.
    + rewrite insert_insert_eq. apply insert_id. rewrite Ep. f_equal.
      by destruct p.
    + by apply delete_insert_id.
Qed.

Lemma purchase_insert_delete_round_trip_witness :
  ∃ s1, insert_purchases 100%N Scenario.bought10 Scenario.s0 = Ok s1
        ∧ stock_of Scenario.urea s1 = Some 10
        ∧ delete_purchase_safely 100%N s1
          = Ok ("Purchase record deleted successfully.", Scenario.s0).
Proof.
  exact (purchase_insert_delete_round_trip Scenario.s0 100%N Scenario.bought10
           (Product.mk "Urea" 0 (100 # 1) (5 # 100))
           ltac:(by_evaluation) ltac:(by vm_compute) ltac:(by vm_compute)
           ltac:(by vm_compute) ltac:(by vm_compute)).
Defined.

Lemma invoice_items_sum_ext (id : uuid) (s s' : db) :
  invoice_items s' = invoice_items s →
  invoice_items_sum id s' = invoice_items_sum id s.
Proof. unfold invoice_items_sum, items_of_invoice. by intros ->. Qed.

(** X7. Adding a line to an invoice and deleting it again gives the stock
    back. In a well-formed state, a line with a fresh id that passes its
    CHECK constraints, names an existing invoice and product and asks for no
    more than the stock is accepted and lowers the stock by its quantity;
    deleting the line then succeeds and leaves every table as it was before
    the insert, except that the invoice's total is the one recomputed from
    its remaining lines. *)
Theorem invoice_item_insert_delete_round_trip
    (s : db) (id : uuid) (NEW : InvoiceItem.t) (p : Product.t) :
  valid s →
  invoice_items s !! id = None →
  products s !! InvoiceItem.product_id NEW = Some p →
  is_Some (invoices s !! InvoiceItem.invoice_id NEW) →
  in_int4 (InvoiceItem.quantity NEW) = true →
  invoice_items_checks NEW = Ok () →
  InvoiceItem.quantity NEW ≤ Product.stock_quantity p →
  ∃ s1, insert_invoice_items id NEW s = Ok s1
        ∧ stock_of (InvoiceItem.product_id NEW) s1
          = Some (Product.stock_quantity p - InvoiceItem.quantity NEW)
        ∧ delete_invoice_items id s1
          = Ok (update_invoices_total_amount (InvoiceItem.invoice_id NEW) s).
Proof.
  intros Hv Hid Ep Hinv HqR Hc Hq.
  destruct (valid_product _ _ _ Hv Ep) as (Hr & H0 & Ht & Hu).
  apply in_int4_spec in HqR.
  pose proof Hc as Hc'. apply invoice_items_checks_Ok in Hc' as (Hpos & _).
  apply Z.ltb_lt in Hpos.
  assert (int4_min ≤ Product.stock_quantity p - InvoiceItem.quantity NEW
          ≤ int4_max) as Hd by int4_lia.
  set (s_ins := set_invoice_items (<[id:=NEW]> (invoice_items s)) s).
  set (p1 := Product.with_stock_quantity
               (Product.stock_quantity p - InvoiceItem.quantity NEW) p).
  set (s1 := set_products (<[InvoiceItem.product_id NEW := p1]> (products s))
               (update_invoices_total_amount (InvoiceItem.invoice_id NEW)
                  s_ins)).
  exists s1. split; [|split].
  - unfold insert_invoice_items, invoice_items_after_row,
      invoice_items_invoice_id_fkey, invoice_items_product_id_fkey.
    rewrite (bind_Ok_l _ _ _ (int4_in_range _ HqR)).
    rewrite (bind_Ok_l _ _ _ Hc).
    rewrite (bind_Ok_l _ _ ()) by (by apply require_true, bool_decide_eq_true_2).
    rewrite (bind_Ok_l _ _ ()) by (by apply require_true, bool_decide_eq_true_2).
    rewrite (bind_Ok_l _ _ ())
      by (apply require_true, bool_decide_eq_true_2; simpl; by rewrite Ep).
    unfold update_stock_on_sale, recalculate_invoice_total.
    erewrite update_products_stock_quantity_success;
      [done|exact Ep|by apply int4_in_range|lia|done|done].
  - unfold stock_of. simpl. by rewrite lookup_insert_eq.
  - unfold delete_invoice_items. 
    assert (invoice_items s1 !! id = Some NEW) as -> by apply lookup_insert_eq.
    unfold invoice_items_after_row, update_stock_on_sale,
      recalculate_invoice_total.
    erewrite update_products_stock_quantity_success;
      [|simpl; apply lookup_insert_eq| |exact H0|exact Ht|exact Hu].
    2:{ unfold int4_add. simpl.
        assert (Product.stock_quantity p - InvoiceItem.quantity NEW
                + InvoiceItem.quantity NEW = Product.stock_quantity p) as ->
          by lia.
        by apply int4_in_range. }
    f_equal. apply db_eq; simpl; try done.
    + rewrite insert_insert_eq. apply insert_id. rewrite Ep. f_equal.
      by destruct p.
    + rewrite alter_alter_eq.
      rewrite (invoice_items_sum_ext _ s) by (simpl; by apply delete_insert_id).
      apply map_eq. intros j. rewrite !lookup_alter.
      case_decide; [|done]. by destruct (invoices s !! j).
    + by apply delete_insert_id.
Qed.

Lemma invoice_item_insert_delete_round_trip_witness :
  ∃ s1, insert_invoice_items 200%N Scenario.sold4 Scenario.sP = Ok s1
        ∧ stock_of Scenario.urea s1 = Some (10 - 4)
        ∧ delete_invoice_items 200%N s1
          = Ok (update_invoices_total_amount Scenario.inv1 Scenario.sP).
Proof.
  exact (invoice_item_insert_delete_round_trip Scenario.sP 200%N
           Scenario.sold4 (Product.mk "Urea" 10 (100 # 1) (5 # 100))
           ltac:(by_evaluation) ltac:(by vm_compute) ltac:(by vm_compute)
           ltac:(by_evaluation) ltac:(by vm_compute) ltac:(by vm_compute)
           ltac:(by vm_compute)).
Defined.

(** ** Recomputing a total twice *)

(** X8. [recalculate_invoice_total] is idempotent: firing it a second time
    for the same row event, with no write in between, leaves the state the
    first firing produced. The total it stores depends on the invoice's
    items only, never on the total stored before. *)
Theorem recalculate_invoice_total_idempotent
    (ev : trigger_event InvoiceItem.t) (s : db) :
  recalculate_invoice_total ev (recalculate_invoice_total ev s)
  = recalculate_invoice_total ev s.
Proof.
  assert (∀ i j t, invoice_items_sum i (update_invoices_total_amount j t)
                   = invoice_items_sum i t) as Hsum.
  { intros i j t. by apply invoice_items_sum_ext. }
  assert (∀ i t, invoices (update_invoices_total_amount i t)
                 = alter (Invoice.with_total_amount (invoice_items_sum i t)) i
                     (invoices t)) as Hinv by done.
  apply db_eq.
  - by rewrite !(proj1 (recalculate_invoice_total_frame _ _)).
  - by rewrite !(proj1 (proj2 (recalculate_invoice_total_frame _ _))).
  - destruct ev as [NEW|OLD NEW|OLD]; unfold recalculate_invoice_total;
      cbv zeta; try case_decide; rewrite !Hinv, !Hsum; apply map_eq; intros k;
      rewrite !lookup_alter; repeat case_decide; try congruence;
      match goal with |- context [invoices s !! ?i] =>
        by destruct (invoices s !! i) end.
  - by rewrite !(proj2 (proj2 (recalculate_invoice_total_frame _ _))).
Qed.

(** ** The reports at the edges of their filters *)

Lemma filter_none {A} (P : A → Prop) `{!∀ x, Decision (P x)} (l : list A) :
  (∀ x, ¬ P x) → filter P l = [].
Proof.
  intros HP. induction l as [|x l IH]; [done|].
  rewrite filter_cons. by rewrite decide_False by apply HP.
Qed.

Section edges.
Context `{Collation}.

(** X9. A transaction type other than 'all', 'sale' and 'purchase', and a
    date range whose end lies before its start, select nothing: the page is
    empty, the count is 0 and the export is empty, in every state. The type
    is compared as it is written, so 'Sale' and 'Purchase', the values the
    rows themselves carry in [transaction_type], select nothing either. *)
Theorem reports_empty_outside_filters (s : db)
    (p_start_date p_end_date : date) (p_transaction_type : string)
    (p_limit p_offset : Z) :
  (p_transaction_type ≠ "all" ∧ p_transaction_type ≠ "sale"
   ∧ p_transaction_type ≠ "purchase")
  ∨ p_end_date < p_start_date →
  0 ≤ p_limit → 0 ≤ p_offset →
  get_combined_report s p_start_date p_end_date p_transaction_type
    p_limit p_offset = Ok []
  ∧ get_combined_report_count s p_start_date p_end_date p_transaction_type
    = Ok 0
  ∧ export_combined_report s p_start_date p_end_date p_transaction_type
    = Ok [].
Proof.
  intros Hout Hl Ho.
  assert (∀ i, ¬ sale_selected p_start_date p_end_date p_transaction_type i)
    as Hsale.
  { intros i Hsel. unfold sale_selected in Hsel.
    apply Is_true_true, andb_true_iff in Hsel as [Hty Hd].
    apply type_admits_spec in Hty. apply between_spec in Hd.
    destruct Hout as [(? & ? & ?)|?]; [by destruct Hty|lia]. }
  assert (∀ pu,
            ¬ purchase_selected p_start_date p_end_date p_transaction_type pu)
    as Hpurchase.
  { intros pu Hsel. unfold purchase_selected in Hsel.
    apply Is_true_true, andb_true_iff in Hsel as [Hty Hd].
    apply type_admits_spec in Hty. apply between_spec in Hd.
    destruct Hout as [(? & ? & ?)|?]; [by destruct Hty|lia]. }
  assert (report_combined_transactions s p_start_date p_end_date
            p_transaction_type = Ok []) as Hct.
  { unfold report_combined_transactions.
    rewrite !filter_none by (intros ?; (apply Hsale || apply Hpurchase)).
    done. }
  split; [|split].
  - unfold get_combined_report.
    rewrite (require_true (0 <=? p_offset)) by by apply Z.leb_le.
    rewrite (require_true (0 <=? p_limit)) by by apply Z.leb_le.
    rewrite Hct. simpl. by rewrite drop_nil, take_nil.
  - unfold get_combined_report_count.
    by rewrite !filter_none by (intros ?; (apply Hsale || apply Hpurchase)).
  - unfold export_combined_report.
    by rewrite export_combined_transactions_project, Hct.
Qed.

(** X10. The length of a page follows from the count. On a well-formed
    state, when [get_combined_report] returns a page and
    [get_combined_report_count] returns [n] for the same filters, the page
    holds [min (p_limit, max (0, n - p_offset))] rows: full pages up to the
    last one, the remainder on it, nothing beyond. *)
Theorem get_combined_report_page_length (s : db)
    (p_start_date p_end_date : date) (p_transaction_type : string)
    (p_limit p_offset : Z) (page : list ReportRow.t) (n : Z) :
  valid s →
  get_combined_report s p_start_date p_end_date p_transaction_type
    p_limit p_offset = Ok page →
  get_combined_report_count s p_start_date p_end_date p_transaction_type
  = Ok n →
  Z.of_nat (length page) = Z.min p_limit (Z.max 0 (n - p_offset)).
Proof.
  intros Hv Hpage Hn. unfold get_combined_report in Hpage. ok_inv.
  match goal with E : report_combined_transactions _ _ _ _ = Ok ?c |- _ =>
    rename E into Hct; rename c into ct end.
  assert (export_combined_transactions s p_start_date p_end_date
            p_transaction_type = Ok (project <$> ct)) as Hect.
  { by rewrite export_combined_transactions_project, Hct. }
  apply (export_combined_transactions_length _ _ _ _ _ Hv) in Hect.
  rewrite length_fmap in Hect.
  unfold get_combined_report_count in Hn. rewrite <- Hect in Hn. ok_inv.
  rewrite length_take, length_drop, length_order_by.
  repeat match goal with E : (0 <=? _) = true |- _ => apply Z.leb_le in E end.
  lia.
Qed.

(** X11. The sign of [quantity_change] tells the kind of a row. On a
    well-formed state every row of a page is either a 'Sale' with a
    negative quantity change or a 'Purchase' with a positive one; no row
    carries a change of zero. *)
Theorem quantity_change_sign (s : db)
    (p_start_date p_end_date : date) (p_transaction_type : string)
    (p_limit p_offset : Z) (page : list ReportRow.t) :
  valid s →
  get_combined_report s p_start_date p_end_date p_transaction_type
    p_limit p_offset = Ok page →
  Forall (λ r, (ReportRow.transaction_type r = "Sale"
                ∧ ReportRow.quantity_change r < 0)
               ∨ (ReportRow.transaction_type r = "Purchase"
                  ∧ 0 < ReportRow.quantity_change r)) page.
Proof.
  intros Hv Hpage. unfold get_combined_report in Hpage. ok_inv.
  match goal with E : report_combined_transactions _ _ _ _ = Ok ?c |- _ =>
    apply report_combined_transactions_admitted in E; rename E into Hct end.
  apply Forall_take, Forall_drop. rewrite order_by_Permutation.
  eapply Forall_impl; [exact Hct|]. intros r (_ & [[Hr _]|[Hr _]]).
  - destruct Hr as (ii & i & p & Hii & _ & _ & _ & Hty & _ & _ & Hq).
    destruct (valid_invoice_item _ _ _ Hv Hii) as (Hpos & _). left.
    split; [done|lia].
  - destruct Hr as (pu & p & Hpu & _ & _ & Hty & _ & _ & Hq).
    destruct (valid_purchase _ _ _ Hv Hpu) as (Hpos & _). right.
    split; [done|lia].
Qed.

End edges.

Lemma reports_empty_outside_filters_witness :
  @get_combined_report bytewise Scenario.sA 0 30 "Sale" 10 0 = Ok []
  ∧ get_combined_report_count Scenario.sA 0 30 "Sale" = Ok 0
  ∧ @export_combined_report bytewise Scenario.sA 30 0 "all" = Ok [].
Proof.
  destruct (@reports_empty_outside_filters bytewise Scenario.sA 0 30 "Sale"
              10 0 ltac:(by left) ltac:(lia) ltac:(lia)) as (Hp & Hc & _).
  destruct (@reports_empty_outside_filters bytewise Scenario.sA 30 0 "all"
              10 0 ltac:(right; lia) ltac:(lia) ltac:(lia)) as (_ & _ & He).
  by split_and!.
Defined.

Lemma get_combined_report_page_length_witness :
  ∃ page,
    @get_combined_report bytewise Scenario.sA 0 30 "all" 10 1 = Ok page
    ∧ Z.of_nat (length page) = Z.min 10 (Z.max 0 (2 - 1)).
Proof.
  destruct (@get_combined_report bytewise Scenario.sA 0 30 "all" 10 1)
    as [page|e] eqn:Hpage; [|by vm_compute in Hpage].
  exists page. split; [done|].
  apply (@get_combined_report_page_length bytewise Scenario.sA 0 30 "all"
           10 1 page 2 ltac:(by_evaluation) Hpage ltac:(by vm_compute)).
Defined.

Lemma quantity_change_sign_witness :
  ∃ page,
    @get_combined_report bytewise Scenario.sA 0 30 "all" 10 0 = Ok page
    ∧ Forall (λ r, (ReportRow.transaction_type r = "Sale"
                    ∧ ReportRow.quantity_change r < 0)
                   ∨ (ReportRow.transaction_type r = "Purchase"
                      ∧ 0 < ReportRow.quantity_change r)) page.
Proof.
  destruct (@get_combined_report bytewise Scenario.sA 0 30 "all" 10 0)
    as [page|e] eqn:Hpage; [|by vm_compute in Hpage].
  exists page. split; [done|].
  apply (@quantity_change_sign bytewise Scenario.sA 0 30 "all" 10 0 page
           ltac:(by_evaluation) Hpage).
Defined.

(** ** The export against the stocks *)

Lemma sumZ_app {A} (f : A → Z) (l1 l2 : list A) :
  sumZ f (l1 ++ l2) = sumZ f l1 + sumZ f l2.
Proof. induction l1 as [|x l1 IH]; simpl; [done|]. rewrite IH. lia. Qed.

Section reconcile.
Context (s : db) (p_start_date p_end_date : date) (pid : uuid) (p : Product.t).
Hypothesis Hvalid : valid s.
Hypothesis Hproduct : products s !! pid = Some p.
(** [products_name_key]: no other product has the name of [p]. *)
Hypothesis Hname : ∀ j pj,
  products s !! j = Some pj → Product.name pj = Product.name p → j = pid.
Hypothesis Hpurchases : ∀ id pu,
  purchases s !! id = Some pu →
  p_start_date ≤ Purchase.purchase_date pu ≤ p_end_date.
Hypothesis Hinvoices : ∀ id i,
  invoices s !! id = Some i →
  p_start_date ≤ Invoice.invoice_date i ≤ p_end_date.

Lemma named_like_product (j : uuid) (pj : Product.t) :
  products s !! j = Some pj → Product.name pj = Product.name p ↔ j = pid.
Proof.
  intros Ej. split; [by apply Hname|]. intros ->. congruence.
Qed.

Lemma export_purchases_sum (l : list (uuid * Purchase.t)) :
  Forall (λ kv, purchases s !! kv.1 = Some kv.2) l →
  sumZ ExportRow.quantity_change
    (filter (λ r, ExportRow.product_name r = Product.name p)
       (export_purchase_row <$>
          filter (λ r, purchase_selected p_start_date p_end_date "all" r.1.2)
            (omap (λ '(id, pu),
                     p ← products s !! Purchase.product_id pu;
                     Some (id, pu, p)) l)))
  = sumZ Purchase.quantity
      (filter (λ pu, Purchase.product_id pu = pid) l.*2).
Proof.
  induction 1 as [|[id pu] l Hpu _ IH]; [done|]. simpl in Hpu.
  destruct (valid_purchase _ _ _ Hvalid Hpu) as (_ & [pj Epj]).
  csimpl. rewrite Epj. simpl. rewrite filter_cons, decide_True.
  2:{ unfold purchase_selected. apply Is_true_true, andb_true_iff.
      split; [done|]. apply between_spec. simpl. by eapply Hpurchases. }
  csimpl. rewrite !sum_rows_cons, IH. f_equal. unfold share. simpl.
  pose proof (named_like_product _ _ Epj).
  repeat case_decide; tauto || done.
Qed.

Lemma export_sales_sum (l : list (uuid * InvoiceItem.t)) :
  Forall (λ kv, invoice_items s !! kv.1 = Some kv.2) l →
  ∀ sales,
    for_rows export_sale_row
      (filter (λ r, sale_selected p_start_date p_end_date "all" r.1.2)
         (omap (λ '(id, ii, i),
                  p ← products s !! InvoiceItem.product_id ii;
                  Some (id, ii, i, p))
            (omap (λ '(id, ii),
                     i ← invoices s !! InvoiceItem.invoice_id ii;
                     Some (id, ii, i)) l)))
    = Ok sales →
    sumZ ExportRow.quantity_change
      (filter (λ r, ExportRow.product_name r = Product.name p) sales)
    = - sumZ InvoiceItem.quantity
          (filter (λ ii, InvoiceItem.product_id ii = pid) l.*2).
Proof.
  induction 1 as [|[id ii] l Hii _ IH]; intros sales Hsales.
  { simpl in Hsales. by ok_inv. }
  simpl in Hii.
  destruct (valid_invoice_item _ _ _ Hvalid Hii) as (_ & [i Ei] & [pj Epj]).
  revert Hsales. csimpl. rewrite Ei. csimpl. rewrite Epj. simpl.
  rewrite filter_cons, decide_True.
  2:{ unfold sale_selected. apply Is_true_true, andb_true_iff.
      split; [done|]. apply between_spec. simpl. by eapply Hinvoices. }
  cbn [for_rows]. intros Hsales. ok_inv.
  match goal with E : for_rows _ _ = Ok _ |- _ => apply IH in E as IH' end.
  match goal with E : export_sale_row _ = Ok _ |- _ =>
    unfold export_sale_row in E end.
  ok_inv. csimpl. rewrite !sum_rows_cons, IH'. unfold share. simpl.
  pose proof (named_like_product _ _ Epj).
  repeat case_decide; tauto || lia.
Qed.

End reconcile.

Section reconciled.
Context `{Collation}.

(** X12. The export adds up to the stock. On a well-formed state whose
    stocks agree with the ledger, take a product whose name no other
    product has (the schema's products_name_key) and a date range that
    holds every purchase and every invoice: the [quantity_change] values of
    the rows that [export_combined_report] returns under that product's
    name, for type 'all', sum to the product's [stock_quantity]. *)
Theorem export_reconciles_with_stock (s : db)
    (p_start_date p_end_date : date) (pid : uuid) (p : Product.t)
    (full : list ExportRow.t) :
  valid s → stock_ledger s →
  products s !! pid = Some p →
  (∀ j pj, products s !! j = Some pj →
           Product.name pj = Product.name p → j = pid) →
  (∀ id pu, purchases s !! id = Some pu →
            p_start_date ≤ Purchase.purchase_date pu ≤ p_end_date) →
  (∀ id i, invoices s !! id = Some i →
           p_start_date ≤ Invoice.invoice_date i ≤ p_end_date) →
  export_combined_report s p_start_date p_end_date "all" = Ok full →
  sumZ ExportRow.quantity_change
    (filter (λ r, ExportRow.product_name r = Product.name p) full)
  = Product.stock_quantity p.
Proof.
  intros Hv Hl Ep Hname Hpu Hinv Hfull.
  unfold export_combined_report in Hfull. ok_inv.
  rewrite order_by_Permutation.
  match goal with E : export_combined_transactions _ _ _ _ = Ok _ |- _ =>
    unfold export_combined_transactions in E; rename E into Hect end.
  ok_inv. rewrite filter_app, sumZ_app.
  unfold purchases_join_products.
  rewrite (export_purchases_sum s p_start_date p_end_date pid p Hv Ep Hname
             Hpu).
  2:{ apply Forall_forall. intros [id pu] Hx.
      by apply elem_of_map_to_list in Hx. }
  match goal with E : for_rows _ _ = Ok _ |- _ =>
    apply (export_sales_sum s p_start_date p_end_date pid p Hv Ep Hname
             Hinv) in E; [rewrite E|] end.
  2:{ apply Forall_forall. intros [id ii] Hx.
      by apply elem_of_map_to_list in Hx. }
  rewrite (Hl pid p Ep). unfold purchased, sold, rows. lia.
Qed.

End reconciled.

Lemma export_reconciles_with_stock_witness :
  ∃ full,
    @export_combined_report bytewise Scenario.sA 0 30 "all" = Ok full
    ∧ sumZ ExportRow.quantity_change
        (filter (λ r, ExportRow.product_name r = "Urea") full) = 6.
Proof.
  destruct (@export_combined_report bytewise Scenario.sA 0 30 "all")
    as [full|e] eqn:Hfull; [|by vm_compute in Hfull].
  exists full. split; [done|].
  apply (@export_reconciles_with_stock bytewise Scenario.sA 0 30
           Scenario.urea (Product.mk "Urea" 6 (100 # 1) (5 # 100)) full
           ltac:(by_evaluation) ltac:(by_evaluation) ltac:(by vm_compute)).
  - change (map_Forall (λ j pj, Product.name pj = "Urea" → j = Scenario.urea)
              (products Scenario.sA)). by_evaluation.
  - change (map_Forall (λ _ pu, 0 ≤ Purchase.purchase_date pu ≤ 30)
              (purchases Scenario.sA)). by_evaluation.
  - change (map_Forall (λ _ i, 0 ≤ Invoice.invoice_date i ≤ 30)
              (invoices Scenario.sA)). by_evaluation.
  - exact Hfull.
Defined.

(** * The format checks on tax identifiers

    [company_details_gstin_format_check] and
    [customers_gst_pan_format_check] match the value against anchored
    regular expressions with [~*], case-insensitively. Each expression is a
    sequence of bracket expressions of one character each, so a value
    matches when it has as many characters as the expression has brackets
    and each character lies in its bracket. A character outside ASCII lies
    in none of the brackets; among the ASCII letters, case is folded as
    under the C and the English locales. *)

Section brackets.
Import Stdlib.Strings.Ascii.

Definition in_range (lo hi c : Ascii.ascii) : bool :=
  (Ascii.nat_of_ascii lo <=? Ascii.nat_of_ascii c)%nat
  && (Ascii.nat_of_ascii c <=? Ascii.nat_of_ascii hi)%nat.

(** [[0-9]]. *)
Definition digit (c : Ascii.ascii) : bool := in_range "0"%char "9"%char c.
(** [[A-Z]] under [~*]. *)
Definition letter (c : Ascii.ascii) : bool :=
  in_range "A"%char "Z"%char c || in_range "a"%char "z"%char c.
(** [[1-9A-Z]] under [~*]. *)
Definition digit_1_9_or_letter (c : Ascii.ascii) : bool :=
  in_range "1"%char "9"%char c || letter c.
(** [Z] under [~*]. *)
Definition letter_Z (c : Ascii.ascii) : bool :=
  bool_decide (c = "Z"%char) || bool_decide (c = "z"%char).
(** [[0-9A-Z]] under [~*]. *)
Definition digit_or_letter (c : Ascii.ascii) : bool := digit c || letter c.

End brackets.

(** [value ~* '^b1 b2 ... bn$'] for one-character brackets [b1 ... bn]. *)
Fixpoint matches (brackets : list (Ascii.ascii → bool)) (value : string)
  : bool :=
  match brackets, value with
  | [], EmptyString => true
  | b :: brackets, String c value => b c && matches brackets value
  | _, _ => false
  end.

(** [^[0-9]{2}[A-Z]{5}[0-9]{4}[A-Z]{1}[1-9A-Z]{1}Z[0-9A-Z]{1}$]. *)
Definition gstin_format : list (Ascii.ascii → bool) :=
  replicate 2 digit ++ replicate 5 letter ++ replicate 4 digit
  ++ replicate 1 letter ++ replicate 1 digit_1_9_or_letter ++ [letter_Z]
  ++ replicate 1 digit_or_letter.

(** [^[A-Z]{5}[0-9]{4}[A-Z]{1}$]. *)
Definition pan_format : list (Ascii.ascii → bool) :=
  replicate 5 letter ++ replicate 4 digit ++ replicate 1 letter.

(** [CHECK (gstin IS NULL OR gstin ~* ...)]. *)
Definition company_details_gstin_format_check (gstin : option string) : bool :=
  match gstin with
  | None => true
  | Some gstin => matches gstin_format gstin
  end.

(** [CHECK (gst_pan IS NULL OR gst_pan ~* ... OR gst_pan ~* ...)]. *)
Definition customers_gst_pan_format_check (gst_pan : option string) : bool :=
  match gst_pan with
  | None => true
  | Some gst_pan => matches gstin_format gst_pan || matches pan_format gst_pan
  end.

Lemma matches_length (brackets : list (Ascii.ascii → bool)) (value : string) :
  matches brackets value = true → String.length value = length brackets.
Proof.
  revert value. induction brackets as [|b brackets IH]; intros [|c value];
    simpl; try done.
  intros Hm. apply andb_true_iff in Hm as [_ Hm]. f_equal. by apply IH.
Qed.

(** X20. What the format checks let through. A value that passes the GSTIN
    check of company_details has exactly 15 characters, and its characters
    3 to 12 form a value that matches the PAN expression; a customer's
    gst_pan that passes its check has 15 or 10 characters; and whatever the
    GSTIN check accepts, the customers check accepts, the PAN inside it
    too. *)
Theorem format_checks_accept (value : string) :
  (company_details_gstin_format_check (Some value) = true →
   String.length value = 15%nat
   ∧ matches pan_format (String.substring 2 10 value) = true
   ∧ customers_gst_pan_format_check (Some value) = true
   ∧ customers_gst_pan_format_check (Some (String.substring 2 10 value)) = true)
  ∧ (customers_gst_pan_format_check (Some value) = true →
     String.length value = 15%nat ∨ String.length value = 10%nat).
Proof.
  unfold company_details_gstin_format_check, customers_gst_pan_format_check.
  split.
  - intros Hm. pose proof (matches_length _ _ Hm) as Hlen.
    assert (matches pan_format (String.substring 2 10 value) = true) as Hpan.
    { revert Hm. clear.
      do 15 (destruct value as [|? value];
               [cbn; by rewrite ?andb_false_r|]).
      destruct value; [|cbn; by rewrite ?andb_false_r].
      cbn [matches gstin_format pan_format replicate app String.substring].
      intros Hm. repeat (apply andb_true_iff in Hm as [? Hm]).
      by repeat (apply andb_true_iff; split; [assumption|]). }
    split; [done|]. split; [done|]. split; [by rewrite Hm|].
    rewrite Hpan. by rewrite orb_true_r.
  - intros Hm. apply orb_true_iff in Hm as [Hm|Hm];
      apply matches_length in Hm; [by left|by right].
Qed.

Lemma format_checks_accept_witness :
  customers_gst_pan_format_check (Some "27aaaca1234b1z5") = true
  ∧ matches pan_format "aaaca1234b" = true.
Proof.
  destruct (proj1 (format_checks_accept "27aaaca1234b1z5")
              ltac:(by vm_compute)) as (_ & Hpan & Hcustomer & _).
  split; [exact Hcustomer|exact Hpan].
Defined.

(** * The requests of the invoice form

    [upsertInvoice] of the invoice form saves an invoice through the REST
    interface of the store. Every request is a transaction of its own: a
    request that fails leaves what the requests before it committed, and
    the function stops at the first error. It resolves the customer first,
    with an [INSERT INTO customers] for a new one; then it sends, for an
    edit, [UPDATE invoices ... WHERE id = id], then
    [DELETE FROM invoice_items WHERE invoice_id = id], then one multi-row
    [INSERT INTO invoice_items]; for a new invoice, [INSERT INTO invoices],
    then the multi-row insert. The payloads are taken as the typed rows the
    store receives; what the form computes in floating point
    ([calculatedTotal], the pre-tax [unit_price]) is a given of the row.
    The [customer_id] of an invoice is not kept as a column: its foreign
    key is checked where the header is written. *)

(** ** Statements on invoices *)

(** [invoices_invoice_number_key]: no other invoice has the number. *)
Definition invoices_invoice_number_key (id : uuid) (i : Invoice.t) (s : db)
  : result unit :=
  require (bool_decide
             (map_Forall (λ j i', j = id ∨ Invoice.invoice_number i'
                                           ≠ Invoice.invoice_number i)
                (invoices s)))
          (unique_violation "invoices_invoice_number_key").

(** [INSERT INTO invoices], on the columns of the core; the table has no
    trigger. The foreign key of [customer_id] is checked with the customers
    at hand, in [insert_invoices_for] below. *)
Definition insert_invoices (id : uuid) (NEW : Invoice.t) (s : db)
  : result db :=
  require (bool_decide (invoices s !! id = None))
          (unique_violation "invoices_pkey");;
  invoices_invoice_number_key id NEW s;;
  Ok (set_invoices (<[id := NEW]> (invoices s)) s).

(** [UPDATE invoices SET ... WHERE id = id], on the columns of the core:
    no row, no error. *)
Definition update_invoices (id : uuid) (NEW : Invoice.t) (s : db)
  : result db :=
  match invoices s !! id with
  | None => Ok s
  | Some _ =>
      invoices_invoice_number_key id NEW s;;
      Ok (set_invoices (<[id := NEW]> (invoices s)) s)
  end.

(** ** Statements on several rows of invoice_items

    The rows are written one after the other; the AFTER ROW triggers, the
    foreign-key checks among them, are queued and fire once all rows are
    written, row by row in the order of the rows. *)

(** [DELETE FROM invoice_items WHERE invoice_id = id]. *)
Definition delete_invoice_items_of (id : uuid) (s : db) : result db :=
  for_each (λ OLD, invoice_items_after_row (TG_DELETE OLD))
    (rows (cascaded_items id s))
    (set_invoice_items
       (filter (λ kv, InvoiceItem.invoice_id kv.2 ≠ id) (invoice_items s)) s).

(** Writing one row of a multi-row insert: CHECK constraints, then the
    primary key. *)
Definition write_invoice_item (r : uuid * InvoiceItem.t) (s : db)
  : result db :=
  invoice_items_checks r.2;;
  require (bool_decide (invoice_items s !! r.1 = None))
          (unique_violation "invoice_items_pkey");;
  Ok (set_invoice_items (<[r.1 := r.2]> (invoice_items s)) s).

(** The queued triggers of one inserted row. *)
Definition invoice_item_written (NEW : InvoiceItem.t) (s : db) : result db :=
  invoice_items_invoice_id_fkey NEW s;;
  invoice_items_product_id_fkey NEW s;;
  invoice_items_after_row (TG_INSERT NEW) s.

(** [INSERT INTO invoice_items VALUES (...), (...), ...]: the payload is
    converted to rows first, every quantity to [integer]. *)
Definition insert_invoice_items_rows (l : list (uuid * InvoiceItem.t))
    (s : db) : result db :=
  for_rows (λ r, int4 (InvoiceItem.quantity r.2)) l;;
  s1 ← for_each write_invoice_item l s;
  for_each invoice_item_written l.*2 s1.

(** ** Customers *)

Module Customer.
Record t := mk {
  name : string;
  email : option string;
  phone : option string;
  gst_pan : option string;
  billing_address : option string;
  is_guest : bool }.
End Customer.

(** The store the form talks to: the customers and the tables of the
    core. *)
Record store := mkstore {
  customers : gmap uuid Customer.t;
  tables : db }.

Definition set_customers (m : gmap uuid Customer.t) (st : store) : store :=
  mkstore m (tables st).
Definition set_tables (s : db) (st : store) : store :=
  mkstore (customers st) s.

(** [INSERT INTO customers]: the CHECK constraint on [gst_pan], then the
    primary key and [customers_name_key]. *)
Definition insert_customers (id : uuid) (NEW : Customer.t) (st : store)
  : result store :=
  require (customers_gst_pan_format_check (Customer.gst_pan NEW))
          (check_violation "customers_gst_pan_format_check");;
  require (bool_decide (customers st !! id = None))
          (unique_violation "customers_pkey");;
  require (bool_decide
             (map_Forall (λ _ c, Customer.name c ≠ Customer.name NEW)
                (customers st)))
          (unique_violation "customers_name_key");;
  Ok (set_customers (<[id := NEW]> (customers st)) st).

(** [invoices_customer_id_fkey]: a [customer_id] that is not null names a
    customer. On an update the key is checked again only when the column
    changes; a reference that stays is to a customer that exists, the key
    being ON DELETE RESTRICT. *)
Definition invoices_customer_id_fkey (customer_id : option uuid) (st : store)
  : result unit :=
  match customer_id with
  | Some c => require (bool_decide (is_Some (customers st !! c)))
                      (foreign_key_violation "invoices_customer_id_fkey")
  | None => Ok ()
  end.

(** A statement on the tables of the core, as a statement on the store. *)
Definition on_tables (stmt : db → result db) (st : store) : result store :=
  s' ← stmt (tables st); Ok (set_tables s' st).

(** [INSERT INTO invoices] of a header with its [customer_id]. *)
Definition insert_invoices_for (customer_id : option uuid) (id : uuid)
    (NEW : Invoice.t) (st : store) : result store :=
  s' ← insert_invoices id NEW (tables st);
  invoices_customer_id_fkey customer_id st;;
  Ok (set_tables s' st).

(** [UPDATE invoices SET ... WHERE id = id] of a header with its
    [customer_id]: no row, no check. *)
Definition update_invoices_for (customer_id : option uuid) (id : uuid)
    (NEW : Invoice.t) (st : store) : result store :=
  s' ← update_invoices id NEW (tables st);
  (if invoices (tables st) !! id is Some _
   then invoices_customer_id_fkey customer_id st else Ok ());;
  Ok (set_tables s' st).

(** ** The client *)

(** Why the promise of a client computation is rejected: an [Error] the
    function throws itself, or the error of a request, thrown as it
    came. *)
Inductive failure :=
  | Error (message : string)
  | refused (e : error).

Inductive outcome (A : Type) :=
  | Resolved (a : A)
  | Rejected (f : failure).
Arguments Resolved {A} a.
Arguments Rejected {A} f.

(** A client computation: requests to the store, each committed on its own,
    until one fails or the function throws. *)
Definition client (A : Type) : Type := store → store * outcome A.

#[global] Instance client_ret : MRet client := λ A a st, (st, Resolved a).
#[global] Instance client_bind : MBind client := λ A B f m st,
  match m st with
  | (st1, Resolved a) => f a st1
  | (st1, Rejected e) => (st1, Rejected e)
  end.

Definition throw {A} (f : failure) : client A := λ st, (st, Rejected f).

(** One request: the statement in a transaction. *)
Definition request (stmt : store → result store) : client unit := λ st,
  match stmt st with
  | Ok st' => (st', Resolved ())
  | Err e => (st, Rejected (refused e))
  end.

(** The customer fields of the form. An optional text field is absent or
    holds a string; a [customer_id] is absent or a key (the empty string,
    which the form treats as absent, is no key). *)
Module CustomerMode.
Inductive t := existing | new | guest.
End CustomerMode.

Module FormValues.
Record t := mk {
  customer_mode : CustomerMode.t;
  customer_id : option uuid;
  new_customer_name : option string;
  new_customer_phone : option string;
  new_customer_gst_pan : option string;
  new_customer_billing_address : option string }.
End FormValues.

(** [x || null] on an optional text field: absent and empty give null. *)
Definition or_null (x : option string) : option string :=
  match x with
  | Some (String c x) => Some (String c x)
  | _ => None
  end.

(** The row of a new customer named [name]. *)
Definition newCustomer (formData : FormValues.t) (name : string)
  : Customer.t :=
  Customer.mk name None
    (or_null (FormValues.new_customer_phone formData))
    (or_null (FormValues.new_customer_gst_pan formData))
    (or_null (FormValues.new_customer_billing_address formData))
    false.

(** A line of the form, as [upsertInvoice] sends it. *)
Module ItemPayload.
Record t := mk {
  product_id : uuid;
  quantity : Z;
  unit_price : Q;
  tax_rate : Q }.
End ItemPayload.

(** The rows of the lines for invoice [invoiceId]. *)
Definition itemsToInsert (invoiceId : uuid)
    (items : list (uuid * ItemPayload.t)) : list (uuid * InvoiceItem.t) :=
  (λ '(k, item),
     (k, InvoiceItem.mk invoiceId (ItemPayload.product_id item)
           (ItemPayload.quantity item) (ItemPayload.unit_price item)
           (ItemPayload.tax_rate item))) <$> items.

(** The first part of [upsertInvoice]: the [customerId] of the header.
    [new_customer_id] is the key the store gives a new customer. *)
Definition resolveCustomer (formData : FormValues.t) (new_customer_id : uuid)
  : client (option uuid) :=
  match FormValues.customer_mode formData with
  | CustomerMode.guest => mret None
  | CustomerMode.new =>
      match FormValues.new_customer_name formData with
      | Some (String c name) =>
          request (insert_customers new_customer_id
                     (newCustomer formData (String c name)));;
          mret (Some new_customer_id)
      | _ => throw (Error "Customer name is required for new customers.")
      end
  | CustomerMode.existing =>
      match FormValues.customer_id formData with
      | Some customerId => mret (Some customerId)
      | None => throw (Error "Please select an existing customer.")
      end
  end.

(** The second part: the header and the lines. [id] is the invoice under
    edit, if any; [new_id] the key the store gives a new invoice; the lines
    come with the keys the store gives their rows. The [invoiceId] is a key
    on both paths, so the throw on a missing one is never reached. *)
Definition saveInvoice (customerId : option uuid) (id : option uuid)
    (new_id : uuid) (invoiceData : Invoice.t)
    (items : list (uuid * ItemPayload.t)) : client unit :=
  invoiceId ← match id with
              | Some id =>
                  request (update_invoices_for customerId id invoiceData);;
                  request (on_tables (delete_invoice_items_of id));;
                  mret id
              | None =>
                  request (insert_invoices_for customerId new_id invoiceData);;
                  mret new_id
              end;
  if (0 <? length (itemsToInsert invoiceId items))%nat
  then request (on_tables
                  (insert_invoice_items_rows (itemsToInsert invoiceId items)))
  else mret ().

(** [upsertInvoice]. *)
Definition upsertInvoice (formData : FormValues.t) (id : option uuid)
    (new_customer_id new_id : uuid) (invoiceData : Invoice.t)
    (items : list (uuid * ItemPayload.t)) : client unit :=
  customerId ← resolveCustomer formData new_customer_id;
  saveInvoice customerId id new_id invoiceData items.

Module Edit.
Import Scenario.

(** The store of Scenario A, without customers. *)
Definition st : store := mkstore ∅ sA.

(** The form of a new customer, and of a guest. *)
Definition asha : FormValues.t :=
  FormValues.mk CustomerMode.new None (Some "Asha") (Some "") None None.
Definition walk_in : FormValues.t :=
  FormValues.mk CustomerMode.guest None None None None None.

(** Invoice inv1 of Scenario A (4 of urea, stock 6) edited to two lines of
    6 of urea: each line is within the 6 + 4 the form accepts for a line
    of that product. *)
Definition lines : list (uuid * ItemPayload.t) :=
  [(300%N, ItemPayload.mk urea 6 (100 # 1) (5 # 100));
   (301%N, ItemPayload.mk urea 6 (100 # 1) (5 # 100))].

Definition saved : store * outcome unit :=
  upsertInvoice asha (Some inv1) 50%N 0%N
    (Invoice.mk "INV-001" 20 (1260 # 1)) lines st.

End Edit.

Example edit_loses_the_items :
  Edit.saved.2
  = Rejected (refused (check_violation "products_stock_quantity_check"))
  ∧ customers Edit.saved.1 !! 50%N
    = Some (Customer.mk "Asha" None None None None false)
  ∧ items_of_invoice Scenario.inv1 (tables Edit.saved.1) = []
  ∧ stock_of Scenario.urea (tables Edit.saved.1) = Some 10.
Proof. by vm_compute. Qed.

(** ** What the multi-row statements do to the stocks *)

(** Quantity of product [pid] a list of rows asks for. *)
Definition demand (pid : uuid) (l : list InvoiceItem.t) : Z :=
  sumZ InvoiceItem.quantity (filter (λ ii, InvoiceItem.product_id ii = pid) l).

Lemma fmap_plus_plus (a b : Z) (o : option Z) :
  (λ q, q + b) <$> ((λ q, q + a) <$> o) = (λ q, q + (a + b)) <$> o.
Proof. destruct o; simpl; [f_equal; lia|done]. Qed.

Lemma write_invoice_item_frame (r : uuid * InvoiceItem.t) (s s' : db) :
  write_invoice_item r s = Ok s' →
  products s' = products s ∧ purchases s' = purchases s
  ∧ invoices s' = invoices s
  ∧ invoice_items s !! r.1 = None
  ∧ invoice_items s' = <[r.1 := r.2]> (invoice_items s).
Proof.
  unfold write_invoice_item. intros Hs. ok_inv.
  match goal with E : bool_decide _ = true |- _ =>
    apply bool_decide_eq_true in E end.
  done.
Qed.

Lemma write_invoice_items_frame (l : list (uuid * InvoiceItem.t)) :
  ∀ s s', for_each write_invoice_item l s = Ok s' →
    products s' = products s ∧ purchases s' = purchases s
    ∧ invoices s' = invoices s.
Proof.
  induction l as [|r l IH]; intros s s' Hs; cbn [for_each] in Hs; ok_inv;
    [done|].
  match goal with
  | E1 : write_invoice_item _ _ = Ok _, E2 : for_each _ _ _ = Ok _ |- _ =>
      apply write_invoice_item_frame in E1 as (H1 & H2 & H3 & _);
      apply IH in E2 as (H1' & H2' & H3')
  end.
  split_and!; congruence.
Qed.

Lemma invoice_item_written_stock (NEW : InvoiceItem.t) (s s' : db) :
  invoice_item_written NEW s = Ok s' →
  ∀ j, stock_of j s'
       = (λ q, q + - demand j [NEW]) <$> stock_of j s.
Proof.
  unfold invoice_item_written, invoice_items_after_row.
  intros Hs j. ok_inv.
  match goal with E : update_stock_on_sale _ _ = Ok _ |- _ =>
    simpl in E;
    apply (update_products_stock_quantity_stock _ _ _ _ _
             (int4_sub_minus (InvoiceItem.quantity NEW))) with (j := j) in E;
    rewrite E end.
  unfold stock_of, demand. rewrite sum_rows_cons.
  unfold share. simpl.
  destruct (products s !! j) as [p|]; simpl; [f_equal|done].
  repeat case_decide; congruence || lia.
Qed.

Lemma invoice_items_written_stock (l : list InvoiceItem.t) :
  ∀ s s', for_each invoice_item_written l s = Ok s' →
    ∀ j, stock_of j s' = (λ q, q + - demand j l) <$> stock_of j s.
Proof.
  induction l as [|NEW l IH]; intros s s' Hs j; cbn [for_each] in Hs; ok_inv.
  - apply eq_sym, fmap_plus_zero.
  - match goal with
    | E1 : invoice_item_written _ _ = Ok _, E2 : for_each _ _ _ = Ok _ |- _ =>
        rewrite (IH _ _ E2 j), (invoice_item_written_stock _ _ _ E1 j)
    end.
    rewrite fmap_plus_plus. unfold demand. rewrite (sum_rows_cons _ _ NEW l).
    simpl. destruct (stock_of j s); simpl; [f_equal|done].
    rewrite sum_rows_cons. simpl. lia.
Qed.

Lemma invoice_items_written_nonnegative (l : list InvoiceItem.t) :
  ∀ s s', for_each invoice_item_written l s = Ok s' →
    stock_nonnegative s → stock_nonnegative s'.
Proof.
  apply for_each_preserves. intros NEW s s' Hs.
  unfold invoice_item_written in Hs. ok_inv.
  by eapply invoice_items_after_row_nonnegative.
Qed.

(** When a multi-row insert succeeds every stock has gone down by what
    the rows ask of its product. *)
Lemma insert_invoice_items_rows_stock
    (l : list (uuid * InvoiceItem.t)) (s s' : db) :
  insert_invoice_items_rows l s = Ok s' →
  ∀ j, stock_of j s' = (λ q, q + - demand j l.*2) <$> stock_of j s.
Proof.
  intros Hs j. unfold insert_invoice_items_rows in Hs. ok_inv.
  match goal with
  | E1 : for_each write_invoice_item _ _ = Ok ?t,
    E2 : for_each invoice_item_written _ ?t = Ok _ |- _ =>
      destruct (write_invoice_items_frame _ _ _ E1) as (Hp & _);
      rewrite (invoice_items_written_stock _ _ _ E2 j)
  end.
  unfold stock_of. by rewrite Hp.
Qed.

Lemma insert_invoice_items_rows_nonnegative
    (l : list (uuid * InvoiceItem.t)) (s s' : db) :
  insert_invoice_items_rows l s = Ok s' →
  stock_nonnegative s → stock_nonnegative s'.
Proof.
  intros Hs Hs0. unfold insert_invoice_items_rows in Hs. ok_inv.
  match goal with
  | E1 : for_each write_invoice_item _ _ = Ok ?t,
    E2 : for_each invoice_item_written _ ?t = Ok _ |- _ =>
      destruct (write_invoice_items_frame _ _ _ E1) as (Hp & _);
      eapply invoice_items_written_nonnegative; [exact E2|]
  end.
  intros j pj. rewrite Hp. apply Hs0.
Qed.

(** X13. A multi-row INSERT of invoice items is accepted only if, product
    by product, the stock covers the sum of the quantities of all the rows
    that name the product: when it succeeds, every stock has gone down by
    exactly that sum, and the sum was no more than the stock. A batch whose
    rows each fit the stock but not together is refused as a whole. *)
Theorem insert_invoice_items_rows_needs_stock
    (l : list (uuid * InvoiceItem.t)) (s s' : db) (pid : uuid)
    (p : Product.t) :
  stock_nonnegative s →
  insert_invoice_items_rows l s = Ok s' →
  products s !! pid = Some p →
  demand pid l.*2 ≤ Product.stock_quantity p
  ∧ stock_of pid s' = Some (Product.stock_quantity p - demand pid l.*2).
Proof.
  intros Hs0 Hs Ep.
  pose proof (insert_invoice_items_rows_stock _ _ _ Hs pid) as Hstock.
  pose proof (insert_invoice_items_rows_nonnegative _ _ _ Hs Hs0) as Hs'.
  unfold stock_of in Hstock. rewrite Ep in Hstock. simpl in Hstock.
  destruct (products s' !! pid) as [p'|] eqn:Ep'; [|done].
  specialize (Hs' pid p' Ep'). simpl in Hstock. injection Hstock as Hq.
  split; [lia|]. unfold stock_of. rewrite Ep'. simpl. f_equal. lia.
Qed.

Lemma insert_invoice_items_rows_needs_stock_witness :
  ∃ s', insert_invoice_items_rows
          [(200%N, InvoiceItem.mk Scenario.inv1 Scenario.urea 4
                     (100 # 1) (5 # 100));
           (201%N, InvoiceItem.mk Scenario.inv2 Scenario.urea 5
                     (100 # 1) (5 # 100))]
          Scenario.sP = Ok s'
        ∧ stock_of Scenario.urea s' = Some (10 - 9).
Proof.
  destruct (insert_invoice_items_rows
              [(200%N, InvoiceItem.mk Scenario.inv1 Scenario.urea 4
                         (100 # 1) (5 # 100));
               (201%N, InvoiceItem.mk Scenario.inv2 Scenario.urea 5
                         (100 # 1) (5 # 100))]
              Scenario.sP) as [s'|e] eqn:Hs; [|by vm_compute in Hs].
  exists s'. split; [done|].
  exact (proj2 (insert_invoice_items_rows_needs_stock _ Scenario.sP s'
                  Scenario.urea (Product.mk "Urea" 10 (100 # 1) (5 # 100))
                  ltac:(by_evaluation) Hs ltac:(by vm_compute))).
Defined.

(** ** The multi-row statements keep the ledger *)

Lemma write_invoice_items_owed (l : list (uuid * InvoiceItem.t)) :
  ∀ (owed : uuid → Z) (s s' : db),
    for_each write_invoice_item l s = Ok s' →
    ledger_up_to owed s →
    ledger_up_to (λ j, owed j - demand j l.*2) s'.
Proof.
  induction l as [|r l IH]; intros owed s s' Hs Hl; cbn [for_each] in Hs;
    ok_inv.
  - eapply ledger_up_to_ext; [| | | |exact Hl]; try done.
    intros j. unfold demand. simpl. lia.
  - match goal with
    | E1 : write_invoice_item _ _ = Ok ?t, E2 : for_each _ _ ?t = Ok _ |- _ =>
        apply write_invoice_item_frame in E1 as (Hp & Hpu & _ & Hfresh & Hii);
        apply (IH (λ j, owed j
                        - share InvoiceItem.quantity
                            (λ ii, InvoiceItem.product_id ii = j) r.2)) in E2;
        [eapply ledger_up_to_ext; [| | | |exact E2]; try done|]
    end.
    + intros j. unfold demand. csimpl. rewrite sum_rows_cons. lia.
    + intros j p. rewrite Hp. intros Ep. specialize (Hl j p Ep).
      unfold purchased, sold in *. rewrite Hpu, Hii.
      rewrite sum_rows_insert by done. lia.
Qed.

Lemma invoice_items_written_settle (l : list InvoiceItem.t) :
  ∀ (owed : uuid → Z) (s s' : db),
    for_each invoice_item_written l s = Ok s' →
    ledger_up_to owed s →
    ledger_up_to (λ j, owed j + demand j l) s'.
Proof.
  induction l as [|NEW l IH]; intros owed s s' Hs Hl; cbn [for_each] in Hs;
    ok_inv.
  - eapply ledger_up_to_ext; [| | | |exact Hl]; try done.
    intros j. unfold demand. simpl. lia.
  - match goal with
    | E1 : invoice_item_written _ _ = Ok ?t, E2 : for_each _ _ ?t = Ok _ |- _ =>
        unfold invoice_item_written in E1; ok_inv;
        match goal with E : invoice_items_after_row _ _ = Ok _ |- _ =>
          pose proof (IH _ _ _ E2
                        (invoice_items_after_row_settles _ _ _ _ E Hl)) as Hl'
        end
    end.
    eapply ledger_up_to_ext; [| | | |exact Hl']; try done.
    intros j. unfold demand. rewrite sum_rows_cons. simpl. lia.
Qed.

Lemma insert_invoice_items_rows_ledger
    (l : list (uuid * InvoiceItem.t)) (s s' : db) :
  insert_invoice_items_rows l s = Ok s' → stock_ledger s → stock_ledger s'.
Proof.
  intros Hs Hl. unfold insert_invoice_items_rows in Hs. ok_inv.
  apply ledger_up_to_zero in Hl.
  match goal with
  | E1 : for_each write_invoice_item _ _ = Ok ?t,
    E2 : for_each invoice_item_written _ ?t = Ok _ |- _ =>
      pose proof (invoice_items_written_settle _ _ _ _ E2
                    (write_invoice_items_owed _ _ _ _ E1 Hl)) as Hl'
  end.
  apply ledger_up_to_zero.
  eapply ledger_up_to_ext; [| | | |exact Hl']; try done. intros j. simpl. lia.
Qed.

(** The state a multi-row delete leaves before its triggers fire. *)
Lemma invoice_items_removed (id : uuid) (s : db) :
  stock_ledger s →
  ledger_up_to (λ pid, returned id pid s)
    (set_invoice_items
       (filter (λ kv, InvoiceItem.invoice_id kv.2 ≠ id) (invoice_items s)) s).
Proof.
  intros Hl.
  eapply ledger_up_to_ext; [| | | |exact (invoice_removed id s Hl)]; done.
Qed.

Lemma delete_invoice_items_of_ledger (id : uuid) (s s' : db) :
  delete_invoice_items_of id s = Ok s' → stock_ledger s → stock_ledger s'.
Proof.
  unfold delete_invoice_items_of. intros Hs Hl.
  apply (ledger_settled (λ pid, returned id pid s)).
  eapply (cascade_settles _ (λ pid, returned id pid s)); [exact Hs|].
  by apply invoice_items_removed.
Qed.

(** ** The multi-row statements keep the constraints *)

Lemma invoice_item_written_keys (NEW : InvoiceItem.t) (s s' : db) :
  invoice_item_written NEW s = Ok s' →
  (∀ id, is_Some (products s' !! id) ↔ is_Some (products s !! id))
  ∧ (∀ id, is_Some (invoices s' !! id) ↔ is_Some (invoices s !! id))
  ∧ is_Some (invoices s !! InvoiceItem.invoice_id NEW)
  ∧ is_Some (products s !! InvoiceItem.product_id NEW).
Proof.
  unfold invoice_item_written, invoice_items_after_row. intros Hs. ok_inv.
  repeat match goal with E : _ _ _ = Ok _ |- _ =>
    apply require_is_Some in E end.
  match goal with E : update_stock_on_sale _ _ = Ok _ |- _ =>
    simpl in E;
    apply update_products_stock_quantity_Ok in E
      as [[_ ->]|(p & q & Ep & _ & _ & _ & ->)] end; simpl in *.
  - split_and!; try done. intros id. apply lookup_alter_is_Some.
  - split_and!; try done.
    + intros id. rewrite lookup_insert_is_Some'. split; [|by right].
      intros [<-|?]; [by eexists|done].
    + intros id. apply lookup_alter_is_Some.
Qed.

Lemma invoice_items_written_fkeys (l : list InvoiceItem.t) :
  ∀ s s', for_each invoice_item_written l s = Ok s' →
    Forall (λ NEW, is_Some (invoices s !! InvoiceItem.invoice_id NEW)
                   ∧ is_Some (products s !! InvoiceItem.product_id NEW)) l.
Proof.
  induction l as [|NEW l IH]; intros s s' Hs; cbn [for_each] in Hs; ok_inv;
    [done|].
  match goal with
  | E1 : invoice_item_written _ _ = Ok ?t, E2 : for_each _ _ ?t = Ok _ |- _ =>
      apply invoice_item_written_keys in E1 as (Hp & Hi & HNi & HNp);
      apply IH in E2
  end.
  constructor; [done|]. eapply Forall_impl; [eassumption|].
  intros ii [? ?]. split; [by apply Hi|by apply Hp].
Qed.

Lemma for_rows_each {A B} (f : A → result B) (l : list A) (ys : list B) :
  for_rows f l = Ok ys → Forall (λ x, ∃ y, f x = Ok y) l.
Proof.
  intros Hl. apply for_rows_Forall2 in Hl.
  induction Hl; constructor; eauto.
Qed.

Lemma write_invoice_items_valid (l : list (uuid * InvoiceItem.t)) :
  ∀ s s', for_each write_invoice_item l s = Ok s' →
    Forall (λ r, in_int4 (InvoiceItem.quantity r.2) = true
                 ∧ is_Some (invoices s !! InvoiceItem.invoice_id r.2)
                 ∧ is_Some (products s !! InvoiceItem.product_id r.2)) l →
    valid s → valid s'.
Proof.
  induction l as [|r l IH]; intros s s' Hs Hl Hv; cbn [for_each] in Hs;
    ok_inv; [done|].
  apply Forall_cons in Hl as [(Hq & Hi & Hp) Hl].
  match goal with
  | E1 : write_invoice_item _ _ = Ok ?t, E2 : for_each _ _ ?t = Ok _ |- _ =>
      unfold write_invoice_item in E1; ok_inv; eapply IH; [exact E2| |]
  end.
  - done.
  - apply set_invoice_items_insert_valid; [|done].
    apply invoice_item_ok_spec. split_and!; try done.
    match goal with E : invoice_items_checks _ = Ok ?u |- _ =>
      by destruct u end.
Qed.

Lemma insert_invoice_items_rows_valid
    (l : list (uuid * InvoiceItem.t)) (s s' : db) :
  insert_invoice_items_rows l s = Ok s' → valid s → valid s'.
Proof.
  intros Hs Hv. unfold insert_invoice_items_rows in Hs. ok_inv.
  match goal with
  | E0 : for_rows _ _ = Ok _,
    E1 : for_each write_invoice_item _ _ = Ok ?t,
    E2 : for_each invoice_item_written _ ?t = Ok _ |- _ =>
      apply for_rows_each in E0; rename E0 into Hint;
      pose proof (invoice_items_written_fkeys _ _ _ E2) as Hfk;
      destruct (write_invoice_items_frame _ _ _ E1) as (Hp & _ & Hi);
      rename E1 into Hwrite; rename E2 into Hfire
  end.
  rewrite Hp, Hi in Hfk. apply Forall_fmap in Hfk.
  eapply for_each_preserves; [|exact Hfire|].
  - intros NEW t t' Ht. unfold invoice_item_written in Ht. ok_inv.
    by eapply invoice_items_after_row_valid.
  - eapply write_invoice_items_valid; [exact Hwrite| |exact Hv].
    apply Forall_forall. intros r Hr.
    pose proof (proj1 (Forall_forall _ _) Hint r Hr) as [q Hq].
    pose proof (proj1 (Forall_forall _ _) Hfk r Hr) as [? ?].
    apply int4_Ok in Hq as [Hq _]. done.
Qed.

Lemma invoice_items_removed_valid (id : uuid) (s : db) :
  valid s →
  valid (set_invoice_items
           (filter (λ kv, InvoiceItem.invoice_id kv.2 ≠ id) (invoice_items s))
           s).
Proof.
  intros (Hp & Hpu & Hii). split; [|split]; simpl; [done| |].
  - intros j pu Hj. by apply (Hpu j).
  - intros j ii Hj. apply map_lookup_filter_Some in Hj as [Hj _].
    by apply (Hii j).
Qed.

Lemma delete_invoice_items_of_valid (id : uuid) (s s' : db) :
  delete_invoice_items_of id s = Ok s' → valid s → valid s'.
Proof.
  unfold delete_invoice_items_of. intros Hs Hv.
  eapply for_each_preserves; [|exact Hs|by apply invoice_items_removed_valid].
  intros OLD t t'. apply invoice_items_after_row_valid.
Qed.

Lemma set_invoices_insert_valid (id : uuid) (NEW : Invoice.t) (s : db) :
  valid s → valid (set_invoices (<[id:=NEW]> (invoices s)) s).
Proof.
  intros (Hp & Hpu & Hii). split; [|split]; simpl; [done| |].
  - intros j pu Hj. by apply (Hpu j).
  - intros j ii Hj. eapply invoice_item_ok_mono; [| |by apply (Hii j)];
      [done|]. intros k _ Hk. simpl. apply lookup_insert_is_Some'. by right.
Qed.

Lemma update_invoices_valid (id : uuid) (NEW : Invoice.t) (s s' : db) :
  update_invoices id NEW s = Ok s' → valid s → valid s'.
Proof.
  unfold update_invoices. intros Hs Hv.
  destruct (invoices s !! id); ok_inv; [|done].
  by apply set_invoices_insert_valid.
Qed.

Lemma insert_invoices_valid (id : uuid) (NEW : Invoice.t) (s s' : db) :
  insert_invoices id NEW s = Ok s' → valid s → valid s'.
Proof.
  unfold insert_invoices. intros Hs Hv. ok_inv.
  by apply set_invoices_insert_valid.
Qed.


(** ** What the requests do to the two parts of the store *)

Lemma store_eq (st st' : store) :
  customers st' = customers st → tables st' = tables st → st' = st.
Proof. destruct st, st'. simpl. by intros -> ->. Qed.

Lemma on_tables_Ok (stmt : db → result db) (st st' : store) :
  on_tables stmt st = Ok st' →
  customers st' = customers st ∧ stmt (tables st) = Ok (tables st').
Proof.
  unfold on_tables. destruct (stmt (tables st)) as [s'|e]; [|done].
  by intros [= <-].
Qed.

Lemma insert_invoices_for_Ok (customer_id : option uuid) (id : uuid)
    (NEW : Invoice.t) (st st' : store) :
  insert_invoices_for customer_id id NEW st = Ok st' →
  customers st' = customers st
  ∧ insert_invoices id NEW (tables st) = Ok (tables st').
Proof.
  unfold insert_invoices_for.
  destruct (insert_invoices id NEW (tables st)) as [s'|e]; [|done]. simpl.
  destruct (invoices_customer_id_fkey customer_id st); [|done].
  by intros [= <-].
Qed.

Lemma update_invoices_for_Ok (customer_id : option uuid) (id : uuid)
    (NEW : Invoice.t) (st st' : store) :
  update_invoices_for customer_id id NEW st = Ok st' →
  customers st' = customers st
  ∧ update_invoices id NEW (tables st) = Ok (tables st').
Proof.
  unfold update_invoices_for.
  destruct (update_invoices id NEW (tables st)) as [s'|e]; [|done]. simpl.
  match goal with |- context [mbind _ ?c] => destruct c; [|done] end.
  by intros [= <-].
Qed.

Lemma insert_customers_Ok (id : uuid) (NEW : Customer.t) (st st' : store) :
  insert_customers id NEW st = Ok st' →
  customers st !! id = None
  ∧ customers st' = <[id := NEW]> (customers st)
  ∧ tables st' = tables st.
Proof.
  unfold insert_customers. intros Hst. ok_inv.
  match goal with E : bool_decide (_ !! _ = None) = true |- _ =>
    apply bool_decide_eq_true in E end.
  done.
Qed.

(** How the customer of the header was settled, between the store [st]
    before and the store [st'] after: a new customer was added under the
    fresh key the store gave it; in the other modes the customers are as
    they were. *)
Definition customer_settled (formData : FormValues.t)
    (new_customer_id : uuid) (st st' : store) : Prop :=
  match FormValues.customer_mode formData with
  | CustomerMode.new =>
      customers st !! new_customer_id = None
      ∧ ∃ name, FormValues.new_customer_name formData = Some name
          ∧ customers st'
            = <[new_customer_id := newCustomer formData name]> (customers st)
  | _ => customers st' = customers st
  end.

(** The first part of [upsertInvoice] touches the customers only; when it
    fails it has written nothing. *)
Lemma resolveCustomer_run (formData : FormValues.t) (new_customer_id : uuid)
    (st st' : store) (o : outcome (option uuid)) :
  resolveCustomer formData new_customer_id st = (st', o) →
  tables st' = tables st
  ∧ match o with
    | Rejected _ => st' = st
    | Resolved _ => customer_settled formData new_customer_id st st'
    end.
Proof.
  unfold resolveCustomer, customer_settled.
  destruct (FormValues.customer_mode formData).
  - destruct (FormValues.customer_id formData); by intros [= <- <-].
  - destruct (FormValues.new_customer_name formData) as [[|c name]|];
      [by intros [= <- <-]| |by intros [= <- <-]].
    unfold mbind, client_bind, request.
    destruct (insert_customers _ _ st) as [st1|e] eqn:Hst1;
      [|by intros [= <- <-]].
    intros [= <- <-].
    apply insert_customers_Ok in Hst1 as (Hfresh & Hc & Ht).
    split; [done|]. split; [done|]. by exists (String c name).
  - by intros [= <- <-].
Qed.

(** The second part of [upsertInvoice] on an invoice under edit: the
    statements that went through, read on the tables. *)
Lemma saveInvoice_edit_run (customerId : option uuid) (id new_id : uuid)
    (invoiceData : Invoice.t) (items : list (uuid * ItemPayload.t))
    (st st' : store) (r : outcome unit) :
  saveInvoice customerId (Some id) new_id invoiceData items st = (st', r) →
  customers st' = customers st
  ∧ match r with
    | Rejected _ =>
        tables st' = tables st
        ∨ update_invoices id invoiceData (tables st) = Ok (tables st')
        ∨ ∃ s1, update_invoices id invoiceData (tables st) = Ok s1
            ∧ delete_invoice_items_of id s1 = Ok (tables st')
    | Resolved _ =>
        ∃ s1 s2, update_invoices id invoiceData (tables st) = Ok s1
          ∧ delete_invoice_items_of id s1 = Ok s2
          ∧ if (0 <? length (itemsToInsert id items))%nat
            then insert_invoice_items_rows (itemsToInsert id items) s2
                 = Ok (tables st')
            else tables st' = s2
    end.
Proof.
  unfold saveInvoice, mbind, client_bind, request, mret, client_ret.
  destruct (update_invoices_for customerId id invoiceData st)
    as [st1|e1] eqn:Hheader; [|intros [= <- <-]; split; [done|by left]].
  apply update_invoices_for_Ok in Hheader as [Hc1 Hheader].
  destruct (on_tables (delete_invoice_items_of id) st1)
    as [st2|e2] eqn:Hdelete;
    [|intros [= <- <-]; split; [done|right; by left]].
  apply on_tables_Ok in Hdelete as [Hc2 Hdelete].
  case_match eqn:Hlen.
  - destruct (on_tables _ st2) as [st3|e3] eqn:Hrows.
    + apply on_tables_Ok in Hrows as [Hc3 Hrows]. intros [= <- <-].
      split; [congruence|]. exists (tables st1), (tables st2).
      by rewrite ?Hlen.
    + intros [= <- <-]. split; [congruence|]. right. right.
      by exists (tables st1).
  - intros [= <- <-]. split; [congruence|]. exists (tables st1), (tables st2).
    by rewrite ?Hlen.
Qed.

(** The same for a new invoice. *)
Lemma saveInvoice_new_run (customerId : option uuid) (new_id : uuid)
    (invoiceData : Invoice.t) (items : list (uuid * ItemPayload.t))
    (st st' : store) (r : outcome unit) :
  saveInvoice customerId None new_id invoiceData items st = (st', r) →
  customers st' = customers st
  ∧ match r with
    | Rejected _ =>
        tables st' = tables st
        ∨ insert_invoices new_id invoiceData (tables st) = Ok (tables st')
    | Resolved _ =>
        ∃ s1, insert_invoices new_id invoiceData (tables st) = Ok s1
          ∧ if (0 <? length (itemsToInsert new_id items))%nat
            then insert_invoice_items_rows (itemsToInsert new_id items) s1
                 = Ok (tables st')
            else tables st' = s1
    end.
Proof.
  unfold saveInvoice, mbind, client_bind, request, mret, client_ret.
  destruct (insert_invoices_for customerId new_id invoiceData st)
    as [st1|e1] eqn:Hheader; [|intros [= <- <-]; split; [done|by left]].
  apply insert_invoices_for_Ok in Hheader as [Hc1 Hheader].
  case_match eqn:Hlen.
  - destruct (on_tables _ st1) as [st2|e2] eqn:Hrows.
    + apply on_tables_Ok in Hrows as [Hc2 Hrows]. intros [= <- <-].
      split; [congruence|]. exists (tables st1). by rewrite ?Hlen.
    + intros [= <- <-]. split; [done|]. by right.
  - intros [= <- <-]. split; [done|]. exists (tables st1). by rewrite ?Hlen.
Qed.

(** ** What the client keeps *)

(** [P] survives a client computation, however it ends. *)
Definition keeps {A} (P : store → Prop) (m : client A) : Prop :=
  ∀ st st' r, m st = (st', r) → P st → P st'.

Lemma keeps_request (P : store → Prop) (stmt : store → result store) :
  (∀ st st', stmt st = Ok st' → P st → P st') → keeps P (request stmt).
Proof.
  intros Hstmt st st' r. unfold request.
  destruct (stmt st) as [t|e] eqn:Ht; intros [= <- <-]; eauto.
Qed.

Lemma keeps_mret {A} (P : store → Prop) (a : A) : keeps P (mret a).
Proof. by intros st st' r [= <- <-]. Qed.

Lemma keeps_throw {A} (P : store → Prop) (f : failure) :
  keeps P (throw (A := A) f).
Proof. by intros st st' r [= <- <-]. Qed.

Lemma keeps_bind {A B} (P : store → Prop) (m : client A) (f : A → client B) :
  keeps P m → (∀ a, keeps P (f a)) → keeps P (m ≫= f).
Proof.
  intros Hm Hf st st' r. unfold mbind, client_bind.
  destruct (m st) as [st1 [a|e]] eqn:Hst1.
  - intros Hfa Hst. eapply Hf; [exact Hfa|]. by eapply Hm.
  - intros [= <- <-]. by eapply Hm.
Qed.

(** A property of the tables that each statement of the form keeps is kept
    by a save, however it ends. *)
Lemma upsertInvoice_keeps (P : db → Prop)
    (formData : FormValues.t) (id : option uuid)
    (new_customer_id new_id : uuid) (invoiceData : Invoice.t)
    (items : list (uuid * ItemPayload.t)) :
  (∀ id NEW s s', update_invoices id NEW s = Ok s' → P s → P s') →
  (∀ id NEW s s', insert_invoices id NEW s = Ok s' → P s → P s') →
  (∀ id s s', delete_invoice_items_of id s = Ok s' → P s → P s') →
  (∀ l s s', insert_invoice_items_rows l s = Ok s' → P s → P s') →
  keeps (λ st, P (tables st))
    (upsertInvoice formData id new_customer_id new_id invoiceData items).
Proof.
  intros Hupdate Hinsert Hdelete Hrows.
  assert (∀ stmt, (∀ s s', stmt s = Ok s' → P s → P s') →
            keeps (λ st, P (tables st)) (request (on_tables stmt)))
    as Hon.
  { intros stmt Hstmt. apply keeps_request. intros st st' Hst.
    apply on_tables_Ok in Hst as [_ Hst]. by eapply Hstmt. }
  unfold upsertInvoice. apply keeps_bind.
  - intros st st' o Hst. apply resolveCustomer_run in Hst as [-> _]. done.
  - intros customerId. unfold saveInvoice. apply keeps_bind.
    + destruct id as [id|].
      * apply keeps_bind; [apply keeps_request|intros _; apply keeps_bind;
          [apply Hon|intros _; apply keeps_mret]].
        -- intros st st' Hst.
           apply update_invoices_for_Ok in Hst as [_ Hst]. by eapply Hupdate.
        -- apply Hdelete.
      * apply keeps_bind; [apply keeps_request|intros _; apply keeps_mret].
        intros st st' Hst.
        apply insert_invoices_for_Ok in Hst as [_ Hst]. by eapply Hinsert.
    + intros invoiceId. case_match; [|apply keeps_mret].
      apply Hon. apply Hrows.
Qed.

Lemma upsertInvoice_keeps_valid
    (formData : FormValues.t) (id : option uuid)
    (new_customer_id new_id : uuid) (invoiceData : Invoice.t)
    (items : list (uuid * ItemPayload.t)) :
  keeps (λ st, valid (tables st))
    (upsertInvoice formData id new_customer_id new_id invoiceData items).
Proof.
  apply (upsertInvoice_keeps valid).
  - apply update_invoices_valid.
  - apply insert_invoices_valid.
  - apply delete_invoice_items_of_valid.
  - apply insert_invoice_items_rows_valid.
Qed.

(** X14. Every save of the invoice form, an edit or a new invoice, for an
    existing customer, a new one or a guest, however it ends, leaves tables
    in which the schema's constraints hold and the stocks agree with the
    ledger, provided it started with such: the requests of [upsertInvoice]
    are not one transaction, yet each of them keeps both properties. *)
Theorem upsertInvoice_keeps_constraints_and_ledger
    (formData : FormValues.t) (id : option uuid)
    (new_customer_id new_id : uuid) (invoiceData : Invoice.t)
    (items : list (uuid * ItemPayload.t)) (st st' : store)
    (r : outcome unit) :
  valid (tables st) → stock_ledger (tables st) →
  upsertInvoice formData id new_customer_id new_id invoiceData items st
  = (st', r) →
  valid (tables st') ∧ stock_ledger (tables st').
Proof.
  intros Hv Hl Hst. split.
  - by eapply (upsertInvoice_keeps_valid _ _ _ _ _ _ _ _ _ Hst).
  - eapply (upsertInvoice_keeps stock_ledger); [| | | |exact Hst|exact Hl].
    + intros k NEW t t' Ht. unfold update_invoices in Ht.
      destruct (invoices t !! k); by ok_inv.
    + intros k NEW t t' Ht. unfold insert_invoices in Ht. by ok_inv.
    + apply delete_invoice_items_of_ledger.
    + apply insert_invoice_items_rows_ledger.
Qed.

Lemma upsertInvoice_keeps_constraints_and_ledger_witness :
  valid (tables Edit.saved.1) ∧ stock_ledger (tables Edit.saved.1).
Proof.
  apply (upsertInvoice_keeps_constraints_and_ledger Edit.asha
           (Some Scenario.inv1) 50%N 0%N
           (Invoice.mk "INV-001" 20 (1260 # 1)) Edit.lines Edit.st
           Edit.saved.1 Edit.saved.2 ltac:(by_evaluation)
           ltac:(by_evaluation)).
  exact (surjective_pairing Edit.saved).
Defined.

(** ** An edit is not atomic *)

Lemma invoice_items_after_row_frame
    (ev : trigger_event InvoiceItem.t) (s s' : db) :
  invoice_items_after_row ev s = Ok s' →
  purchases s' = purchases s ∧ invoice_items s' = invoice_items s.
Proof.
  unfold invoice_items_after_row. intros Hs.
  apply update_stock_on_sale_frame in Hs as (-> & _ & ->).
  by destruct (recalculate_invoice_total_frame ev s) as (_ & -> & ->).
Qed.

(** What a multi-row delete leaves: the lines of the invoice are gone and
    each product has the quantities they held back in stock. *)
Lemma delete_invoice_items_of_result (id : uuid) (s s' : db) :
  delete_invoice_items_of id s = Ok s' →
  invoice_items s'
  = filter (λ kv, InvoiceItem.invoice_id kv.2 ≠ id) (invoice_items s)
  ∧ items_of_invoice id s' = []
  ∧ ∀ pid p, products s !! pid = Some p →
      stock_of pid s'
      = Some (Product.stock_quantity p + returned id pid s).
Proof.
  unfold delete_invoice_items_of. intros Hs.
  assert (invoice_items s'
          = filter (λ kv, InvoiceItem.invoice_id kv.2 ≠ id) (invoice_items s))
    as Hitems.
  { eapply (for_each_preserves
              (λ t, invoice_items t
                    = filter (λ kv, InvoiceItem.invoice_id kv.2 ≠ id)
                        (invoice_items s))); [|exact Hs|done].
    intros OLD t t' Ht. apply invoice_items_after_row_frame in Ht as [_ ->].
    done. }
  split; [done|]. split.
  - apply elem_of_nil_inv. intros ii Hii. unfold items_of_invoice in Hii.
    apply list_elem_of_filter in Hii as [Hid Hii].
    rewrite Hitems in Hii. apply elem_of_rows in Hii as [k Hk].
    apply map_lookup_filter_Some in Hk as [_ Hne]. done.
  - intros pid p Ep. by apply (cascade_result _ _ _ Hs pid p).
Qed.

(** X15. An edit that fails is not undone. When [upsertInvoice] fails on an
    existing invoice, either the store is as it was, or the customer was
    settled (in mode new the customer row was written, and it stays) and
    the tables are left in one of three states: as they were (the header
    was refused); with the new header alone written (the delete of the old
    lines failed); or, when the insert of the new lines is refused, with
    the invoice holding no line at all and the quantities of its old lines
    back in stock. *)
Theorem upsertInvoice_edit_not_atomic
    (formData : FormValues.t) (id new_customer_id new_id : uuid)
    (invoiceData : Invoice.t) (items : list (uuid * ItemPayload.t))
    (st st' : store) (f : failure) :
  upsertInvoice formData (Some id) new_customer_id new_id invoiceData items st
  = (st', Rejected f) →
  st' = st
  ∨ (customer_settled formData new_customer_id st st'
     ∧ (tables st' = tables st
        ∨ update_invoices id invoiceData (tables st) = Ok (tables st')
        ∨ (items_of_invoice id (tables st') = []
           ∧ ∀ pid p, products (tables st) !! pid = Some p →
               stock_of pid (tables st')
               = Some (Product.stock_quantity p
                       + returned id pid (tables st))))).
Proof.
  unfold upsertInvoice, mbind, client_bind.
  destruct (resolveCustomer formData new_customer_id st)
    as [stc [customerId|fc]] eqn:Hcustomer;
    apply resolveCustomer_run in Hcustomer as [Ht Hc];
    [|intros [= <- <-]; by left].
  intros Hsave. right.
  apply saveInvoice_edit_run in Hsave as [Hc' Hsave].
  split.
  { revert Hc. unfold customer_settled. by rewrite Hc'. }
  rewrite Ht in Hsave.
  destruct Hsave as [Hsame|[Hheader|(s1 & Hheader & Hdelete)]];
    [by left|right; by left|].
  right. right.
  destruct (delete_invoice_items_of_result _ _ _ Hdelete)
    as (_ & Hgone & Hback).
  split; [done|]. intros pid p Ep.
  assert (products s1 = products (tables st)
          ∧ invoice_items s1 = invoice_items (tables st)) as [Hp Hi].
  { unfold update_invoices in Hheader.
    destruct (invoices (tables st) !! id); by ok_inv. }
  rewrite (Hback pid p) by by rewrite Hp.
  unfold returned, cascaded_items. by rewrite Hi.
Qed.

Lemma upsertInvoice_edit_not_atomic_witness :
  Edit.saved.2
  = Rejected (refused (check_violation "products_stock_quantity_check"))
  ∧ customers Edit.st !! 50%N = None
  ∧ customers Edit.saved.1
    = <[50%N := Customer.mk "Asha" None None None None false]>
        (customers Edit.st)
  ∧ items_of_invoice Scenario.inv1 (tables Edit.st) ≠ []
  ∧ items_of_invoice Scenario.inv1 (tables Edit.saved.1) = []
  ∧ stock_of Scenario.urea (tables Edit.saved.1) = Some (6 + 4).
Proof.
  split; [by vm_compute|].
  assert (items_of_invoice Scenario.inv1 (tables Edit.st) ≠ []) as Hlines
    by by vm_compute.
  destruct (upsertInvoice_edit_not_atomic Edit.asha Scenario.inv1 50%N 0%N
              (Invoice.mk "INV-001" 20 (1260 # 1)) Edit.lines Edit.st
              Edit.saved.1
              (refused (check_violation "products_stock_quantity_check"))
              ltac:(by vm_compute))
    as [Hsame|[(Hfresh & name & [= <-] & Hadded)
                 [Hsame|[Hheader|[Hgone Hback]]]]].
  - apply (f_equal (λ st, stock_of Scenario.urea (tables st))) in Hsame.
    by vm_compute in Hsame.
  - apply (f_equal (stock_of Scenario.urea)) in Hsame.
    by vm_compute in Hsame.
  - by vm_compute in Hheader.
  - split_and!; [exact Hfresh|exact Hadded|exact Hlines|exact Hgone|].
    exact (Hback Scenario.urea (Product.mk "Urea" 6 (100 # 1) (5 # 100))
             ltac:(by vm_compute)).
Defined.

(** ** What a successful save leaves *)

(** X16. A successful edit moves each stock by what the old lines held of
    the product minus what the new lines ask of it, and it is accepted only
    if, product by product, the new lines together ask for no more than the
    stock on hand plus what the old lines held. *)
Theorem upsertInvoice_edit_stock
    (formData : FormValues.t) (id new_customer_id new_id : uuid)
    (invoiceData : Invoice.t) (items : list (uuid * ItemPayload.t))
    (st st' : store) (pid : uuid) (p : Product.t) :
  valid (tables st) →
  upsertInvoice formData (Some id) new_customer_id new_id invoiceData items st
  = (st', Resolved ()) →
  products (tables st) !! pid = Some p →
  demand pid (itemsToInsert id items).*2
  ≤ Product.stock_quantity p + returned id pid (tables st)
  ∧ stock_of pid (tables st')
    = Some (Product.stock_quantity p + returned id pid (tables st)
            - demand pid (itemsToInsert id items).*2).
Proof.
  intros Hv Hst Ep.
  pose proof (upsertInvoice_keeps_valid _ _ _ _ _ _ _ _ _ Hst Hv) as Hv'.
  simpl in Hv'.
  assert (stock_of pid (tables st')
          = Some (Product.stock_quantity p + returned id pid (tables st)
                  - demand pid (itemsToInsert id items).*2)) as Hstock.
  { revert Hst. unfold upsertInvoice, mbind, client_bind.
    destruct (resolveCustomer formData new_customer_id st)
      as [stc [customerId|fc]] eqn:Hcustomer; [|done].
    apply resolveCustomer_run in Hcustomer as [Ht _].
    intros Hsave.
    apply saveInvoice_edit_run in Hsave
      as (_ & s1 & s2 & Hheader & Hdelete & Hrows).
    rewrite Ht in Hheader.
    destruct (delete_invoice_items_of_result _ _ _ Hdelete) as (_ & _ & Hback).
    assert (products s1 = products (tables st)
            ∧ invoice_items s1 = invoice_items (tables st)) as [Hp Hi].
    { unfold update_invoices in Hheader.
      destruct (invoices (tables st) !! id); by ok_inv. }
    assert (stock_of pid s2
            = Some (Product.stock_quantity p + returned id pid (tables st)))
      as Hs2.
    { rewrite (Hback pid p) by by rewrite Hp.
      unfold returned, cascaded_items. by rewrite Hi. }
    revert Hrows. case_match eqn:Hlen.
    - intros Hrows.
      rewrite (insert_invoice_items_rows_stock _ _ _ Hrows pid), Hs2. simpl.
      f_equal; lia.
    - intros ->. apply Nat.ltb_ge in Hlen.
      destruct (itemsToInsert id items); [|simpl in Hlen; lia].
      rewrite Hs2. unfold demand. simpl. f_equal; lia. }
  split; [|done].
  unfold stock_of in Hstock.
  destruct (products (tables st') !! pid) as [p'|] eqn:Ep'; [|done].
  destruct (valid_product _ _ _ Hv' Ep') as (_ & H0 & _).
  simpl in Hstock. injection Hstock as Hq. lia.
Qed.

Lemma upsertInvoice_edit_stock_witness :
  stock_of Scenario.urea
    (tables
       (upsertInvoice Edit.walk_in (Some Scenario.inv1) 50%N 0%N
          (Invoice.mk "INV-001" 20 0%Q)
          [(300%N, ItemPayload.mk Scenario.urea 9 (100 # 1) (5 # 100))]
          Edit.st).1)
  = Some (6 + 4 - 9).
Proof.
  exact (proj2 (upsertInvoice_edit_stock Edit.walk_in Scenario.inv1 50%N 0%N
                  (Invoice.mk "INV-001" 20 0%Q)
                  [(300%N, ItemPayload.mk Scenario.urea 9 (100 # 1) (5 # 100))]
                  Edit.st
                  (upsertInvoice Edit.walk_in (Some Scenario.inv1) 50%N 0%N
                     (Invoice.mk "INV-001" 20 0%Q)
                     [(300%N,
                       ItemPayload.mk Scenario.urea 9 (100 # 1) (5 # 100))]
                     Edit.st).1
                  Scenario.urea
                  (Product.mk "Urea" 6 (100 # 1) (5 # 100))
                  ltac:(by_evaluation) ltac:(by vm_compute)
                  ltac:(by vm_compute))).
Defined.

Lemma write_invoice_items_rows (l : list (uuid * InvoiceItem.t)) :
  ∀ s s', for_each write_invoice_item l s = Ok s' →
    rows (invoice_items s') ≡ₚ l.*2 ++ rows (invoice_items s).
Proof.
  induction l as [|r l IH]; intros s s' Hs; cbn [for_each] in Hs; ok_inv;
    [done|].
  match goal with
  | E1 : write_invoice_item _ _ = Ok ?t, E2 : for_each _ _ ?t = Ok _ |- _ =>
      apply write_invoice_item_frame in E1 as (_ & _ & _ & Hfresh & Hii);
      apply IH in E2; rewrite E2, Hii
  end.
  rewrite rows_insert by done. csimpl. by rewrite Permutation_middle.
Qed.

Lemma invoice_item_written_frame (NEW : InvoiceItem.t) (s s' : db) :
  invoice_item_written NEW s = Ok s' →
  invoice_items s' = invoice_items s
  ∧ total_is_sum_of_items (InvoiceItem.invoice_id NEW) s'.
Proof.
  unfold invoice_item_written. intros Hs. ok_inv.
  match goal with E : invoice_items_invoice_id_fkey _ _ = Ok _ |- _ =>
    apply require_is_Some in E; rename E into Hinv end.
  match goal with E : invoice_items_after_row _ _ = Ok _ |- _ =>
    rename E into Hrow end.
  split; [by apply invoice_items_after_row_frame in Hrow as [_ ->]|].
  eapply invoice_items_after_row_total; [exact Hrow|].
  by apply (recalculate_invoice_total_correct (TG_INSERT NEW)).
Qed.

(** Once the triggers of the inserted rows have fired, the invoice the rows
    belong to carries the sum of its items. *)
Lemma invoice_items_written_total (id : uuid) (l : list InvoiceItem.t) :
  Forall (λ ii, InvoiceItem.invoice_id ii = id) l →
  ∀ s s', for_each invoice_item_written l s = Ok s' →
    (invoice_items s' = invoice_items s)
    ∧ (l ≠ [] ∨ total_is_sum_of_items id s → total_is_sum_of_items id s').
Proof.
  induction 1 as [|NEW l HNEW _ IH]; intros s s' Hs; cbn [for_each] in Hs;
    ok_inv.
  - split; [done|]. by intros [?|?].
  - match goal with
    | E1 : invoice_item_written _ _ = Ok ?t, E2 : for_each _ _ ?t = Ok _ |- _ =>
        apply invoice_item_written_frame in E1 as [Hi Ht];
        apply IH in E2 as [Hi' Ht']
    end.
    split; [congruence|]. intros _. apply Ht'. right. by rewrite <- HNEW.
Qed.

Lemma itemsToInsert_invoice_id (invoiceId : uuid)
    (items : list (uuid * ItemPayload.t)) :
  Forall (λ ii, InvoiceItem.invoice_id ii = invoiceId)
    (itemsToInsert invoiceId items).*2.
Proof.
  unfold itemsToInsert. induction items as [|[k item] items IH]; csimpl;
    constructor; done.
Qed.

Lemma filter_all {A} (P : A → Prop) `{!∀ x, Decision (P x)} (l : list A) :
  Forall P l → filter P l = l.
Proof.
  induction 1 as [|x l Hx _ IH]; [done|].
  by rewrite filter_cons_True, IH.
Qed.

(** What a successful multi-row insert leaves on an invoice that had no
    line. *)
Lemma insert_invoice_items_rows_lines (invoiceId : uuid)
    (items : list (uuid * ItemPayload.t)) (s s' : db) :
  insert_invoice_items_rows (itemsToInsert invoiceId items) s = Ok s' →
  items_of_invoice invoiceId s = [] →
  items_of_invoice invoiceId s' ≡ₚ (itemsToInsert invoiceId items).*2
  ∧ (items ≠ [] → total_is_sum_of_items invoiceId s').
Proof.
  intros Hs Hnone. unfold insert_invoice_items_rows in Hs. ok_inv.
  match goal with
  | E1 : for_each write_invoice_item _ _ = Ok ?t,
    E2 : for_each invoice_item_written _ ?t = Ok _ |- _ =>
      apply write_invoice_items_rows in E1; rename E1 into Hrows;
      apply (invoice_items_written_total invoiceId) in E2 as [Hi Ht];
        [|apply itemsToInsert_invoice_id]
  end.
  split.
  - unfold items_of_invoice in *. rewrite Hi, Hrows, filter_app, Hnone.
    rewrite app_nil_r. by rewrite filter_all by apply itemsToInsert_invoice_id.
  - intros Hne. apply Ht. left. by destruct items.
Qed.

(** X17. What a successful save stores. After a successful
    [upsertInvoice], whatever the customer mode, the invoice (the edited
    one, or the new one) holds exactly the rows built from the lines of the
    form, and, when there is at least one line, its [total_amount] is the
    sum the trigger computes from those rows: the total the form sent with
    the header does not survive. *)
Theorem upsertInvoice_saves_lines
    (formData : FormValues.t) (id : option uuid)
    (new_customer_id new_id : uuid) (invoiceData : Invoice.t)
    (items : list (uuid * ItemPayload.t)) (st st' : store) :
  valid (tables st) →
  upsertInvoice formData id new_customer_id new_id invoiceData items st
  = (st', Resolved ()) →
  items_of_invoice (default new_id id) (tables st')
  ≡ₚ (itemsToInsert (default new_id id) items).*2
  ∧ (items ≠ [] →
     total_of (default new_id id) (tables st')
     = Some (invoice_items_sum (default new_id id) (tables st'))).
Proof.
  intros Hv.
  assert (∀ invoiceId t,
            items_of_invoice invoiceId t = [] →
            (if (0 <? length (itemsToInsert invoiceId items))%nat
             then insert_invoice_items_rows (itemsToInsert invoiceId items) t
                  = Ok (tables st')
             else tables st' = t) →
            items_of_invoice invoiceId (tables st')
            ≡ₚ (itemsToInsert invoiceId items).*2
            ∧ (items ≠ [] → total_is_sum_of_items invoiceId (tables st')))
    as Hlines.
  { intros invoiceId t Hnone. case_match eqn:Hlen.
    - intros Hrows. by apply (insert_invoice_items_rows_lines _ _ t).
    - intros ->. apply Nat.ltb_ge in Hlen.
      destruct items as [|[k item] items]; [|simpl in Hlen; lia].
      by rewrite Hnone. }
  unfold upsertInvoice, mbind, client_bind.
  destruct (resolveCustomer formData new_customer_id st)
    as [stc [customerId|fc]] eqn:Hcustomer; [|done].
  apply resolveCustomer_run in Hcustomer as [Ht _].
  intros Hsave. destruct id as [id|]; simpl.
  - apply saveInvoice_edit_run in Hsave
      as (_ & s1 & s2 & Hheader & Hdelete & Hrows).
    apply (Hlines id s2); [|done].
    by destruct (delete_invoice_items_of_result _ _ _ Hdelete) as (_ & ? & _).
  - apply saveInvoice_new_run in Hsave as (_ & s1 & Hheader & Hrows).
    apply (Hlines new_id s1); [|done].
    rewrite Ht in Hheader. unfold insert_invoices in Hheader. ok_inv.
    match goal with E : bool_decide _ = true |- _ =>
      apply bool_decide_eq_true in E; rename E into Hfresh end.
    apply elem_of_nil_inv. intros ii Hii. unfold items_of_invoice in Hii.
    apply list_elem_of_filter in Hii as [Hid Hii]. simpl in Hii.
    apply elem_of_rows in Hii as [k Hk].
    destruct (valid_invoice_item _ _ _ Hv Hk) as (_ & [i Hi] & _).
    congruence.
Qed.

Lemma upsertInvoice_saves_lines_witness :
  total_of 12%N
    (tables
       (upsertInvoice Edit.asha None 50%N 12%N
          (Invoice.mk "INV-003" 22 (999 # 1))
          [(300%N, ItemPayload.mk Scenario.urea 2 (100 # 1) (5 # 100))]
          Edit.st).1)
  = Some (invoice_items_sum 12%N
            (tables
               (upsertInvoice Edit.asha None 50%N 12%N
                  (Invoice.mk "INV-003" 22 (999 # 1))
                  [(300%N,
                    ItemPayload.mk Scenario.urea 2 (100 # 1) (5 # 100))]
                  Edit.st).1)).
Proof.
  apply (upsertInvoice_saves_lines Edit.asha None 50%N 12%N
           (Invoice.mk "INV-003" 22 (999 # 1))
           [(300%N, ItemPayload.mk Scenario.urea 2 (100 # 1) (5 # 100))]
           Edit.st
           (upsertInvoice Edit.asha None 50%N 12%N
              (Invoice.mk "INV-003" 22 (999 # 1))
              [(300%N, ItemPayload.mk Scenario.urea 2 (100 # 1) (5 # 100))]
              Edit.st).1
           ltac:(by_evaluation) ltac:(by vm_compute)).
  done.
Defined.

(** X18. A new invoice that fails is not undone. When [upsertInvoice]
    fails on a new invoice, the tables well formed, either the store is as
    it was, or the customer was settled (in mode new the customer row was
    written, and it stays) and the tables are as they were (the header was
    refused), or the invoice row is stored with the header the form sent,
    its [total_amount] included, and without any line, every stock as it
    was: the stored total is then not the sum of the invoice's items unless
    the form sent 0. *)
Theorem upsertInvoice_new_not_atomic
    (formData : FormValues.t) (new_customer_id new_id : uuid)
    (invoiceData : Invoice.t) (items : list (uuid * ItemPayload.t))
    (st st' : store) (f : failure) :
  valid (tables st) →
  upsertInvoice formData None new_customer_id new_id invoiceData items st
  = (st', Rejected f) →
  st' = st
  ∨ (customer_settled formData new_customer_id st st'
     ∧ (tables st' = tables st
        ∨ (invoices (tables st) !! new_id = None
           ∧ invoices (tables st') !! new_id = Some invoiceData
           ∧ items_of_invoice new_id (tables st') = []
           ∧ products (tables st') = products (tables st)
           ∧ (total_is_sum_of_items new_id (tables st') →
              Invoice.total_amount invoiceData = 0%Q)))).
Proof.
  intros Hv.
  unfold upsertInvoice, mbind, client_bind.
  destruct (resolveCustomer formData new_customer_id st)
    as [stc [customerId|fc]] eqn:Hcustomer;
    apply resolveCustomer_run in Hcustomer as [Ht Hc];
    [|intros [= <- <-]; by left].
  intros Hsave. right.
  apply saveInvoice_new_run in Hsave as [Hc' Hsave].
  split.
  { revert Hc. unfold customer_settled. by rewrite Hc'. }
  rewrite Ht in Hsave.
  destruct Hsave as [Hsame|Hheader]; [by left|]. right.
  generalize dependent (tables st'). intros s' Hheader.
  unfold insert_invoices in Hheader. ok_inv.
  match goal with E : bool_decide _ = true |- _ =>
    apply bool_decide_eq_true in E; rename E into Hfresh end.
  assert (items_of_invoice new_id
            (set_invoices (<[new_id:=invoiceData]> (invoices (tables st)))
               (tables st)) = [])
    as Hnone.
  { apply elem_of_nil_inv. intros ii Hii. unfold items_of_invoice in Hii.
    apply list_elem_of_filter in Hii as [Hid Hii]. simpl in Hii.
    apply elem_of_rows in Hii as [k Hk].
    destruct (valid_invoice_item _ _ _ Hv Hk) as (_ & [i Hi] & _).
    congruence. }
  split_and!; try done.
  - simpl. apply lookup_insert_eq.
  - unfold total_is_sum_of_items, total_of, invoice_items_sum.
    rewrite Hnone. simpl. rewrite lookup_insert_eq. simpl. by intros [= ->].
Qed.

Lemma upsertInvoice_new_not_atomic_witness :
  customers
    (upsertInvoice Edit.asha None 50%N 12%N
       (Invoice.mk "INV-003" 22 (1260 # 1)) Edit.lines Edit.st).1
  = <[50%N := Customer.mk "Asha" None None None None false]>
      (customers Edit.st)
  ∧ total_of 12%N
      (tables
         (upsertInvoice Edit.asha None 50%N 12%N
            (Invoice.mk "INV-003" 22 (1260 # 1)) Edit.lines Edit.st).1)
    = Some (1260 # 1)
  ∧ items_of_invoice 12%N
      (tables
         (upsertInvoice Edit.asha None 50%N 12%N
            (Invoice.mk "INV-003" 22 (1260 # 1)) Edit.lines Edit.st).1)
    = [].
Proof.
  destruct (upsertInvoice_new_not_atomic Edit.asha 50%N 12%N
              (Invoice.mk "INV-003" 22 (1260 # 1)) Edit.lines Edit.st
              (upsertInvoice Edit.asha None 50%N 12%N
                 (Invoice.mk "INV-003" 22 (1260 # 1)) Edit.lines Edit.st).1
              (refused (check_violation "products_stock_quantity_check"))
              ltac:(by_evaluation) ltac:(by vm_compute))
    as [Hsame|[(_ & name & [= <-] & Hadded)
                 [Hsame|(_ & Hrow & Hnone & _)]]].
  - apply (f_equal (λ st, customers st !! 50%N)) in Hsame.
    by vm_compute in Hsame.
  - apply (f_equal (λ s, invoices s !! 12%N)) in Hsame.
    by vm_compute in Hsame.
  - split_and!; [exact Hadded| |exact Hnone]. unfold total_of.
    by rewrite Hrow.
Defined.

(** A new customer outlives a header that is refused: the invoice number is
    taken, the customer row is there, the tables are untouched. *)
Example new_customer_outlives_refused_header :
  (upsertInvoice Edit.asha None 50%N 12%N
     (Invoice.mk "INV-001" 22 (1260 # 1)) Edit.lines Edit.st).2
  = Rejected (refused (unique_violation "invoices_invoice_number_key"))
  ∧ customers
      (upsertInvoice Edit.asha None 50%N 12%N
         (Invoice.mk "INV-001" 22 (1260 # 1)) Edit.lines Edit.st).1 !! 50%N
    = Some (Customer.mk "Asha" None None None None false)
  ∧ tables
      (upsertInvoice Edit.asha None 50%N 12%N
         (Invoice.mk "INV-001" 22 (1260 # 1)) Edit.lines Edit.st).1
    = tables Edit.st.
Proof. by vm_compute. Qed.

(** * Deleting a product

    Both foreign keys on [product_id] are ON DELETE RESTRICT: a product a
    purchase or an invoice item names stays. *)

(** [DELETE FROM products WHERE id = id]. *)
Definition delete_products (id : uuid) (s : db) : result db :=
  match products s !! id with
  | None => Ok s
  | Some _ =>
      require (bool_decide
                 (map_Forall (λ _ pu, Purchase.product_id pu ≠ id)
                    (purchases s)))
              (foreign_key_violation "purchases_product_id_fkey");;
      require (bool_decide
                 (map_Forall (λ _ ii, InvoiceItem.product_id ii ≠ id)
                    (invoice_items s)))
              (foreign_key_violation "invoice_items_product_id_fkey");;
      Ok (set_products (delete id (products s)) s)
  end.

Lemma sum_rows_none {A} (f : A → Z) (P : A → Prop) `{!∀ x, Decision (P x)}
    (m : gmap uuid A) :
  map_Forall (λ _ x, ¬ P x) m → sumZ f (filter P (rows m)) = 0.
Proof.
  intros Hm.
  assert (filter P (rows m) = []) as ->; [|done].
  apply elem_of_nil_inv. intros x Hx.
  apply list_elem_of_filter in Hx as [HP Hx].
  apply elem_of_rows in Hx as [k Hk]. by apply (Hm k x).
Qed.

(** X19. Only a product that was never bought or sold, or whose purchases
    and sales are all deleted again, can be deleted. On a well-formed state
    whose stocks agree with the ledger, a DELETE of a product that succeeds
    removes a product with stock 0 that no purchase and no invoice item
    names, and leaves a well-formed state that agrees with the ledger; the
    DELETE of a product with stock on hand is refused by one of the two
    foreign keys. *)
Theorem delete_products_restricted (s : db) (id : uuid) (p : Product.t) :
  valid s → stock_ledger s →
  products s !! id = Some p →
  (∀ s', delete_products id s = Ok s' →
         Product.stock_quantity p = 0
         ∧ purchased id s = 0 ∧ sold id s = 0
         ∧ products s' !! id = None
         ∧ valid s' ∧ stock_ledger s')
  ∧ (Product.stock_quantity p ≠ 0 →
     ∃ c, delete_products id s = Err (foreign_key_violation c)).
Proof.
  intros Hv Hl Ep.
  assert (∀ s', delete_products id s = Ok s' →
                Product.stock_quantity p = 0
                ∧ purchased id s = 0 ∧ sold id s = 0
                ∧ products s' !! id = None
                ∧ valid s' ∧ stock_ledger s') as Hok.
  { intros s' Hs. unfold delete_products in Hs. rewrite Ep in Hs. ok_inv.
    repeat match goal with E : bool_decide _ = true |- _ =>
      apply bool_decide_eq_true in E end.
    match goal with
    | E1 : map_Forall _ (purchases s), E2 : map_Forall _ (invoice_items s)
      |- _ => rename E1 into Hpu; rename E2 into Hii
    end.
    assert (purchased id s = 0) as Hbought
      by (unfold purchased; by apply sum_rows_none).
    assert (sold id s = 0) as Hsold
      by (unfold sold; by apply sum_rows_none).
    split; [rewrite (Hl id p Ep); lia|]. split; [done|]. split; [done|].
    split; [apply lookup_delete_eq|]. split.
    - destruct Hv as (Hp & Hpus & Hiis). split; [|split]; simpl.
      + by apply map_Forall_delete.
      + intros j pu Hj. specialize (Hpus j pu Hj). specialize (Hpu j pu Hj).
        apply purchase_ok_spec in Hpus as (? & ? & ?).
        apply purchase_ok_spec. split_and!; try done. simpl.
        by rewrite lookup_delete_ne.
      + intros j ii Hj. specialize (Hiis j ii Hj). specialize (Hii j ii Hj).
        apply invoice_item_ok_spec in Hiis as (? & ? & ? & ?).
        apply invoice_item_ok_spec. split_and!; try done. simpl.
        by rewrite lookup_delete_ne.
    - intros j pj. simpl. intros Ej.
      apply lookup_delete_Some in Ej as [_ Ej]. by apply Hl. }
  split; [exact Hok|]. intros Hstock.
  destruct (delete_products id s) as [s'|e] eqn:Hs.
  - destruct (Hok s' eq_refl) as (? & _). done.
  - unfold delete_products in Hs. rewrite Ep in Hs.
    repeat match type of Hs with
    | context [require ?b ?e] =>
        destruct b; simpl in Hs; [|injection Hs as <-; by eexists]
    end.
    done.
Qed.

Lemma delete_products_restricted_witness :
  (∃ c, delete_products Scenario.urea Scenario.sA
        = Err (foreign_key_violation c))
  ∧ ∃ s', delete_products Scenario.dap Scenario.sA = Ok s'
          ∧ products s' !! Scenario.dap = None ∧ valid s'.
Proof.
  split.
  - apply (delete_products_restricted Scenario.sA Scenario.urea
             (Product.mk "Urea" 6 (100 # 1) (5 # 100))
             ltac:(by_evaluation) ltac:(by_evaluation) ltac:(by vm_compute)).
    done.
  - destruct (delete_products Scenario.dap Scenario.sA) as [s'|e] eqn:Hs;
      [|by vm_compute in Hs].
    exists s'. split; [done|].
    destruct (proj1 (delete_products_restricted Scenario.sA Scenario.dap
                       (Product.mk "DAP" 0 (250 # 1) (12 # 100))
                       ltac:(by_evaluation) ltac:(by_evaluation)
                       ltac:(by vm_compute)) s' Hs)
      as (_ & _ & _ & Hgone & Hv & _).
    done.
Defined.

(** * When a row is accepted, and what stays deleted *)

(** X21. When a sale is accepted. In a well-formed state the INSERT of an
    invoice item succeeds exactly when its quantity is an integer of the
    column's range, the row passes its CHECK constraints, its id is new, the
    invoice and the product it names exist, and the product's stock covers
    the quantity. *)
Theorem insert_invoice_items_accepted
    (s : db) (id : uuid) (NEW : InvoiceItem.t) :
  valid s →
  (∃ s', insert_invoice_items id NEW s = Ok s')
  ↔ in_int4 (InvoiceItem.quantity NEW) = true
    ∧ invoice_items_checks NEW = Ok ()
    ∧ invoice_items s !! id = None
    ∧ is_Some (invoices s !! InvoiceItem.invoice_id NEW)
    ∧ ∃ p, products s !! InvoiceItem.product_id NEW = Some p
           ∧ InvoiceItem.quantity NEW ≤ Product.stock_quantity p.
Proof.
  intros Hv. split.
  - intros [s' Hs]. pose proof Hs as Hrun.
    unfold insert_invoice_items in Hs. ok_inv.
    match goal with E : bool_decide _ = true |- _ =>
      apply bool_decide_eq_true in E; rename E into Hfresh end.
    match goal with
    | E1 : invoice_items_invoice_id_fkey _ _ = Ok _,
      E2 : invoice_items_product_id_fkey _ _ = Ok _ |- _ =>
        apply require_is_Some in E1; apply require_is_Some in E2 as [p Ep]
    end.
    simpl in *. split_and!; try done.
    + match goal with E : invoice_items_checks _ = Ok ?u |- _ =>
        by destruct u end.
    + exists p. split; [done|].
      by eapply insert_invoice_items_needs_stock.
  - intros (HqR & Hc & Hid & Hinv & p & Ep & Hq).
    destruct (valid_product _ _ _ Hv Ep) as (Hr & H0 & Ht & Hu).
    apply in_int4_spec in HqR.
    unfold insert_invoice_items, invoice_items_after_row,
      invoice_items_invoice_id_fkey, invoice_items_product_id_fkey.
    rewrite (bind_Ok_l _ _ _ (int4_in_range _ HqR)).
    rewrite (bind_Ok_l _ _ _ Hc).
    rewrite (bind_Ok_l _ _ ()) by (by apply require_true, bool_decide_eq_true_2).
    rewrite (bind_Ok_l _ _ ()) by (by apply require_true, bool_decide_eq_true_2).
    rewrite (bind_Ok_l _ _ ())
      by (apply require_true, bool_decide_eq_true_2; simpl; by rewrite Ep).
    unfold update_stock_on_sale, recalculate_invoice_total.
    pose proof Hc as Hc'. apply invoice_items_checks_Ok in Hc' as (Hpos & _).
    apply Z.ltb_lt in Hpos.
    erewrite update_products_stock_quantity_success;
      [by eexists|exact Ep|apply int4_in_range; int4_lia|lia|done|done].
Qed.

Lemma insert_invoice_items_accepted_witness :
  (∃ s', insert_invoice_items 201%N
           (InvoiceItem.mk Scenario.inv2 Scenario.urea 6 (100 # 1) (5 # 100))
           Scenario.sA = Ok s')
  ∧ ¬ (∃ s', insert_invoice_items 201%N
               (InvoiceItem.mk Scenario.inv2 Scenario.urea 7 (100 # 1)
                  (5 # 100))
               Scenario.sA = Ok s').
Proof.
  split.
  - apply (insert_invoice_items_accepted Scenario.sA 201%N
             (InvoiceItem.mk Scenario.inv2 Scenario.urea 6 (100 # 1)
                (5 # 100)) ltac:(by_evaluation)).
    split_and!; [by vm_compute|by vm_compute|by vm_compute|by_evaluation|].
    exists (Product.mk "Urea" 6 (100 # 1) (5 # 100)).
    split; [by vm_compute|by vm_compute].
  - intros Hok.
    apply (insert_invoice_items_accepted Scenario.sA 201%N
             (InvoiceItem.mk Scenario.inv2 Scenario.urea 7 (100 # 1)
                (5 # 100)) ltac:(by_evaluation)) in Hok
      as (_ & _ & _ & _ & p & Ep & Hq).
    vm_compute in Ep. injection Ep as <-. by vm_compute in Hq.
Defined.

(** X22. When a purchase is accepted. In a well-formed state the INSERT of
    a purchase succeeds exactly when its quantity is positive, its id is
    new, the product it names exists and the product's stock plus the
    quantity stays within the integer range. *)
Theorem insert_purchases_accepted (s : db) (id : uuid) (NEW : Purchase.t) :
  valid s →
  (∃ s', insert_purchases id NEW s = Ok s')
  ↔ 0 < Purchase.quantity NEW
    ∧ purchases s !! id = None
    ∧ ∃ p, products s !! Purchase.product_id NEW = Some p
           ∧ Product.stock_quantity p + Purchase.quantity NEW ≤ int4_max.
Proof.
  intros Hv. split.
  - intros [s' Hs].
    unfold insert_purchases, purchases_after_row, update_stock_on_purchase,
      purchases_checks in Hs. ok_inv.
    match goal with E : bool_decide _ = true |- _ =>
      apply bool_decide_eq_true in E; rename E into Hfresh end.
    match goal with E : purchases_product_id_fkey _ _ = Ok _ |- _ =>
      apply require_is_Some in E as [p Ep] end.
    match goal with E : purchases_quantity_check _ = true |- _ =>
      apply Z.ltb_lt in E end.
    simpl in *. split_and!; try done. exists p. split; [done|].
    match goal with E : update_products_stock_quantity _ _ _ = Ok _ |- _ =>
      apply update_products_stock_quantity_Ok in E
        as [[En _]|(p' & q & Ep' & Hq & _)] end; simpl in *; [congruence|].
    simplify_eq. ok_inv.
    match goal with E : in_int4 _ = true |- _ =>
      apply in_int4_spec in E; lia end.
  - intros (Hq & Hid & p & Ep & Hmax).
    destruct (valid_product _ _ _ Hv Ep) as (Hr & H0 & Ht & Hu).
    assert (int4_min ≤ Purchase.quantity NEW ≤ int4_max) as HqR by int4_lia.
    unfold insert_purchases, purchases_after_row, update_stock_on_purchase,
      purchases_checks, purchases_product_id_fkey.
    rewrite (bind_Ok_l _ _ _ (int4_in_range _ HqR)).
    rewrite (bind_Ok_l _ _ ()) by (by apply require_true, Z.ltb_lt).
    rewrite (bind_Ok_l _ _ ()) by (by apply require_true, bool_decide_eq_true_2).
    rewrite (bind_Ok_l _ _ ())
      by (apply require_true, bool_decide_eq_true_2; simpl; by rewrite Ep).
    erewrite update_products_stock_quantity_success;
      [by eexists|exact Ep|apply int4_in_range; int4_lia|lia|done|done].
Qed.

Lemma insert_purchases_accepted_witness :
  ¬ (∃ s', insert_purchases 101%N (Purchase.mk Scenario.urea 20 None 1)
             (execute (InsertPurchase 100%N
                         (Purchase.mk Scenario.urea 19 None int4_max))
                Scenario.s0) = Ok s').
Proof.
  intros Hok.
  apply (insert_purchases_accepted
           (execute (InsertPurchase 100%N
                       (Purchase.mk Scenario.urea 19 None int4_max))
              Scenario.s0)
           101%N (Purchase.mk Scenario.urea 20 None 1)
           ltac:(by_evaluation)) in Hok
    as (_ & _ & p & Ep & Hq).
  vm_compute in Ep. injection Ep as <-. by vm_compute in Hq.
Defined.

Lemma invoices_after_row_absent (ev : trigger_event InvoiceItem.t)
    (id : uuid) (s s' : db) :
  invoice_items_after_row ev s = Ok s' →
  invoices s !! id = None → invoices s' !! id = None.
Proof.
  unfold invoice_items_after_row. intros Hs Hid.
  apply update_stock_on_sale_frame in Hs as (_ & -> & _).
  destruct ev; simpl; try case_decide; simpl; rewrite ?lookup_alter;
    repeat case_decide; simplify_eq; by rewrite ?Hid.
Qed.

(** X23. What is deleted stays deleted. After [delete_invoice_by_id] has
    succeeded for an id, a second call for the same id reports that the
    invoice was not found; after [delete_purchase_safely] has succeeded, a
    second call reports that the purchase was not found. A failed call
    changes nothing, so neither deletion can be applied twice. *)
Theorem deleted_stays_deleted (s s' : db) (id : uuid) (msg : string) :
  (delete_invoice_by_id id s = Ok (msg, s') →
   delete_invoice_by_id id s' = Err (invoice_not_found id)
   ∧ execute (DeleteInvoiceById id) s' = s')
  ∧ (delete_purchase_safely id s = Ok (msg, s') →
     delete_purchase_safely id s' = Err (purchase_not_found id)
     ∧ execute (DeletePurchaseSafely id) s' = s').
Proof.
  split.
  - intros Hs. unfold delete_invoice_by_id, delete_invoices in Hs.
    destruct (invoices s !! id) as [i|] eqn:Hid; [|done]. ok_inv.
    match goal with E : for_each _ _ _ = Ok _ |- _ => rename E into Hs end.
    assert (invoices s' !! id = None) as Hgone.
    { eapply (for_each_preserves (λ t, invoices t !! id = None));
        [|exact Hs|simpl; apply lookup_delete_eq].
      intros OLD t t'. apply invoices_after_row_absent. }
    unfold execute. simpl. unfold delete_invoice_by_id, delete_invoices.
    by rewrite Hgone.
  - intros Hs. unfold delete_purchase_safely in Hs.
    destruct (purchases s !! id) as [pu|] eqn:Hid; [|done]. ok_inv.
    match goal with b : bool |- _ => destruct b end; ok_inv.
    match goal with E : delete_purchases _ _ = Ok _ |- _ =>
      unfold delete_purchases, purchases_after_row in E; rewrite Hid in E;
      apply update_stock_on_purchase_frame in E as (Hpu & _) end.
    assert (purchases s' !! id = None) as Hgone.
    { rewrite Hpu. simpl. apply lookup_delete_eq. }
    unfold execute. simpl. unfold delete_purchase_safely.
    by rewrite Hgone.
Qed.

Lemma deleted_stays_deleted_witness :
  delete_invoice_by_id Scenario.inv1
    (execute (DeleteInvoiceById Scenario.inv1) Scenario.sA)
  = Err (invoice_not_found Scenario.inv1)
  ∧ delete_purchase_safely 100%N
      (execute (DeletePurchaseSafely 100%N) Scenario.sP)
    = Err (purchase_not_found 100%N).
Proof.
  split.
  - apply (proj1 (deleted_stays_deleted Scenario.sA
                    (execute (DeleteInvoiceById Scenario.inv1) Scenario.sA)
                    Scenario.inv1
                    "Invoice and associated items deleted successfully.")).
    by vm_compute.
  - apply (proj2 (deleted_stays_deleted Scenario.sP
                    (execute (DeletePurchaseSafely 100%N) Scenario.sP)
                    100%N "Purchase record deleted successfully.")).
    by vm_compute.
Defined.

(** * Totals are never negative *)

Lemma sumQ_nonnegative {A} (f : A → Q) (l : list A) :
  Forall (λ x, (0 <= f x)%Q) l → (0 <= sumQ f l)%Q.
Proof.
  induction 1 as [|x l Hx _ IH]; simpl; [done|].
  change 0%Q with (0 + 0)%Q. by apply Qplus_le_compat.
Qed.

Lemma line_amount_nonnegative (s : db) (id : uuid) (ii : InvoiceItem.t) :
  valid s → invoice_items s !! id = Some ii → (0 <= line_amount ii)%Q.
Proof.
  intros (_ & _ & Hi) Hii. specialize (Hi _ _ Hii).
  apply invoice_item_ok_spec in Hi as (_ & Hc & _).
  apply invoice_items_checks_Ok in Hc as (Hq & Ht & Hu).
  apply Z.ltb_lt in Hq. apply Qle_bool_iff in Hu.
  unfold invoice_items_tax_rate_check, in_unit_interval in Ht.
  apply andb_true_iff in Ht as [Ht _]. apply Qle_bool_iff in Ht.
  unfold line_amount. repeat apply Qmult_le_0_compat; try done.
  - change 0%Q with (inject_Z 0). rewrite <- Zle_Qle. lia.
  - change 0%Q with (0 + 0)%Q. by apply Qplus_le_compat.
Qed.

(** X24. Totals are never negative. In a well-formed state the sum
    [recalculate_invoice_total] computes for an invoice is at least 0, and
    so is the [total_amount] of every invoice whose stored total is the sum
    of its items, as it is after each insert, update or delete of one of
    its items. *)
Theorem invoice_total_nonnegative (s : db) (id : uuid) :
  valid s →
  (0 <= invoice_items_sum id s)%Q
  ∧ (total_is_sum_of_items id s →
     ∃ t, total_of id s = Some t ∧ (0 <= t)%Q).
Proof.
  intros Hv.
  assert (0 <= invoice_items_sum id s)%Q as Hsum.
  { unfold invoice_items_sum. apply sumQ_nonnegative, Forall_forall.
    intros ii Hii. unfold items_of_invoice in Hii.
    apply list_elem_of_filter in Hii as [_ Hii].
    apply elem_of_rows in Hii as [k Hk].
    by eapply line_amount_nonnegative. }
  split; [done|]. intros Ht. eexists. split; [exact Ht|done].
Qed.

Lemma invoice_total_nonnegative_witness :
  ∃ t, total_of Scenario.inv1 Scenario.sA = Some t ∧ (0 <= t)%Q.
Proof.
  apply (invoice_total_nonnegative Scenario.sA Scenario.inv1
           ltac:(by_evaluation)).
  by vm_compute.
Defined.
